(** * dodge: ladder loader, match crawler and table builder

    A shallow embedding of [src/crawl.py] and [src/process_lol_data.py].

    The Python functions talk to three things outside the program: the Riot
    API client ([LolWatcher]), the wall clock ([time.time]) and the file
    system (through pandas).  They are modelled by a [World], a record of
    oracles that answer each call as a function of the history of calls made
    so far, and by a [state] that is threaded through every function: the
    history itself, the lines printed, and the files written.  Exceptions are
    values of type [exn]; a computation returns [inl e] when it raises [e].

    Floating point numbers ([time.time()], [time_limit], [noise_rate]) are
    modelled as rationals.  A CSV file is modelled by the table [read_csv]
    yields for it; a table that is written is typed again, column by column,
    as reading its text would type it. *)

From Stdlib Require Import QArith Qround Ascii String.
From stdpp Require Import base list strings gmap pretty sorting.

Open Scope Z_scope.

(** ** Values, exceptions, printed lines *)

(** A scalar held in a table cell or a JSON field. *)
Inductive cell :=
| CStr (s : string)
| CInt (z : Z)
| CBool (b : bool)
| CNaN.

#[global] Instance cell_eq_dec : EqDecision cell.
Proof. solve_decision. Defined.

(** The exception classes the two modules can meet. [OtherError] stands for
    any class that none of the [except] clauses names except
    [except Exception]. *)
Inductive exn :=
| AssertionError (msg : string)
| ApiError (status_code : Z)
| TypeError (msg : string)
| ValueError (msg : string)
| KeyError (key : string)
| UnboundLocalError (var : string)
| FileNotFoundError (path : string)
| OtherError (msg : string).

#[global] Instance exn_eq_dec : EqDecision exn.
Proof. solve_decision. Defined.

(** One [print] call, kept as the sequence of its fragments; the [str]
    conversions inside a message are left symbolic. *)
Inductive piece :=
| Txt (s : string)
| Num (z : Z)
| Flt (q : Q)
| Obj (c : cell)
| Exc (e : exn).

Definition line := list piece.

(** ** Python dictionaries

    A [dict] keeps its keys in insertion order; assigning to a key that is
    present keeps its position. *)
Definition dict (V : Type) := list (string * V).

Definition dict_keys {V} (d : dict V) : list string := d.*1.

Fixpoint dict_get {V} (k : string) (d : dict V) : option V :=
  match d with
  | [] => None
  | (k', v) :: d' => if decide (k' = k) then Some v else dict_get k d'
  end.

(** [d[k] = v] *)
Fixpoint dict_set {V} (k : string) (v : V) (d : dict V) : dict V :=
  match d with
  | [] => [(k, v)]
  | (k', v') :: d' =>
      if decide (k' = k) then (k, v) :: d' else (k', v') :: dict_set k v d'
  end.

(** [d1 | d2]: the entries of [d1], updated and extended by those of [d2]. *)
Definition dict_or {V} (d1 d2 : dict V) : dict V :=
  foldl (λ acc kv, dict_set kv.1 kv.2 acc) d1 d2.

(** ** Tables (pandas DataFrames)

    A row maps column names to cells; a column absent from a row reads as
    NaN.  Every row carries its index label.  [file_name] is the attribute
    the crawler sets on the frames it returns. *)
Abbreviation row := (gmap string cell).

Record DataFrame := {
  columns : list string;
  rows : list (cell * row);
  file_name : option string
}.

Definition frame (cols : list string) (rs : list (cell * row)) : DataFrame :=
  {| columns := cols; rows := rs; file_name := None |}.

Definition row_get (c : string) (r : row) : cell := default CNaN (r !! c).

(** A fresh [RangeIndex]: labels 0, 1, 2, ... *)
Definition range_index (rs : list row) : list (cell * row) :=
  imap (λ n r, (CInt (Z.of_nat n), r)) rs.

Definition reset_index (df : DataFrame) : DataFrame :=
  frame (columns df) (range_index (rows df).*2).

(** ** Remote data *)

(** An entry of a league listing. *)
Record league_entry := {
  summonerId : string;
  summonerName : string;
  leaguePoints : Z
}.

(** A participant of a fetched match. *)
Record participant := {
  pt_summonerName : string;
  pt_puuid : string;
  pt_summonerId : string;
  pt_championId : Z;
  pt_win : bool
}.

(** An entry of the static champion list. *)
Record champion := {
  champ_key : Z;
  champ_name : string
}.

(** ** The world *)

Inductive call :=
| time_time
| platform_data (region : string)
| challenger_by_queue (region queue : string)
| grandmaster_by_queue (region queue : string)
| masters_by_queue (region queue : string)
| summoner_by_id (encrypted_summoner_id region : string)
| matchlist_by_puuid (puuid : cell) (region : string)
    (start_time end_time count : Z)
| match_by_id (region match_id : string)
| versions_for_region (region : string)
| champions (version : string)
| read_csv (path : string)
| to_csv (path : string)
| sample (len : nat).

#[global] Instance call_eq_dec : EqDecision call.
Proof. solve_decision. Defined.

(** A call together with whether it returned ([true]) or raised. *)
Definition event := (call * bool)%type.

Definition history := list event.

Record World := {
  w_time : history → Q;
  w_platform_data : history → string → exn + unit;
  w_challenger : history → string → exn + list league_entry;
  w_grandmaster : history → string → exn + list league_entry;
  w_masters : history → string → exn + list league_entry;
  w_summoner : history → string → string → exn + gmap string cell;
  w_matchlist : history → cell → string → Z → Z → exn + list string;
  w_match : history → string → string → exn + list participant;
  w_versions : history → string → exn + string;
  w_champions : history → string → exn + dict champion;
  w_to_csv : history → string → option exn;
  w_csv : list cell → list cell;
  w_sample : history → nat → list nat
}.

Record state := {
  trace : history;
  stdout : list line;
  fs : gmap string DataFrame
}.

(** ** Computations *)

Definition M (A : Type) : Type := state → (exn + A) * state.

Definition ret {A} (a : A) : M A := λ st, (inr a, st).

Definition raise {A} (e : exn) : M A := λ st, (inl e, st).

Definition bind {A B} (m : M A) (k : A → M B) : M B :=
  λ st, match m st with
        | (inr a, st') => k a st'
        | (inl e, st') => (inl e, st')
        end.

(** Run [m] and hand its outcome to the continuation: the skeleton of a
    [try] statement. *)
Definition attempt {A} (m : M A) : M (exn + A) :=
  λ st, let '(r, st') := m st in (inr r, st').

Notation "x <- m ;; k" := (bind m (λ x, k))
  (at level 100, m at next level, right associativity).
Notation "m ;; k" := (bind m (λ _, k))
  (at level 100, right associativity).

Definition print (l : line) : M unit :=
  λ st, (inr (), {| trace := trace st; stdout := stdout st ++ [l]; fs := fs st |}).

Definition log (c : call) (ok : bool) (st : state) : state :=
  {| trace := trace st ++ [(c, ok)]; stdout := stdout st; fs := fs st |}.

(** A call answered by an oracle of the world. *)
Definition ask {A} (c : call) (oracle : history → exn + A) : M A :=
  λ st, let r := oracle (trace st) in
        (r, log c (if r is inr _ then true else false) st).

Definition py_assert (b : bool) (msg : string) : M unit :=
  if b then ret () else raise (AssertionError msg).

(** [round(x)] on a float: to the nearest integer, ties to the even one. *)
Definition py_round (x : Q) : Z :=
  let f := Qfloor x in
  match Qcompare (x - inject_Z f) (1 # 2) with
  | Lt => f
  | Gt => f + 1
  | Eq => if Z.even f then f else f + 1
  end.

Section Program.

Variable W : World.

Definition now : M Q :=
  λ st, (inr (w_time W (trace st)), log time_time true st).

(** *** pandas *)

(** [pd.read_csv(path)]. The table held at [path] is the table as it is
    read; see [retyped] for what is written. *)
Definition pd_read_csv (path : string) : M DataFrame :=
  λ st, match fs st !! path with
        | Some df => (inr (reset_index df), log (read_csv path) true st)
        | None => (inl (FileNotFoundError path), log (read_csv path) false st)
        end.

(** [df.to_csv(path, index = with_index)]. With the index written, the file
    gains a first, unnamed column, which [read_csv] names [Unnamed: 0]. *)
Definition stored (with_index : bool) (df : DataFrame) : DataFrame :=
  if with_index
  then frame ("Unnamed: 0" :: columns df)
             ((λ ir, (ir.1, <["Unnamed: 0" := ir.1]> ir.2)) <$> rows df)
  else frame (columns df) (rows df).

(** *** CSV text

    A file is modelled by the table [read_csv] yields for it. [to_csv] writes
    text, and [read_csv] infers the type of every column from its text, so a
    table that is written is typed again. The model commits itself where the
    rules of pandas leave no doubt: a column that holds a token which is
    neither a missing value, nor a number, nor a boolean is a column of
    strings, in which the tokens of missing values read as NaN and every
    other cell as the text written for it; a column of integers, of booleans
    or of NaN alone is read as it was written. The typing of any other
    column (digits written for strings, numbers beside missing values, ...)
    is left to the world ([w_csv]). *)

(** The text [to_csv] writes for a cell. *)
Definition cell_text (c : cell) : string :=
  match c with
  | CStr s => s
  | CInt z => pretty z
  | CBool true => "True"
  | CBool false => "False"
  | CNaN => ""
  end.

(** The tokens [read_csv] reads as a missing value by default. *)
Definition na_values : list string :=
  [""; "#N/A"; "#N/A N/A"; "#NA"; "-1.#IND"; "-1.#QNAN"; "-NaN"; "-nan";
   "1.#IND"; "1.#QNAN"; "<NA>"; "N/A"; "NA"; "NULL"; "NaN"; "None"; "n/a";
   "nan"; "null"].

Definition lower (c : ascii) : ascii :=
  let n := nat_of_ascii c in
  if bool_decide (65 ≤ n ≤ 90)%nat then ascii_of_nat (n + 32) else c.

Fixpoint lowercase (s : string) : string :=
  match s with
  | EmptyString => EmptyString
  | String c s' => String (lower c) (lowercase s')
  end.

Fixpoint occurs (c : ascii) (s : string) : bool :=
  match s with
  | EmptyString => false
  | String c' s' => if decide (c = c') then true else occurs c s'
  end.

(** Every character of the token may be part of a number. *)
Fixpoint digits_only (s : string) : bool :=
  match s with
  | EmptyString => true
  | String c s' =>
      (occurs c "0123456789+-.eE " || bool_decide (nat_of_ascii c = 9%nat))
      && digits_only s'
  end.

(** The words read as a number or as a boolean, whatever the case of
    their letters. *)
Definition literal_words : list string :=
  ["inf"; "+inf"; "-inf"; "infinity"; "+infinity"; "-infinity"; "true"; "false"].

(** A token that is read neither as a missing value, nor as a number, nor
    as a boolean. *)
Definition surely_text (t : string) : bool :=
  bool_decide (t ∉ na_values) && negb (digits_only t)
  && bool_decide (lowercase t ∉ literal_words).

Definition is_str (c : cell) : bool := if c is CStr _ then true else false.

(** A string with such a text. *)
Definition sure_text (c : cell) : bool :=
  if c is CStr s then surely_text s else false.

(** The column holds a cell whose text makes it a column of strings. *)
Definition text_column (col : list cell) : bool := existsb sure_text col.

(** Integers alone, booleans alone, or NaN alone. *)
Definition plain_column (col : list cell) : bool :=
  forallb (λ c, if c is CInt _ then true else false) col
  || forallb (λ c, if c is CBool _ then true else false) col
  || forallb (λ c, if c is CNaN then true else false) col.

(** A column, written and read. *)
Definition reread (col : list cell) : list cell :=
  if text_column col then
    (λ c, if bool_decide (cell_text c ∈ na_values) then CNaN else CStr (cell_text c))
      <$> col
  else if plain_column col then col
  else w_csv W col.

(** The cells of column [c], row by row. *)
Definition column (c : string) (df : DataFrame) : list cell :=
  (λ ir, row_get c ir.2) <$> rows df.

(** A table, written and read: every column of the table is read again. *)
Definition retyped (df : DataFrame) : DataFrame :=
  frame (columns df)
    (imap (λ n ir,
             (ir.1,
              list_to_map
                ((λ c, (c, default CNaN (reread (column c df) !! n))) <$> columns df)))
       (rows df)).

(** What a failed write leaves at the path is not modelled: the model keeps
    the files as they were, and no statement below speaks of the files after
    a write has failed. *)
Definition df_to_csv (df : DataFrame) (path : string) (with_index : bool) : M unit :=
  λ st, match w_to_csv W (trace st) path with
        | Some e => (inl e, log (to_csv path) false st)
        | None =>
            (inr (), {| trace := trace st ++ [(to_csv path, true)];
                        stdout := stdout st;
                        fs := <[path := retyped (stored with_index df)]> (fs st) |})
        end.

(** [df.loc[:, cols]]: the listed columns, or [KeyError] on the first one
    that is missing. *)
Definition loc_columns (df : DataFrame) (cols : list string) : M DataFrame :=
  match filter (λ c, c ∉ columns df) cols with
  | c :: _ => raise (KeyError c)
  | [] =>
      ret (frame cols
             ((λ ir, (ir.1, filter (λ kv, kv.1 ∈ cols) ir.2)) <$> rows df))
  end.

(** [df.loc[:, c]] as the sequence of the values of column [c]. *)
Definition loc_series (df : DataFrame) (c : string) : M (list cell) :=
  if decide (c ∈ columns df)
  then ret ((λ ir, row_get c ir.2) <$> rows df)
  else raise (KeyError c).

(** *** crawl.py *)

(** Line 25 and line 102. Python joins the adjacent literals ['eun1' 'kr']
    into one string. *)
Definition valid_regions : list string :=
  ["na1"; "euw1"; "eun1" +:+ "kr"].

(** Lines 29-37 and 124-132: the status probe. *)
Definition check_api_key (reg : string) : M unit :=
  r <- attempt (ask (platform_data reg) (λ h, w_platform_data W h reg)) ;;
  match r with
  | inr _ => ret ()
  | inl (ApiError code) =>
      if decide (code = 401)
      then (print [Txt "Invalid API key."] ;; raise (ApiError code))
      else raise (ApiError code)
  | inl e => raise e
  end.

(** **** load_players *)

(** A tuple appended to [in_order_players] (lines 58-60). *)
Record player_tuple := {
  t_puuid : cell;
  t_accountId : cell;
  t_summonerId : string;
  t_summonerName : string;
  t_leaguePoints : Z
}.

(** [sorted(l, key = key, reverse = True)]: the stable descending sort. *)
Fixpoint insert_desc {A} (key : A → Z) (x : A) (l : list A) : list A :=
  match l with
  | [] => [x]
  | y :: l' =>
      if decide (key x < key y) then y :: insert_desc key x l' else x :: l
  end.

Definition sorted_desc {A} (key : A → Z) (l : list A) : list A :=
  foldr (insert_desc key) [] l.

(** The local variables of the loop of lines 48-63. [summoner_info] is
    unbound until the first profile lookup returns. *)
Record loader_vars := {
  summoner_info : option (gmap string cell);
  in_order_players : list player_tuple;
  j : Z
}.

(** [d[k]] on a JSON object. *)
Definition subscript (d : gmap string cell) (k : string) : M cell :=
  match d !! k with
  | Some v => ret v
  | None => raise (KeyError k)
  end.

(** Lines 51-63: one iteration. *)
Definition load_player (reg : string) (summoner : league_entry) (i : Z)
    (v : loader_vars) : M loader_vars :=
  r <- attempt (ask (summoner_by_id (summonerId summoner) reg)
                  (λ h, w_summoner W h (summonerId summoner) reg)) ;;
  v' <- match r with
        | inl (ApiError code) =>
            info <- match summoner_info v with
                    | Some info => ret info
                    | None => raise (UnboundLocalError "summoner_info")
                    end ;;
            name <- subscript info "summonerName" ;;
            print [Txt "An exception as occurred at when processing ";
                   Obj name; Txt ":"] ;;
            print [Exc (ApiError code)] ;;
            ret {| summoner_info := summoner_info v;
                   in_order_players := in_order_players v;
                   j := j v + j v |}
        | inl e => raise e
        | inr info =>
            puuid <- subscript info "puuid" ;;
            accountId <- subscript info "accountId" ;;
            ret {| summoner_info := Some info;
                   in_order_players :=
                     in_order_players v ++
                       [{| t_puuid := puuid; t_accountId := accountId;
                           t_summonerId := summonerId summoner;
                           t_summonerName := summonerName summoner;
                           t_leaguePoints := leaguePoints summoner |}];
                   j := j v |}
        end ;;
  (if decide (i `mod` 100 = 0)
   then print [Num i; Txt "players processed."]
   else ret ()) ;;
  ret v'.

(** Lines 48-63: the loop over [zip(entries, range(1, player_count + 1))]. *)
Fixpoint load_player_loop (reg : string) (todo : list (league_entry * Z))
    (v : loader_vars) : M loader_vars :=
  match todo with
  | [] => ret v
  | (summoner, i) :: todo' =>
      v' <- load_player reg summoner i v ;;
      load_player_loop reg todo' v'
  end.

Definition player_row (t : player_tuple) : row :=
  {[ "puuid" := t_puuid t;
     "accountId" := t_accountId t;
     "summonerId" := CStr (t_summonerId t);
     "summonerName" := CStr (t_summonerName t);
     "leaguePoints" := CInt (t_leaguePoints t) ]}.

Definition player_columns : list string :=
  ["puuid"; "accountId"; "summonerId"; "summonerName"; "leaguePoints"].

(** [df.sort_values(by, ascending = False)] on a column of integers, the
    only kind this program sorts. pandas does not fix the order of rows
    with equal values; the model keeps them in their order. *)
Definition int_of_cell (c : cell) : option Z :=
  match c with CInt z => Some z | _ => None end.

Definition sort_values_desc (df : DataFrame) (by_ : string) : M DataFrame :=
  if decide (by_ ∈ columns df) then
    match mapM (λ ir : cell * row,
                  z ← int_of_cell (row_get by_ ir.2); Some (z, ir)) (rows df) with
    | Some keyed => ret (frame (columns df) (sorted_desc fst keyed).*2)
    | None => raise (TypeError "'<' not supported between instances")
    end
  else raise (KeyError by_).

Definition with_file_name (df : DataFrame) (name : string) : DataFrame :=
  {| columns := columns df; rows := rows df; file_name := Some name |}.

(** The [str] of an integer. *)
Definition str (z : Z) : string := pretty z.

(** Lines 24-72: the ranked table, before it is saved. *)
Definition ranked_players (reg : string) (player_count : Z) : M DataFrame :=
  py_assert (bool_decide (reg ∈ valid_regions)) "Invalid region." ;;
  py_assert (bool_decide (0 < player_count)) "Invalid player count (must be >0)." ;;
  check_api_key reg ;;
  chal_players <- ask (challenger_by_queue reg "RANKED_SOLO_5x5")
                    (λ h, w_challenger W h reg) ;;
  gm_players <- ask (grandmaster_by_queue reg "RANKED_SOLO_5x5")
                    (λ h, w_grandmaster W h reg) ;;
  m_players <- ask (masters_by_queue reg "RANKED_SOLO_5x5")
                    (λ h, w_masters W h reg) ;;
  v <- load_player_loop reg
         (zip (chal_players ++ gm_players ++ m_players) (seqZ 1 player_count))
         {| summoner_info := None; in_order_players := []; j := 0 |} ;;
  let in_order_players := sorted_desc t_leaguePoints (in_order_players v) in
  let df := frame player_columns (range_index (player_row <$> in_order_players)) in
  df <- sort_values_desc df "leaguePoints" ;;
  t <- now ;;
  let curr_date := py_round t in
  ret (with_file_name df
         ("raw_player_data_" +:+ reg +:+ "_" +:+ str curr_date +:+ ".csv")).

(** Lines 12-82. *)
Definition load_players (reg : string) (player_count : Z)
    (save_path : option string) : M DataFrame :=
  df <- ranked_players reg player_count ;;
  match save_path with
  | Some save_path =>
      r <- attempt (df_to_csv df (save_path +:+ default "" (file_name df)) false) ;;
      match r with
      | inl e =>
          print [Exc e] ;;
          print [Txt "Failed to save player data to .csv file."] ;;
          ret df
      | inr _ => ret df
      end
  | None => ret df
  end.

(** **** load_matches_from_player *)

(** The column ['p{p_num}'.format(p_num = i) + suffix]. *)
Definition slot_col (i : Z) (suffix : string) : string :=
  "p" +:+ str i +:+ suffix.

(** Lines 211-222: the flat record of a match, participant by participant. *)
Fixpoint serialise (ps : list participant) (i : Z) (info : dict cell) : dict cell :=
  match ps with
  | [] => info
  | p :: ps' =>
      let i := i + 1 in
      let info := dict_set (slot_col i "_name") (CStr (pt_summonerName p)) info in
      let info := dict_set (slot_col i "_puuid") (CStr (pt_puuid p)) info in
      let info := dict_set (slot_col i "_summonerId") (CStr (pt_summonerId p)) info in
      let info := dict_set (slot_col i "_champId") (CInt (pt_championId p)) info in
      let info := dict_set (slot_col i "_win") (CBool (pt_win p)) info in
      serialise ps' i info
  end.

(** Lines 200-225: the loop over the listed ids. A failed fetch leaves the
    loop ([break]); any other exception leaves the function. The boolean of
    the result tells whether the loop was left by [break]. *)
Fixpoint fetch_matches (reg : string) (match_list : list string)
    (player_match_data : dict (dict cell)) (searched_matches : list string)
    : M (dict (dict cell) * list string * bool) :=
  match match_list with
  | [] => ret (player_match_data, searched_matches, false)
  | match_id :: match_list' =>
      if decide (match_id ∉ searched_matches) then
        r <- attempt (ask (match_by_id reg match_id)
                        (λ h, w_match W h reg match_id)) ;;
        match r with
        | inl (ApiError code) =>
            print [Exc (ApiError code)] ;;
            print [Txt "There was an issue finding the match information for match_id = ";
                   Txt match_id; Txt ":"] ;;
            ret (player_match_data, searched_matches, true)
        | inl e => raise e
        | inr participants =>
            let serialised_match_info := serialise participants 0 [] in
            fetch_matches reg match_list'
              (dict_set match_id serialised_match_info player_match_data)
              (searched_matches ++ [match_id])
        end
      else fetch_matches reg match_list' player_match_data searched_matches
  end.

(** Lines 175-227. The result is [None] where the function executes the
    bare [return] of line 196. The list [searched_matches] is the caller's
    own object, appended to in place; the caller rebinds its variable to the
    returned list, so passing the list in and out is the same thing. *)
Definition load_matches_from_player (puuid : cell) (start_date end_date : Z)
    (reg : string) (searched_matches : list string)
    : M (option (dict (dict cell) * list string)) :=
  r <- attempt (ask (matchlist_by_puuid puuid reg start_date end_date 100)
                  (λ h, w_matchlist W h puuid reg start_date end_date)) ;;
  match r with
  | inl (ApiError code) =>
      print [Exc (ApiError code)] ;;
      print [Txt "There was an issue finding the matches of player";
             Obj puuid; Txt ":"] ;;
      ret None
  | inl e => raise e
  | inr match_list =>
      res <- fetch_matches reg match_list [] searched_matches ;;
      ret (Some res.1)
  end.

(** **** load_matches *)

(** The local variables of the loop of lines 142-156. *)
Record crawl_vars := {
  searched_matches : list string;
  match_data : dict (dict cell);
  prev : Z;
  i : Z
}.

Definition len {A} (l : list A) : Z := Z.of_nat (length l).

(** Lines 144-156: one iteration; the boolean tells whether it ended in
    the [break] of line 156. *)
Definition crawl_player (reg : string) (date curr_time : Z) (time_limit : Q)
    (size : Z) (puuid : cell) (v : crawl_vars) : M (crawl_vars * bool) :=
  res <- load_matches_from_player puuid date curr_time reg (searched_matches v) ;;
  match res with
  | None => raise (TypeError "cannot unpack non-iterable NoneType object")
  | Some (player_match_history, searched_matches) =>
      let match_data := dict_or (match_data v) player_match_history in
      prev <- (if decide (100 < len searched_matches - prev v)
               then print [Num (len searched_matches); Txt "matches searched."] ;;
                    ret (len searched_matches)
               else ret (prev v)) ;;
      let i := i v + 1 in
      let v' := {| searched_matches := searched_matches;
                   match_data := match_data; prev := prev; i := i |} in
      t <- now ;;
      if Qle_bool (time_limit * (60 ^ 2)) (t - inject_Z curr_time) then
        print [Txt "Time limit of "; Flt time_limit; Txt " hours exceeded."] ;;
        print [Num i; Txt "out of"; Num size;
               Txt "player's match history processed."] ;;
        ret (v', true)
      else ret (v', false)
  end.

(** Lines 142-156: the loop over the players, in their order. The boolean
    of the result tells whether the loop was left by [break]. *)
Fixpoint crawl_players (reg : string) (date curr_time : Z) (time_limit : Q)
    (size : Z) (player_puuids : list cell) (v : crawl_vars)
    : M (crawl_vars * bool) :=
  match player_puuids with
  | [] => ret (v, false)
  | puuid :: player_puuids' =>
      vb <- crawl_player reg date curr_time time_limit size puuid v ;;
      if vb.2 then ret vb
      else crawl_players reg date curr_time time_limit size player_puuids' vb.1
  end.

(** The variables of [load_matches] when its loop starts (lines 136-140). *)
Definition crawl_start : crawl_vars :=
  {| searched_matches := []; match_data := []; prev := 0; i := 0 |}.

(** Keeps the first occurrence of every element. *)
Fixpoint drop_dups {A} `{EqDecision A} (l : list A) : list A :=
  match l with
  | [] => []
  | x :: l' => x :: filter (λ y, y ≠ x) (drop_dups l')
  end.

(** Lines 158-160: [pd.DataFrame.from_dict(match_data, orient = 'index')]
    followed by the new first column [match_id], a copy of the index. *)
Definition match_frame (match_data : dict (dict cell)) : DataFrame :=
  frame ("match_id" :: drop_dups (match_data.*2 ≫= dict_keys))
        ((λ kv, (CStr kv.1, <["match_id" := CStr kv.1]> (list_to_map kv.2)))
           <$> match_data).

(** Lines 101-139: everything before the loop. *)
Definition load_matches_setup (reg : string) (date : Z)
    (players : option DataFrame) (load_path : option string)
    (time_limit : option Q) : M (Q * list cell * Z) :=
  py_assert (bool_decide (reg ∈ valid_regions)) "Invalid region" ;;
  time_limit <- match time_limit with
                | None => raise (TypeError
                    "'>' not supported between instances of 'NoneType' and 'int'")
                | Some tl =>
                    py_assert (negb (Qle_bool tl 0)) "Invalid time limit (must be >0)." ;;
                    ret tl
                end ;;
  t <- now ;;
  py_assert (negb (Qle_bool t (inject_Z date)))
    "Invalid date (must be < current Epoch minute time)" ;;
  player_puuids <-
    match players, load_path with
    | None, None => raise (ValueError "Specify at least one of players or load_data")
    | None, Some load_path =>
        df <- pd_read_csv load_path ;;
        r <- attempt (loc_series df "puuid") ;;
        match r with
        | inl (KeyError k) =>
            print [Txt "Data must have column with key 'puuid'."] ;;
            raise (KeyError k)
        | inl e => raise e
        | inr s => ret s
        end
    | Some players, _ =>
        r <- attempt (loc_series players "puuid") ;;
        match r with
        | inl (KeyError k) =>
            print [Txt "Data must have column with key 'puuid'."] ;;
            raise (KeyError k)
        | inl e => raise e
        | inr s => ret s
        end
    end ;;
  check_api_key reg ;;
  t <- now ;;
  ret (time_limit, player_puuids, py_round (t - 1)).

(** Lines 158-173: the table and its file. *)
Definition load_matches_finish (reg : string) (date curr_time : Z)
    (save_path : option string) (match_data : dict (dict cell)) : M DataFrame :=
  let name := "raw_match_data_" +:+ reg +:+ "_" +:+ str date +:+ "_"
                +:+ str curr_time +:+ ".csv" in
  let df := with_file_name (match_frame match_data) name in
  match save_path with
  | Some save_path =>
      r <- attempt (df_to_csv df (save_path +:+ name) true) ;;
      match r with
      | inl e =>
          print [Exc e] ;;
          print [Txt "Failed to save match data to .csv file."] ;;
          ret df
      | inr _ => ret df
      end
  | None => ret df
  end.

Definition load_matches (reg : string) (date : Z) (players : option DataFrame)
    (load_path save_path : option string) (time_limit : option Q) : M DataFrame :=
  s <- load_matches_setup reg date players load_path time_limit ;;
  let '(time_limit, player_puuids, curr_time) := s in
  vb <- crawl_players reg date curr_time time_limit (len player_puuids) player_puuids
          crawl_start ;;
  load_matches_finish reg date curr_time save_path (match_data vb.1).

(** *** More pandas, for process_lol_data.py *)

(** [df.rename(columns = {old: new})] on one row and on a frame. *)
Definition rename_key (old new : string) (r : row) : row :=
  match r !! old with
  | Some v => <[new := v]> (delete old r)
  | None => r
  end.

Definition rename_column (old new : string) (df : DataFrame) : DataFrame :=
  frame ((λ c, if decide (c = old) then new else c) <$> columns df)
        ((λ ir, (ir.1, rename_key old new ir.2)) <$> rows df).

Definition rename_columns (mapping : list (string * string)) (df : DataFrame)
    : DataFrame :=
  foldl (λ df on, rename_column on.1 on.2 df) df mapping.

(** [pd.concat([a, b], ignore_index = True)] *)
Definition concat (a b : DataFrame) : DataFrame :=
  frame (columns a ++ filter (λ c, c ∉ columns a) (columns b))
        (range_index ((rows a).*2 ++ (rows b).*2)).

(** Two rows agree on the given columns. *)
Definition same_row (cols : list string) (r1 r2 : row) : Prop :=
  Forall (λ c, row_get c r1 = row_get c r2) cols.

#[global] Instance same_row_dec cols r1 r2 : Decision (same_row cols r1 r2).
Proof. unfold same_row. apply _. Defined.

Fixpoint drop_duplicate_rows (cols : list string) (rs : list row) : list row :=
  match rs with
  | [] => []
  | r :: rs' =>
      r :: filter (λ r', ¬ same_row cols r r') (drop_duplicate_rows cols rs')
  end.

(** [df.drop_duplicates(ignore_index = True)]: the first of equal rows stays. *)
Definition drop_duplicates (df : DataFrame) : DataFrame :=
  frame (columns df) (range_index (drop_duplicate_rows (columns df) (rows df).*2)).

(** [df[c] = f(label, row)] for every row; a new column goes last. *)
Definition assign (c : string) (f : cell → row → cell) (df : DataFrame) : DataFrame :=
  frame (if decide (c ∈ columns df) then columns df else columns df ++ [c])
        ((λ ir, (ir.1, <[c := f ir.1 ir.2]> ir.2)) <$> rows df).

(** [df.drop(columns = cols)] *)
Definition drop_columns (df : DataFrame) (cols : list string) : M DataFrame :=
  match filter (λ c, c ∉ columns df) cols with
  | c :: _ => raise (KeyError c)
  | [] =>
      ret (frame (filter (λ c, c ∉ cols) (columns df))
             ((λ ir, (ir.1, filter (λ kv, kv.1 ∉ cols) ir.2)) <$> rows df))
  end.

(** [df.sample(frac = frac).index]: the labels of [round(frac * len(df))]
    rows, at the positions the world draws. *)
Definition sample_index (df : DataFrame) (frac : Q) : M (list cell) :=
  λ st, let n := length (rows df) in
        let k := Z.to_nat (py_round (frac * inject_Z (Z.of_nat n))) in
        let picks := take k (w_sample W (trace st) n) in
        (inr (omap (λ p, fst <$> rows df !! p) picks), log (sample n) true st).

(** [df.loc[labels, [c]] = v] *)
Definition loc_assign (labels : list cell) (c : string) (v : cell)
    (df : DataFrame) : DataFrame :=
  frame (columns df)
        ((λ ir, if decide (ir.1 ∈ labels) then (ir.1, <[c := v]> ir.2) else ir)
           <$> rows df).

(** [left.join(right.set_index(key), on = on)]: the left join. A left row
    without a partner is kept, its new columns NaN; a left row with several
    partners is repeated, once for each in their order. *)
Definition join_row (key on : string) (rcols : list string) (right : list row)
    (ir : cell * row) : list (cell * row) :=
  match filter (λ m, row_get key m = row_get on ir.2) right with
  | [] => [ir]
  | ms => (λ m, (ir.1, foldr (λ c acc, <[c := row_get c m]> acc) ir.2 rcols)) <$> ms
  end.

(** The dtypes of the two key columns, as far as the join looks at them. A
    non-empty column of integers and NaN alone is a numeric column, one of
    booleans alone a boolean column. Any other non-empty column is a column
    of objects; it is taken for text (inferred as [string] or [mixed]) unless
    it holds an integer. Joining a numeric column and one taken for text, or
    the other way round, raises [ValueError]. *)
Definition numeric (col : list cell) : bool :=
  match col with
  | [] => false
  | _ => forallb (λ c, match c with CInt _ | CNaN => true | _ => false end) col
  end.

Definition boolean (col : list cell) : bool :=
  match col with
  | [] => false
  | _ => forallb (λ c, if c is CBool _ then true else false) col
  end.

Definition textual (col : list cell) : bool :=
  match col with
  | [] => false
  | _ => negb (numeric col) && negb (boolean col)
         && negb (existsb (λ c, if c is CInt _ then true else false) col)
  end.

Definition join (left right : DataFrame) (key on : string) : M DataFrame :=
  if decide (key ∈ columns right) then
    let rcols := filter (λ c, c ≠ key) (columns right) in
    if decide (on ∈ columns left) then
      if (numeric (column on left) && textual (column key right))
         || (textual (column on left) && numeric (column key right))
      then raise (ValueError "You are trying to merge on int64 and object columns")
      else if decide (Forall (λ c, c ∉ columns left) rcols) then
        ret (frame (columns left ++ rcols)
               (rows left ≫= join_row key on rcols (rows right).*2))
      else raise (ValueError "columns overlap but no suffix specified")
    else raise (KeyError on)
  else raise (KeyError key).

(** *** String helpers *)

Fixpoint has_slash (s : string) : bool :=
  match s with
  | EmptyString => false
  | String c s' => if decide (c = "/"%char) then true else has_slash s'
  end.

(** [os.path.split(path)[1]]: what follows the last slash. *)
Fixpoint basename (path : string) : string :=
  match path with
  | EmptyString => EmptyString
  | String c s' =>
      if has_slash s' then basename s'
      else if decide (c = "/"%char) then s' else path
  end.

(** [s.replace(old, new)] for a non-empty [old]; [skip] counts the
    characters of a replaced occurrence still to pass over. *)
Fixpoint replace_go (old new : string) (skip : nat) (s : string) : string :=
  match s with
  | EmptyString => EmptyString
  | String c s' =>
      match skip with
      | S k => replace_go old new k s'
      | O =>
          if String.prefix old s
          then new +:+ replace_go old new (String.length old - 1) s'
          else String c (replace_go old new 0 s')
      end
  end.

Definition replace (old new s : string) : string := replace_go old new 0 s.

(** *** process_lol_data.py *)

(** What the two functions return: the table, or the table and the name
    of the file it was saved to. *)
Inductive processed :=
| Table (df : DataFrame)
| Saved (df : DataFrame) (name : string).

Definition table_of (p : processed) : DataFrame :=
  match p with Table df => df | Saved df _ => df end.

(** Lines 26-34 and 38-48: the three identity columns of slot [i], renamed. *)
Definition slot_players (load_path : string) (match_data : DataFrame)
    (name puuid sid : string) : M DataFrame :=
  r <- attempt (loc_columns match_data [name; puuid; sid]) ;;
  match r with
  | inl (KeyError k) =>
      print [Txt "File at "; Txt load_path; Txt " has invalid format"] ;;
      raise (KeyError k)
  | inl e => raise e
  | inr df =>
      ret (rename_columns [(name, "name"); (puuid, "puuid"); (sid, "summonerId")] df)
  end.

(** Lines 36-51: the loop over the slots 2 to 10. *)
Fixpoint combine_players (load_path : string) (match_data : DataFrame)
    (slots : list Z) (combined_player_names : DataFrame) : M DataFrame :=
  match slots with
  | [] => ret combined_player_names
  | i :: slots' =>
      player_names <- slot_players load_path match_data (slot_col i "_name")
                        (slot_col i "_puuid") (slot_col i "_summonerId") ;;
      combine_players load_path match_data slots'
        (drop_duplicates (concat combined_player_names player_names))
  end.

Definition unknown_row : DataFrame :=
  frame ["name"; "puuid"; "summonerId"]
        [(CInt 0, {[ "name" := CStr "<U>"; "puuid" := CStr "0";
                     "summonerId" := CStr "0" ]})].

(** Lines 24-59: the directory of the players of a raw match file. *)
Definition player_directory (load_path : string) (include_key : bool) : M DataFrame :=
  match_data <- pd_read_csv load_path ;;
  combined_player_names <-
    slot_players load_path match_data "p1_name" "p1_puuid" "p1_summonerId" ;;
  combined_player_names <-
    combine_players load_path match_data (seqZ 2 9) combined_player_names ;;
  let combined_player_names := concat unknown_row combined_player_names in
  ret (if include_key
       then assign "key" (λ label _, label) combined_player_names
       else combined_player_names).

Definition process_player_data_from_matches (load_path : string)
    (save_path : option string) (include_key : bool) : M processed :=
  combined_player_names <- player_directory load_path include_key ;;
  let match_data_file_name := basename load_path in
  match save_path with
  | Some save_path =>
      let name := replace "raw_match_data" "processed_player_data"
                    match_data_file_name in
      r <- attempt (df_to_csv combined_player_names (save_path +:+ name) false) ;;
      match r with
      | inl e =>
          print [Txt "Failed to save processed player data to .csv file."] ;;
          raise e
      | inr _ => ret (Saved combined_player_names name)
      end
  | None => ret (Table combined_player_names)
  end.

(** Lines 109-110: champion ids to champion names. *)
Definition champ_dict (data : dict champion) : gmap Z string :=
  foldl (λ acc kv, <[champ_key kv.2 := champ_name kv.2]> acc) ∅ data.

(** [series.map(champ_dict)] on one value. *)
Definition map_champ (d : gmap Z string) (c : cell) : cell :=
  match c with
  | CInt z => match d !! z with Some n => CStr n | None => CNaN end
  | _ => CNaN
  end.

(** Lines 113-127: one slot. *)
Definition process_slot (player_data : DataFrame) (noise_rate : Q)
    (champs : gmap Z string) (i : Z) (match_data : DataFrame) : M DataFrame :=
  match_data <- drop_columns match_data
                  [slot_col i "_puuid"; slot_col i "_summonerId"] ;;
  row_indices <- sample_index match_data noise_rate ;;
  let match_data := loc_assign row_indices (slot_col i "_name") (CStr "<U>") match_data in
  match_data <- join match_data player_data "name" (slot_col i "_name") ;;
  let match_data := rename_column "key" (slot_col i "_key") match_data in
  if decide (slot_col i "_champId" ∈ columns match_data)
  then ret (assign (slot_col i "_champName")
              (λ _ r, map_champ champs (row_get (slot_col i "_champId") r)) match_data)
  else raise (KeyError (slot_col i "_champId")).

Fixpoint process_slots (player_data : DataFrame) (noise_rate : Q)
    (champs : gmap Z string) (slots : list Z) (match_data : DataFrame) : M DataFrame :=
  match slots with
  | [] => ret match_data
  | i :: slots' =>
      match_data <- process_slot player_data noise_rate champs i match_data ;;
      process_slots player_data noise_rate champs slots' match_data
  end.

(** Lines 130-136. *)
Definition ordered_cols : list string :=
  "match_id" ::
  (seqZ 1 10 ≫= λ i, [slot_col i "_name"; slot_col i "_key"; slot_col i "_champId";
                       slot_col i "_champName"; slot_col i "_win"]).

(** Lines 87-138: the processed match table. *)
Definition processed_matches (match_load_path player_load_path : string)
    (noise_rate : Q) : M DataFrame :=
  py_assert (Qle_bool 0 noise_rate && Qle_bool noise_rate 1)
    "Invalid noise_rate (must be in-between 0 and 1)." ;;
  r <- attempt (match_data <- pd_read_csv match_load_path ;;
                player_data <- pd_read_csv player_load_path ;;
                player_data <- drop_columns player_data ["puuid"; "summonerId"] ;;
                ret (match_data, player_data)) ;;
  mp <- match r with
        | inl (FileNotFoundError path) =>
            print [Txt "Invalid load paths"] ;;
            raise (FileNotFoundError path)
        | inl e => raise e
        | inr mp => ret mp
        end ;;
  r <- attempt (latest_version <- ask (versions_for_region "na1")
                                    (λ h, w_versions W h "na1") ;;
                ask (champions latest_version) (λ h, w_champions W h latest_version)) ;;
  static_champ_list <-
    match r with
    | inl (ApiError code) =>
        if decide (code = 401)
        then (print [Txt "Invalid API key."] ;; raise (ApiError code))
        else raise (ApiError code)
    | inl e => raise e
    | inr l => ret l
    end ;;
  match_data <- process_slots mp.2 noise_rate (champ_dict static_champ_list)
                  (seqZ 1 10) mp.1 ;;
  loc_columns match_data ordered_cols.

Definition process_match_data (match_load_path player_load_path : string)
    (save_path : option string) (noise_rate : Q) : M processed :=
  match_data_processed <-
    processed_matches match_load_path player_load_path noise_rate ;;
  let match_data_file_name := basename match_load_path in
  match save_path with
  | Some save_path =>
      let name := replace "raw_match_data" "processed_match_data"
                    match_data_file_name in
      r <- attempt (df_to_csv match_data_processed (save_path +:+ name) false) ;;
      match r with
      | inl e =>
          print [Txt "Failed to save processed match data to .csv file."] ;;
          raise e
      | inr _ => ret (Saved match_data_processed name)
      end
  | None => ret (Table match_data_processed)
  end.

End Program.

(** ** Reading a history *)

(** The players whose match ids were asked for, in the order of the calls. *)
Definition listed (ev : history) : list cell :=
  omap (λ e : event, match e.1 with
                     | matchlist_by_puuid p _ _ _ _ => Some p
                     | _ => None
                     end) ev.

(** The match ids whose detail was fetched, in the order of the calls. *)
Definition fetched (ev : history) : list string :=
  omap (λ e : event, match e with
                     | (match_by_id _ m, true) => Some m
                     | _ => None
                     end) ev.

(** Every match-detail call of [ev], returned or failed, asks for an id that
    is neither in [seen] nor fetched earlier in [ev]. *)
Fixpoint fresh_calls (seen : list string) (ev : history) : Prop :=
  match ev with
  | [] => True
  | (match_by_id _ m, ok) :: ev' =>
      (m ∉ seen) ∧ fresh_calls (if ok then seen ++ [m] else seen) ev'
  | _ :: ev' => fresh_calls seen ev'
  end.

(** Neither a match-list nor a match-detail call. *)
Definition crawl_call (c : call) : Prop :=
  match c with
  | matchlist_by_puuid _ _ _ _ _ | match_by_id _ _ => True
  | _ => False
  end.

Definition no_crawl_calls (ev : history) : Prop :=
  Forall (λ e : event, ¬ crawl_call e.1) ev.

(** The loop invariant of [load_matches]: the keys of [match_data] are the
    searched matches, none twice. *)
Definition crawl_inv (v : crawl_vars) : Prop :=
  dict_keys (match_data v) = searched_matches v ∧ NoDup (searched_matches v).

(** A computation that makes no match-list and no match-detail call,
    whatever the state. *)
Definition quiet {A} (m : M A) : Prop :=
  ∀ st, ∃ ev, trace (m st).2 = trace st ++ ev ∧ no_crawl_calls ev.

(** ** Example worlds

    Concrete worlds and inputs, used to run the program on examples. *)

(** The state before anything has happened. *)
Definition st0 : state := {| trace := []; stdout := []; fs := ∅ |}.

Definition a_participant (name : string) : participant :=
  {| pt_summonerName := name; pt_puuid := "puuid-" +:+ name;
     pt_summonerId := "id-" +:+ name; pt_championId := 266; pt_win := true |}.

Definition an_entry (id : string) (lp : Z) : league_entry :=
  {| summonerId := id; summonerName := "name-" +:+ id; leaguePoints := lp |}.

Definition a_profile (id : string) : gmap string cell :=
  {[ "puuid" := CStr ("puuid-" +:+ id); "accountId" := CStr ("account-" +:+ id) ]}.

(** A world in which the status probe, the static data and the ladder always
    answer, parameterised by what the examples vary. *)
Definition make_world (clock : history → Q)
    (ladder : list league_entry)
    (profile : string → exn + gmap string cell)
    (listing : cell → exn + list string)
    (detail : string → exn + list participant)
    (write : option exn) : World :=
  {| w_time := clock;
     w_platform_data := λ _ _, inr ();
     w_challenger := λ _ _, inr ladder;
     w_grandmaster := λ _ _, inr [];
     w_masters := λ _ _, inr [];
     w_summoner := λ _ id _, profile id;
     w_matchlist := λ _ puuid _ _ _, listing puuid;
     w_match := λ _ _ match_id, detail match_id;
     w_versions := λ _ _, inr "14.1.1";
     w_champions := λ _ _, inr [("Aatrox", {| champ_key := 266; champ_name := "Aatrox" |})];
     w_to_csv := λ _ _, write;
     w_csv := λ col, col;
     w_sample := λ _ n, seq 0 n |}.

(** A table with the single column [puuid]. *)
Definition puuid_frame (puuids : list string) : DataFrame :=
  frame ["puuid"] (range_index ((λ p, {[ "puuid" := CStr p ]}) <$> puuids)).

(** Match-id listings by player; an unknown player is an [ApiError]. *)
Definition listings (l : list (string * list string)) (p : cell) : exn + list string :=
  match p with
  | CStr s => match dict_get s l with Some ids => inr ids | None => inl (ApiError 404) end
  | _ => inl (ApiError 400)
  end.

(** Players A and B both list M123. *)
Definition shared_match_world : World :=
  make_world (λ _, 1000%Q) [] (λ id, inr (a_profile id))
    (listings [("A", ["M123"; "M7"]); ("B", ["M9"; "M123"])])
    (λ m, inr [a_participant m]) None.

(** Every listing call costs 2000 seconds of wall clock. *)
Definition slow_world : World :=
  make_world (λ h, inject_Z (1000 + 2000 * len (listed h))) [] (λ id, inr (a_profile id))
    (listings [("A", ["M1"]); ("B", ["M2"]); ("C", ["M3"])])
    (λ m, inr [a_participant m]) None.

(** The detail of M3, third of the five matches of A, cannot be fetched. *)
Definition flaky_world : World :=
  make_world (λ _, 1000%Q) [] (λ id, inr (a_profile id))
    (listings [("A", ["M1"; "M2"; "M3"; "M4"; "M5"]); ("B", ["M6"])])
    (λ m, if decide (m = "M3") then inl (ApiError 500) else inr [a_participant m]) None.


(** The connection breaks while the detail of M3 is fetched: the call
    raises an exception that is no [ApiError]. *)
Definition broken_world : World :=
  make_world (λ _, 1000%Q) [] (λ id, inr (a_profile id))
    (listings [("A", ["M1"; "M2"; "M3"; "M4"; "M5"]); ("B", ["M6"])])
    (λ m, if decide (m = "M3") then inl (OtherError "Connection aborted.")
          else inr [a_participant m]) None.

(** The raw match file [load_matches] writes for the given matches, each
    a match id and the names of its participants. *)
Definition raw_file (matches : list (string * list string)) : DataFrame :=
  stored true
    (match_frame ((λ m, (m.1, serialise (a_participant <$> m.2) 0 [])) <$> matches)).

(** Ten participants, the first of them named [first]. *)
Definition ten (first : string) : list string :=
  [first; "b"; "c"; "d"; "e"; "f"; "g"; "h"; "i"; "j"].

Definition raw_path : string := "data/raw_match_data_na1_5_999.csv".

(** A state whose only file is the raw match file at [raw_path]. *)
Definition st_raw (matches : list (string * list string)) : state :=
  {| trace := []; stdout := []; fs := {[ raw_path := raw_file matches ]} |}.

(** A world in which every write fails. *)
Definition full_disk : World :=
  make_world (λ _, 1000%Q) [] (λ id, inr (a_profile id)) (λ _, inr []) (λ _, inr [])
    (Some (OtherError "No space left on device")).

(** ** Reading the tables

    Names for what the table builder works with. *)

(** The ten slots of a match, and the suffixes of their columns. *)
Definition slots : list Z := seqZ 1 10.

Definition suffixes : list string :=
  ["_name"; "_puuid"; "_summonerId"; "_champId"; "_win"; "_key"; "_champName"].

(** The column names that belong to no slot. *)
Definition plain_columns : list string :=
  ["key"; "name"; "puuid"; "summonerId"; "match_id"; "Unnamed: 0"].

(** The identity columns of the directory. *)
Definition key3 : list string := ["name"; "puuid"; "summonerId"].

(** The identity triple of one slot, under the directory's column names. *)
Definition slot_triple (n p s : string) (r : row) : row :=
  rename_key s "summonerId"
    (rename_key p "puuid"
       (rename_key n "name" (filter (λ kv, kv.1 ∈ [n; p; s]) r))).

(** The three columns of a slot are columns of the table, and none of the
    six names involved coincide. *)
Definition triple_ok (cols : list string) (n p s : string) : Prop :=
  Forall (λ c, c ∈ cols) [n; p; s] ∧ NoDup ([n; p; s] ++ key3).

(** Some row has the given name. *)
Definition has_name (rs : list row) (c : cell) : Prop :=
  ∃ r, r ∈ rs ∧ row_get "name" r = c.

(** The columns of a raw match file, as [load_matches] writes it. *)
Definition raw_columns : list string :=
  "Unnamed: 0" :: "match_id" ::
  (slots ≫= λ i, [slot_col i "_name"; slot_col i "_puuid"; slot_col i "_summonerId";
                   slot_col i "_champId"; slot_col i "_win"]).

(** The sentinel row of the directory. *)
Definition unknown_player : row :=
  {[ "name" := CStr "<U>"; "puuid" := CStr "0"; "summonerId" := CStr "0" ]}.

(** The directory with the given rows below the sentinel, keyed by position. *)
Definition directory (players : list row) : DataFrame :=
  frame (key3 ++ ["key"])
        ((λ ir, (ir.1, <["key" := ir.1]> ir.2)) <$> range_index (unknown_player :: players)).

#[global] Instance triple_ok_dec cols n p s : Decision (triple_ok cols n p s).
Proof. unfold triple_ok. apply _. Defined.

(** What [process_slot] does to the rows, for a noise rate of 0. *)
Definition slot_rows (players : list row) (champs : gmap Z string) (i : Z)
    (rs : list (cell * row)) : list (cell * row) :=
  (λ ir, (ir.1, <[slot_col i "_champName" :=
                    map_champ champs (row_get (slot_col i "_champId") ir.2)]> ir.2)) <$>
  ((λ ir, (ir.1, rename_key "key" (slot_col i "_key") ir.2)) <$>
   (((λ ir, (ir.1, filter (λ kv, kv.1 ∉ [slot_col i "_puuid"; slot_col i "_summonerId"])
                     ir.2)) <$> rs)
      ≫= join_row "name" (slot_col i "_name") ["key"] players)).

(** What [process_slot] does to the columns, when none of its steps raises. *)
Definition slot_columns (i : Z) (cols : list string) : option (list string) :=
  if decide (Forall (λ c, c ∈ cols) [slot_col i "_puuid"; slot_col i "_summonerId"]) then
    let cols := filter (λ c, c ∉ [slot_col i "_puuid"; slot_col i "_summonerId"]) cols in
    if decide (slot_col i "_name" ∈ cols ∧ "key" ∉ cols) then
      let cols := (λ c, if decide (c = "key") then slot_col i "_key" else c)
                    <$> (cols ++ ["key"]) in
      if decide (slot_col i "_champId" ∈ cols) then
        Some (if decide (slot_col i "_champName" ∈ cols) then cols
              else cols ++ [slot_col i "_champName"])
      else None
    else None
  else None.

Fixpoint columns_after (todo : list Z) (cols : list string) : option (list string) :=
  match todo with
  | [] => Some cols
  | i :: todo' =>
      match slot_columns i cols with
      | Some cols' => columns_after todo' cols'
      | None => None
      end
  end.

(** The columns that processing slot [i] may change. *)
Definition touched (i : Z) : list string :=
  [slot_col i "_puuid"; slot_col i "_summonerId"; "key";
   slot_col i "_key"; slot_col i "_champName"].

(** A row with its two identity columns dropped. *)
Definition dropped (i : Z) (r : row) : row :=
  filter (λ kv, kv.1 ∉ [slot_col i "_puuid"; slot_col i "_summonerId"]) r.

(** The key column renamed and the champion name added. *)
Definition finished (champs : gmap Z string) (i : Z) (r : row) : row :=
  <[slot_col i "_champName" :=
      map_champ champs (row_get (slot_col i "_champId")
                          (rename_key "key" (slot_col i "_key") r))]>
    (rename_key "key" (slot_col i "_key") r).

(** The rows after the slots [todo] have been processed, in their order. *)
Definition through (players : list row) (champs : gmap Z string)
    (todo : list Z) (rs : list (cell * row)) : list (cell * row) :=
  foldl (λ rs i, slot_rows players champs i rs) rs todo.



(** Every slot of every row bears a string as its name. *)
Definition string_names (rs : list (cell * row)) : Prop :=
  Forall (λ ir : cell * row,
            Forall (λ j, is_str (row_get (slot_col j "_name") ir.2)) slots) rs.

(** Every player bears a string as its name. *)
Definition string_players (players : list row) : Prop :=
  Forall (λ r, is_str (row_get "name" r)) players.

(** A string that is not the token of a missing value: in a column of
    strings it is read as it was written. *)
Definition text_cell (c : cell) : bool :=
  if c is CStr s then bool_decide (s ∉ na_values) else false.


(** Two matches; the first participant of the second is named [<U>]. *)
Definition two_matches : state := st_raw [("M1", ten "a"); ("M2", ten "<U>")].

(** A world whose status probe rejects the key. *)
Definition locked_out : World :=
  {| w_time := λ _, 1000%Q;
     w_platform_data := λ _ _, inl (ApiError 401);
     w_challenger := λ _ _, inr [];
     w_grandmaster := λ _ _, inr [];
     w_masters := λ _ _, inr [];
     w_summoner := λ _ id _, inr (a_profile id);
     w_matchlist := λ _ _ _ _ _, inr [];
     w_match := λ _ _ _, inr [];
     w_versions := λ _ _, inr "14.1.1";
     w_champions := λ _ _, inr [];
     w_to_csv := λ _ _, None;
     w_csv := λ col, col;
     w_sample := λ _ n, seq 0 n |}.

(** The five fields of a participant, under the column names of slot [i]. *)
Definition slot_fields (i : Z) (p : participant) : dict cell :=
  [(slot_col i "_name", CStr (pt_summonerName p));
   (slot_col i "_puuid", CStr (pt_puuid p));
   (slot_col i "_summonerId", CStr (pt_summonerId p));
   (slot_col i "_champId", CInt (pt_championId p));
   (slot_col i "_win", CBool (pt_win p))].

(** The fields of the participants one after the other, the first of them
    in slot [i + 1]. *)
Fixpoint flat_record (i : Z) (ps : list participant) : dict cell :=
  match ps with
  | [] => []
  | p :: ps' => slot_fields (i + 1) p ++ flat_record (i + 1) ps'
  end.

(** The row of the match table for the match [m] with participants [ps]. *)
Definition match_row (m : string) (ps : list participant) : cell * row :=
  (CStr m, <["match_id" := CStr m]> (list_to_map (serialise ps 0 []))).

(** Player A lists one match; every match has ten participants. *)
Definition full_match_world : World :=
  make_world (λ _, 1000%Q) [] (λ id, inr (a_profile id))
    (listings [("A", ["M1"])]) (λ m, inr (a_participant <$> ten m)) None.

(** The three identity columns of slot [i], and those of all slots. *)
Definition identity_triple (i : Z) : list string :=
  [slot_col i "_name"; slot_col i "_puuid"; slot_col i "_summonerId"].

Definition identity_columns : list string := slots ≫= identity_triple.

(** The state after the lines [out] have been printed. *)
Definition printed (out : list line) (st : state) : state :=
  {| trace := trace st; stdout := stdout st ++ out; fs := fs st |}.

(** No two rows of the list agree on all the columns [cols]. *)
Fixpoint distinct_rows (cols : list string) (rs : list row) : Prop :=
  match rs with
  | [] => True
  | r :: rs' => Forall (λ r', ¬ same_row cols r r') rs' ∧ distinct_rows cols rs'
  end.

(** The directory row [d] bears the identity of slot [i] of the raw row [r]. *)
Definition is_triple (d : row) (i : Z) (r : row) : Prop :=
  row_get "name" d = row_get (slot_col i "_name") r
  ∧ row_get "puuid" d = row_get (slot_col i "_puuid") r
  ∧ row_get "summonerId" d = row_get (slot_col i "_summonerId") r.

(** Lines 50-51 on the rows: the triples of slot [i] are appended and the
    duplicates dropped. *)
Definition merge_slot (raw_rows : list row) (acc : list row) (i : Z) : list row :=
  drop_duplicate_rows key3
    (acc ++ (slot_triple (slot_col i "_name") (slot_col i "_puuid")
               (slot_col i "_summonerId") <$> raw_rows)).

(** The rows of the directory below the sentinel. *)
Definition directory_players (raw_rows : list row) : list row :=
  foldl (merge_slot raw_rows)
    (slot_triple "p1_name" "p1_puuid" "p1_summonerId" <$> raw_rows) (seqZ 2 9).

(** The player table as [process_match_data] holds it: the file read, without
    its two identity columns. *)
Definition player_table (file : DataFrame) : DataFrame :=
  frame (filter (λ c, c ∉ ["puuid"; "summonerId"]) (columns file))
    ((λ ir, (ir.1, filter (λ kv, kv.1 ∉ ["puuid"; "summonerId"]) ir.2))
       <$> rows (reset_index file)).

(** A raw file of one match beside a directory of one player. *)
Definition two_files : state :=
  {| trace := []; stdout := [];
     fs := <["out/players.csv" :=
               stored false
                 (directory [{[ "name" := CStr "a"; "puuid" := CStr "puuid-a";
                                "summonerId" := CStr "id-a" ]}])]>
             {[ raw_path := raw_file [("M1", ten "a")] ]} |}.

(** A raw file of one match beside a directory saved without keys. *)
Definition keyless_files : state :=
  {| trace := []; stdout := [];
     fs := <["out/players.csv" := stored false unknown_row]>
             {[ raw_path := raw_file [("M1", ten "a")] ]} |}.

(** Line 119 on the rows: the labels [df.sample(frac).index] draws from a
    table with the rows [rs], after the history [h]. *)
Definition sampled (W : World) (frac : Q) (rs : list (cell * row)) (h : history)
    : list cell :=
  let n := length rs in
  omap (λ p, fst <$> rs !! p)
    (take (Z.to_nat (py_round (frac * inject_Z (Z.of_nat n)))) (w_sample W h n)).

(** Line 120 on the rows: the name of slot [i] is hidden in the rows with
    one of the [labels]. *)
Definition hide (labels : list cell) (i : Z) (rs : list (cell * row))
    : list (cell * row) :=
  (λ ir, if decide (ir.1 ∈ labels)
         then (ir.1, <[slot_col i "_name" := CStr "<U>"]> ir.2) else ir) <$> rs.

(** The rows after the slots [todo] have been processed with the noise
    rate [frac], the first draw being made after the history [h]. *)
Fixpoint noisy_through (W : World) (frac : Q) (players : list row)
    (champs : gmap Z string) (todo : list Z) (rs : list (cell * row)) (h : history)
    : list (cell * row) :=
  match todo with
  | [] => rs
  | i :: todo' =>
      noisy_through W frac players champs todo'
        (slot_rows players champs i (hide (sampled W frac rs h) i rs))
        (h ++ [(sample (length rs), true)])
  end.

(** A world whose version list is forbidden. *)
Definition no_static_data : World :=
  {| w_time := λ _, 1000%Q;
     w_platform_data := λ _ _, inr ();
     w_challenger := λ _ _, inr [];
     w_grandmaster := λ _ _, inr [];
     w_masters := λ _ _, inr [];
     w_summoner := λ _ id _, inr (a_profile id);
     w_matchlist := λ _ _ _ _ _, inr [];
     w_match := λ _ _ _, inr [];
     w_versions := λ _ _, inl (ApiError 403);
     w_champions := λ _ _, inr [];
     w_to_csv := λ _ _, None;
     w_csv := λ col, col;
     w_sample := λ _ n, seq 0 n |}.

(** * Properties *)

(** ** Running a computation *)

Lemma bind_run {A B} (m : M A) (k : A → M B) st r st' :
  m st = (r, st') →
  bind m k st = match r with inr a => k a st' | inl e => (inl e, st') end.
Proof. unfold bind. by intros ->. Qed.

(** ** Dictionaries *)
Section DictFacts.
Context {V : Type}.
Implicit Types (d : dict V) (k : string) (v : V).

Lemma dict_set_keys_fresh k v d :
  k ∉ dict_keys d → dict_keys (dict_set k v d) = dict_keys d ++ [k].
Proof.
  unfold dict_keys. induction d as [|[k' v'] d IH]; csimpl; [done|].
  intros Hk. apply not_elem_of_cons in Hk as [Hne Hk].
  destruct (decide (k' = k)); [congruence|]. csimpl. by rewrite IH.
Qed.

Lemma dict_or_keys d1 d2 :
  NoDup (dict_keys d1 ++ dict_keys d2) →
  dict_keys (dict_or d1 d2) = dict_keys d1 ++ dict_keys d2.
Proof.
  unfold dict_or. revert d1. induction d2 as [|[k v] d2 IH]; intros d1 Hnd; csimpl.
  - by rewrite app_nil_r.
  - assert (k ∉ dict_keys d1) as Hk.
    { apply NoDup_app in Hnd as (_ & Hd & _). intros Hin. apply (Hd _ Hin). simpl. left. }
    rewrite IH; rewrite (dict_set_keys_fresh _ _ _ Hk).
    + by rewrite <- app_assoc.
    + rewrite <- app_assoc. done.
Qed.
End DictFacts.

(** ** Histories *)

Lemma fetched_app ev1 ev2 : fetched (ev1 ++ ev2) = fetched ev1 ++ fetched ev2.
Proof. apply omap_app. Qed.

Lemma listed_app ev1 ev2 : listed (ev1 ++ ev2) = listed ev1 ++ listed ev2.
Proof. apply omap_app. Qed.

Lemma fresh_calls_app seen ev1 ev2 :
  fresh_calls seen ev1 → fresh_calls (seen ++ fetched ev1) ev2 →
  fresh_calls seen (ev1 ++ ev2).
Proof.
  revert seen. induction ev1 as [|[c ok] ev1 IH]; intros seen; simpl.
  - by rewrite app_nil_r.
  - destruct c; simpl; try (by apply IH).
    intros [Hm H1] H2. split; [done|]. apply IH; [done|].
    destruct ok; simpl in *; [by rewrite <- app_assoc|done].
Qed.

Lemma fresh_calls_NoDup seen ev :
  fresh_calls seen ev → NoDup seen → NoDup (seen ++ fetched ev).
Proof.
  revert seen. induction ev as [|[c ok] ev IH]; intros seen; simpl.
  - by rewrite app_nil_r.
  - destruct c; simpl; try (by apply IH).
    intros [Hm H1] Hnd. destruct ok; simpl; [|by apply IH].
    rewrite (cons_middle _ seen), (assoc_L (++)). apply IH; [done|].
    apply NoDup_app. split_and!; [done| |apply NoDup_singleton].
    intros x Hx ->%list_elem_of_singleton. done.
Qed.

Lemma no_crawl_calls_fresh seen ev : no_crawl_calls ev → fresh_calls seen ev.
Proof.
  induction 1 as [|[c ok] ev Hc _ IH]; simpl; [done|].
  destruct c; simpl in *; done.
Qed.

Lemma no_crawl_calls_fetched ev : no_crawl_calls ev → fetched ev = [].
Proof.
  induction 1 as [|[c ok] ev Hc _ IH]; simpl; [done|].
  destruct c; simpl in *; done.
Qed.

Lemma no_crawl_calls_listed ev : no_crawl_calls ev → listed ev = [].
Proof.
  induction 1 as [|[c ok] ev Hc _ IH]; simpl; [done|].
  destruct c; simpl in *; done.
Qed.

(** ** The match crawler *)

Section CrawlFacts.
Context (W : World).

Lemma fetch_matches_app reg pre rest pmd s st pmd1 s1 st1 :
  fetch_matches W reg pre pmd s st = (inr (pmd1, s1, false), st1) →
  fetch_matches W reg (pre ++ rest) pmd s st = fetch_matches W reg rest pmd1 s1 st1.
Proof.
  revert pmd s st. induction pre as [|x pre IH]; intros pmd s st; simpl.
  - unfold ret. by intros [= -> -> ->].
  - destruct (decide (x ∉ s)); [|by apply IH].
    unfold bind, attempt, ask.
    destruct (w_match W (trace st) reg x) as [[]|ps]; simpl; try done.
    by apply IH.
Qed.

(** What one run of the fetch loop adds to the history and to the two
    collections. *)
Lemma fetch_matches_history reg ml pmd s st :
  (∀ k, k ∈ dict_keys pmd → k ∈ s) →
  ∃ ev, trace (fetch_matches W reg ml pmd s st).2 = trace st ++ ev
    ∧ fresh_calls s ev ∧ listed ev = []
    ∧ match (fetch_matches W reg ml pmd s st).1 with
      | inr (pmd', s', _) =>
          s' = s ++ fetched ev ∧ dict_keys pmd' = dict_keys pmd ++ fetched ev
      | inl _ => True
      end.
Proof.
  revert pmd s st. induction ml as [|x ml IH]; intros pmd s st Hsub; simpl.
  - exists []. by rewrite !app_nil_r.
  - destruct (decide (x ∉ s)) as [Hx|]; [|by apply IH].
    unfold bind, attempt, ask.
    destruct (w_match W (trace st) reg x) as [e|ps]; simpl.
    + exists [(match_by_id reg x, false)].
      destruct e; simpl; split_and!; by rewrite ?app_nil_r.
    + set (pmd1 := dict_set _ _ _). set (st1 := log _ _ _).
      destruct (IH pmd1 (s ++ [x]) st1) as (ev & Htr & Hfresh & Hl & Hres).
      { intros k. unfold pmd1. rewrite dict_set_keys_fresh by (intros ?%Hsub; done).
        rewrite !elem_of_app. intros [?%Hsub|?]; [by left|by right]. }
      exists ((match_by_id reg x, true) :: ev). split_and!; [|done|done|].
      * rewrite Htr. simpl. by rewrite <- app_assoc.
      * destruct (fetch_matches _ _ _ _ _ _).1 as [|[[pmd' s'] b]]; [done|].
        destruct Hres as [-> ->]. unfold pmd1.
        rewrite dict_set_keys_fresh by (intros ?%Hsub; done). simpl.
        by rewrite <- !app_assoc.
Qed.
Lemma load_matches_from_player_history puuid date ct reg s st :
  ∃ ev, trace (load_matches_from_player W puuid date ct reg s st).2 = trace st ++ ev
    ∧ fresh_calls s ev ∧ listed ev = [puuid]
    ∧ match (load_matches_from_player W puuid date ct reg s st).1 with
      | inr (Some (pmd, s')) => s' = s ++ fetched ev ∧ dict_keys pmd = fetched ev
      | _ => True
      end.
Proof.
  unfold load_matches_from_player, bind, attempt, ask.
  destruct (w_matchlist W (trace st) puuid reg date ct) as [e|ml]; simpl.
  - exists [(matchlist_by_puuid puuid reg date ct 100, false)].
    destruct e; simpl; split_and!; done.
  - set (st1 := log _ _ _).
    destruct (fetch_matches_history reg ml [] s st1) as (ev & Htr & Hfresh & Hl & Hres).
    { intros k. by rewrite elem_of_nil. }
    exists ((matchlist_by_puuid puuid reg date ct 100, true) :: ev).
    destruct (fetch_matches W reg ml [] s st1) as [[e|[[pmd s'] b]] st2]; simpl in *.
    + rewrite Htr, <- app_assoc. simpl. by rewrite Hl.
    + rewrite Htr, <- app_assoc. simpl. by rewrite Hl.
Qed.


Lemma crawl_player_history reg date ct tl size puuid v st :
  crawl_inv v →
  ∃ ev, trace (crawl_player W reg date ct tl size puuid v st).2 = trace st ++ ev
    ∧ fresh_calls (searched_matches v) ev ∧ listed ev = [puuid]
    ∧ match (crawl_player W reg date ct tl size puuid v st).1 with
      | inr (v', _) =>
          searched_matches v' = searched_matches v ++ fetched ev
          ∧ crawl_inv v' ∧ i v' = i v + 1
      | inl _ => True
      end.
Proof.
  intros [Hkeys Hnd]. unfold crawl_player, bind.
  destruct (load_matches_from_player_history puuid date ct reg (searched_matches v) st)
    as (ev & Htr & Hfresh & Hl & Hres).
  destruct (load_matches_from_player W puuid date ct reg (searched_matches v) st)
    as [[e|[[pmd s']|]] st1]; simpl in *.
  - by exists ev.
  - destruct Hres as [-> Hpmd].
    pose proof (fresh_calls_NoDup _ _ Hfresh Hnd) as Hnd'.
    exists (ev ++ [(time_time, true)]).
    assert (fetched (ev ++ [(time_time, true)]) = fetched ev) as Hf.
    { rewrite fetched_app. simpl. by rewrite app_nil_r. }
    assert (listed (ev ++ [(time_time, true)]) = [puuid]) as Hl'.
    { rewrite listed_app, Hl. done. }
    assert (fresh_calls (searched_matches v) (ev ++ [(time_time, true)])) as Hfresh'.
    { apply fresh_calls_app; done. }
    rewrite Hf.
    unfold print, now, ret.
    assert (NoDup (dict_keys (match_data v) ++ dict_keys pmd)) as Hnd''.
    { by rewrite Hkeys, Hpmd. }
    repeat (case_decide || case_match); simplify_eq/=;
      (split_and!; [by rewrite Htr, <- app_assoc|done..| |done]);
      (split; simpl; [|done]); by rewrite dict_or_keys, Hkeys, Hpmd.
  - by exists ev.
Qed.

Lemma crawl_players_history reg date ct tl size ps v st :
  crawl_inv v →
  ∃ ev, trace (crawl_players W reg date ct tl size ps v st).2 = trace st ++ ev
    ∧ fresh_calls (searched_matches v) ev
    ∧ match (crawl_players W reg date ct tl size ps v st).1 with
      | inr (v', brk) =>
          searched_matches v' = searched_matches v ++ fetched ev
          ∧ crawl_inv v'
          ∧ (brk = false → listed ev = ps ∧ i v' = i v + len ps)
      | inl _ => True
      end.
Proof.
  revert v st. induction ps as [|p ps IH]; intros v st Hinv; simpl.
  - exists []. rewrite !app_nil_r. split_and!; try done. intros _. unfold len. simpl. split; [done|lia].
  - unfold bind.
    destruct (crawl_player_history reg date ct tl size p v st Hinv)
      as (ev1 & Htr1 & Hfresh1 & Hl1 & Hres1).
    destruct (crawl_player W reg date ct tl size p v st) as [[e|[v1 b]] st1]; simpl in *.
    { by exists ev1. }
    destruct Hres1 as (Hs1 & Hinv1 & Hi1).
    destruct b; simpl.
    { exists ev1. by split_and!. }
    destruct (IH v1 st1 Hinv1) as (ev2 & Htr2 & Hfresh2 & Hres2).
    exists (ev1 ++ ev2). split_and!.
    + by rewrite Htr2, Htr1, <- app_assoc.
    + apply fresh_calls_app; [done|]. by rewrite <- Hs1.
    + destruct (crawl_players W reg date ct tl size ps v1 st1).1 as [|[v2 b2]]; [done|].
      destruct Hres2 as (Hs2 & Hinv2 & Hb2). split_and!; [|done|].
      * by rewrite Hs2, Hs1, fetched_app, <- app_assoc.
      * intros Hb. destruct (Hb2 Hb) as [Hl2 Hi2]. rewrite listed_app, Hl1, Hl2.
        split; [done|]. rewrite Hi2, Hi1. unfold len. simpl. lia.
Qed.
(** ** Computations without match-detail calls *)

Lemma quiet_ret {A} (a : A) : quiet (ret a).
Proof. intros st. exists []. split; [by rewrite app_nil_r|constructor]. Qed.

Lemma quiet_raise {A} e : quiet (raise (A:=A) e).
Proof. intros st. exists []. split; [by rewrite app_nil_r|constructor]. Qed.

Lemma quiet_print l : quiet (print l).
Proof. intros st. exists []. split; [by rewrite app_nil_r|constructor]. Qed.

Lemma quiet_assert b msg : quiet (py_assert b msg).
Proof. destruct b; [apply quiet_ret|apply quiet_raise]. Qed.

Lemma quiet_bind {A B} (m : M A) (k : A → M B) :
  quiet m → (∀ a, quiet (k a)) → quiet (bind m k).
Proof.
  intros Hm Hk st. unfold bind. destruct (Hm st) as (ev1 & Htr1 & H1).
  destruct (m st) as [[e|a] st1]; simpl in *; [by exists ev1|].
  destruct (Hk a st1) as (ev2 & Htr2 & H2). exists (ev1 ++ ev2).
  split; [by rewrite Htr2, Htr1, <- app_assoc|by apply Forall_app].
Qed.

Lemma quiet_attempt {A} (m : M A) : quiet m → quiet (attempt m).
Proof.
  intros Hm st. unfold attempt. destruct (Hm st) as (ev & Htr & H).
  destruct (m st) as [r st1]. by exists ev.
Qed.

Lemma quiet_ask {A} c (oracle : history → exn + A) :
  ¬ crawl_call c → quiet (ask c oracle).
Proof. intros Hc st. eexists [_]. split; [reflexivity|]. by apply Forall_singleton. Qed.

Lemma quiet_now : quiet (now W).
Proof. intros st. eexists [_]. split; [reflexivity|]. apply Forall_singleton. intros []. Qed.

Lemma quiet_read_csv path : quiet (pd_read_csv path).
Proof.
  intros st. unfold pd_read_csv.
  destruct (fs st !! path); eexists [_]; (split; [reflexivity|]);
    apply Forall_singleton; intros [].
Qed.

Lemma quiet_to_csv df path b : quiet (df_to_csv W df path b).
Proof.
  intros st. unfold df_to_csv.
  destruct (w_to_csv W (trace st) path); eexists [_]; (split; [reflexivity|]);
    apply Forall_singleton; intros [].
Qed.

Lemma quiet_loc_series df c : quiet (loc_series df c).
Proof. unfold loc_series. case_decide; [apply quiet_ret|apply quiet_raise]. Qed.

Ltac quiet_step :=
  first
    [ apply quiet_ret | apply quiet_raise | apply quiet_print | apply quiet_assert
    | apply quiet_now | apply quiet_read_csv | apply quiet_to_csv
    | apply quiet_loc_series | by (apply quiet_ask; intros [])
    | apply quiet_attempt | apply quiet_bind; [|intros ?]
    | case_match | case_decide ].

Lemma quiet_check_api_key reg : quiet (check_api_key W reg).
Proof. unfold check_api_key. repeat quiet_step. Qed.

Lemma quiet_setup reg date players load_path time_limit :
  quiet (load_matches_setup W reg date players load_path time_limit).
Proof.
  unfold load_matches_setup.
  repeat (apply quiet_check_api_key || quiet_step).
Qed.

Lemma quiet_finish reg date ct save_path md :
  quiet (load_matches_finish W reg date ct save_path md).
Proof. unfold load_matches_finish. repeat quiet_step. Qed.

(** [load_matches_finish] always returns the table of [match_data]. *)
Lemma load_matches_finish_returns reg date ct save_path md st :
  ∃ df, (load_matches_finish W reg date ct save_path md st).1 = inr df
    ∧ (rows df).*1 = CStr <$> dict_keys md.
Proof.
  unfold load_matches_finish. eexists. split.
  - destruct save_path as [sp|]; [|done].
    unfold bind, attempt, df_to_csv.
    destruct (w_to_csv W (trace st) _); done.
  - unfold with_file_name, match_frame, frame, dict_keys. simpl.
    rewrite <- !list_fmap_compose. done.
Qed.

Lemma crawl_inv_start : crawl_inv crawl_start.
Proof. split; [done|constructor]. Qed.

(** C1. In every run of [load_matches], whatever the world answers and
    whether the run returns or raises: every match-detail call asks for an id
    that no earlier call of the run has fetched, so no id is fetched twice,
    also when two players list it; the index of the returned table lists
    the fetched ids, each once. In the loop itself, [searched_matches] is
    without duplicates, equals the list of fetched ids, and is the list of the
    keys of [match_data]. *)
Theorem crawl_fetches_each_match_once reg date players load_path save_path
    time_limit st :
  (∃ ev,
      trace (load_matches W reg date players load_path save_path time_limit st).2
        = trace st ++ ev
      ∧ fresh_calls [] ev
      ∧ NoDup (fetched ev)
      ∧ match (load_matches W reg date players load_path save_path time_limit st).1 with
        | inr df => (rows df).*1 = CStr <$> fetched ev ∧ NoDup (rows df).*1
        | inl _ => True
        end)
  ∧ (∀ ct tl size ps st1, ∃ ev,
        trace (crawl_players W reg date ct tl size ps crawl_start st1).2
          = trace st1 ++ ev
        ∧ fresh_calls [] ev
        ∧ match (crawl_players W reg date ct tl size ps crawl_start st1).1 with
          | inr (v, _) =>
              NoDup (searched_matches v)
              ∧ searched_matches v = fetched ev
              ∧ dict_keys (match_data v) = searched_matches v
          | inl _ => True
          end).
Proof.
  split.
  - unfold load_matches, bind.
    destruct (quiet_setup reg date players load_path time_limit st) as (ev1 & Htr1 & Hq1).
    destruct (load_matches_setup W reg date players load_path time_limit st)
      as [[e|[[tl ps] ct]] st1]; simpl in *.
    { exists ev1. split_and!; [done|by apply no_crawl_calls_fresh| |done].
      rewrite no_crawl_calls_fetched by done. constructor. }
    destruct (crawl_players_history reg date ct tl (len ps) ps crawl_start st1
                crawl_inv_start) as (ev2 & Htr2 & Hf2 & Hres2).
    pose proof (fresh_calls_NoDup _ _ Hf2 (NoDup_nil_2)) as Hnd2. simpl in Hnd2.
    destruct (crawl_players W reg date ct tl (len ps) ps crawl_start st1)
      as [[e|[v b]] st2]; simpl in *.
    { exists (ev1 ++ ev2). split_and!; [by rewrite Htr2, Htr1, <- app_assoc| | |done].
      - apply fresh_calls_app; [by apply no_crawl_calls_fresh|].
        by rewrite no_crawl_calls_fetched.
      - by rewrite fetched_app, no_crawl_calls_fetched. }
    destruct Hres2 as (Hs2 & [Hk2 _] & _).
    destruct (quiet_finish reg date ct save_path (match_data v) st2) as (ev3 & Htr3 & Hq3).
    destruct (load_matches_finish_returns reg date ct save_path (match_data v) st2)
      as (df & Hdf & Hidx).
    assert (fetched (ev1 ++ ev2 ++ ev3) = fetched ev2) as Hfe.
    { rewrite !fetched_app, (no_crawl_calls_fetched ev1), (no_crawl_calls_fetched ev3) by done.
      simpl. by rewrite app_nil_r. }
    exists (ev1 ++ ev2 ++ ev3). rewrite Hfe. split_and!.
    + by rewrite Htr3, Htr2, Htr1, <- !app_assoc.
    + apply fresh_calls_app; [by apply no_crawl_calls_fresh|].
      rewrite no_crawl_calls_fetched by done. simpl.
      apply fresh_calls_app; [done|]. by apply no_crawl_calls_fresh.
    + done.
    + rewrite Hdf, Hidx, Hk2, Hs2. split; [done|].
      assert (Inj (=) (=) CStr) by (by intros ?? [=]).
      by apply (NoDup_fmap_2 CStr).
  - intros ct tl size ps st1.
    destruct (crawl_players_history reg date ct tl size ps crawl_start st1
                crawl_inv_start) as (ev & Htr & Hf & Hres).
    exists ev. split_and!; [done..|].
    destruct (crawl_players W reg date ct tl size ps crawl_start st1).1 as [|[v b]]; [done|].
    destruct Hres as (Hs & [Hk Hnd] & _). done.
Qed.

Lemma crawl_players_app reg date ct tl size pre rest v0 st0 v1 st1 :
  crawl_players W reg date ct tl size pre v0 st0 = (inr (v1, false), st1) →
  crawl_players W reg date ct tl size (pre ++ rest) v0 st0 =
    crawl_players W reg date ct tl size rest v1 st1.
Proof.
  revert v0 st0. induction pre as [|p pre IH]; intros v0 st0; simpl.
  - unfold ret. by intros [= -> ->].
  - unfold bind.
    destruct (crawl_player W reg date ct tl size p v0 st0) as [[e|[v b]] st]; [done|].
    simpl. destruct b; [done|]. apply IH.
Qed.

Lemma crawl_player_report reg date ct tl size p v st v' st' :
  crawl_player W reg date ct tl size p v st = (inr (v', true), st') →
  ∃ out, stdout st' =
    out ++ [[Txt "Time limit of "; Flt tl; Txt " hours exceeded."];
            [Num (i v'); Txt "out of"; Num size;
             Txt "player's match history processed."]].
Proof.
  unfold crawl_player, bind.
  destruct (load_matches_from_player W p date ct reg (searched_matches v) st)
    as [[e|[[pmd s']|]] st1]; simpl; [done| |done].
  unfold print, now, ret.
  repeat (case_decide || case_match); simplify_eq/=; intros; simplify_eq/=;
    eexists; by rewrite <- app_assoc.
Qed.

(** What one iteration leaves when the sub-crawl has returned its records:
    the clock is read once, after the sub-crawl, and the iteration ends in
    [break] exactly when that reading is [time_limit * 60 ** 2] seconds or
    more past [curr_time]. *)
Lemma crawl_player_clock reg date ct tl size p v st pmh s st1 :
  load_matches_from_player W p date ct reg (searched_matches v) st
    = (inr (Some (pmh, s)), st1) →
  ∃ v' st2,
    crawl_player W reg date ct tl size p v st
      = (inr (v', Qle_bool (tl * 60 ^ 2) (w_time W (trace st1) - inject_Z ct)), st2)
    ∧ match_data v' = dict_or (match_data v) pmh
    ∧ searched_matches v' = s
    ∧ trace st2 = trace st1 ++ [(time_time, true)].
Proof.
  intros Hsub. unfold crawl_player. rewrite (bind_run _ _ _ _ _ Hsub).
  unfold bind, print, now, ret.
  case_decide; cbn [trace];
    destruct (Qle_bool _ _); eexists _, _; split_and!; reflexivity.
Qed.

(** The flag of an iteration is the clock test of line 153, whatever else
    the iteration did. *)
Lemma crawl_player_flag reg date ct tl size p v st v' brk st' :
  crawl_player W reg date ct tl size p v st = (inr (v', brk), st') →
  ∃ h, trace st' = h ++ [(time_time, true)]
       ∧ (brk = true ↔ (tl * 60 ^ 2 <= w_time W h - inject_Z ct)%Q).
Proof.
  unfold crawl_player, bind at 1.
  destruct (load_matches_from_player W p date ct reg (searched_matches v) st)
    as [[e|[[pmh s]|]] st1] eqn:Hsub; [done| |done].
  intros Hrun.
  destruct (crawl_player_clock reg date ct tl size p v st pmh s st1 Hsub)
    as (v2 & st2 & Hcp & _ & _ & Htr).
  unfold crawl_player in Hcp. rewrite (bind_run _ _ _ _ _ Hsub) in Hcp.
  rewrite Hcp in Hrun. injection Hrun as <- <- <-.
  exists (trace st1). split; [done|]. rewrite <- Qle_bool_iff.
  by destruct (Qle_bool _ _).
Qed.

(** C2. Players [pre] are processed with the budget not exceeded. The
    sub-crawl of the next player [p] returns its records, and the clock read
    after it shows that [time_limit * 60 ** 2] seconds or more have passed
    since [curr_time]. Then the loop over all players ends there, in the
    state and with the variables it would have over the players [pre ++ [p]]
    alone: the match ids were asked for exactly these players, the records
    of [p] are merged, the counter [i] is their number and is reported as
    the last printed line, and [load_matches] returns a table, indexed by the
    ids fetched for these players, instead of raising. In every iteration
    the loop is left exactly when the clock read at its end shows the
    budget elapsed. *)
Theorem budget_elapsed_stops_crawl reg date players load_path save_path
    time_limit st tl ct pre p post st0 v1 st1 pmh s st1' :
  load_matches_setup W reg date players load_path time_limit st
    = (inr (tl, pre ++ p :: post, ct), st0) →
  crawl_players W reg date ct tl (len (pre ++ p :: post)) pre crawl_start st0
    = (inr (v1, false), st1) →
  load_matches_from_player W p date ct reg (searched_matches v1) st1
    = (inr (Some (pmh, s)), st1') →
  (tl * 60 ^ 2 <= w_time W (trace st1') - inject_Z ct)%Q →
  (∃ v2 st2,
     crawl_players W reg date ct tl (len (pre ++ p :: post)) (pre ++ p :: post)
         crawl_start st0 = (inr (v2, true), st2)
     ∧ crawl_players W reg date ct tl (len (pre ++ p :: post)) (pre ++ [p])
         crawl_start st0 = (inr (v2, true), st2)
     ∧ i v2 = len pre + 1
     ∧ match_data v2 = dict_or (match_data v1) pmh
     ∧ (∃ out, stdout st2 =
          out ++ [[Txt "Time limit of "; Flt tl; Txt " hours exceeded."];
                  [Num (len pre + 1); Txt "out of"; Num (len (pre ++ p :: post));
                   Txt "player's match history processed."]])
     ∧ ∃ df st3 ev,
         load_matches W reg date players load_path save_path time_limit st
           = (inr df, st3)
         ∧ trace st3 = trace st0 ++ ev
         ∧ listed ev = pre ++ [p]
         ∧ (rows df).*1 = CStr <$> fetched ev
         ∧ dict_keys (match_data v2) = fetched ev)
  ∧ (∀ size q v sa v' brk sb,
       crawl_player W reg date ct tl size q v sa = (inr (v', brk), sb) →
       ∃ h, trace sb = h ++ [(time_time, true)]
            ∧ (brk = true ↔ (tl * 60 ^ 2 <= w_time W h - inject_Z ct)%Q)).
Proof.
  intros Hsetup Hpre Hsub Hclock. set (size := len (pre ++ p :: post)) in *.
  split; [|intros *; apply crawl_player_flag].
  destruct (crawl_player_clock reg date ct tl size p v1 st1 pmh s st1' Hsub)
    as (v2 & st2 & Hp & Hmd & _ & _).
  apply Qle_bool_iff in Hclock. rewrite Hclock in Hp.
  exists v2, st2.
  assert (∀ rest, crawl_players W reg date ct tl size (pre ++ p :: rest) crawl_start st0
                  = (inr (v2, true), st2)) as Hrun.
  { intros rest. rewrite (crawl_players_app _ _ _ _ _ _ _ _ _ _ _ Hpre).
    simpl. unfold bind. by rewrite Hp. }
  destruct (crawl_players_history reg date ct tl size pre crawl_start st0 crawl_inv_start)
    as (ev1 & Htr1 & _ & Hres1).
  rewrite Hpre in Htr1, Hres1. simpl in *.
  destruct Hres1 as (Hs1 & Hinv1 & Hb1). destruct (Hb1 eq_refl) as [Hl1 Hi1].
  destruct (crawl_player_history reg date ct tl size p v1 st1 Hinv1)
    as (ev2 & Htr2 & _ & Hl2 & Hres2).
  rewrite Hp in Htr2, Hres2. simpl in *.
  destruct Hres2 as (Hs2 & [Hk2 _] & Hi2).
  assert (i v2 = len pre + 1) as Hi by (rewrite Hi2, Hi1; simpl; lia).
  split_and!; [apply Hrun..|done|done| |].
  { destruct (crawl_player_report _ _ _ _ _ _ _ _ _ _ Hp) as [out Hout].
    exists out. by rewrite Hout, Hi. }
  destruct (quiet_finish reg date ct save_path (match_data v2) st2) as (ev3 & Htr3 & Hq3).
  destruct (load_matches_finish_returns reg date ct save_path (match_data v2) st2)
    as (df & Hdf & Hidx).
  exists df, (load_matches_finish W reg date ct save_path (match_data v2) st2).2,
    (ev1 ++ ev2 ++ ev3).
  assert (fetched (ev1 ++ ev2 ++ ev3) = searched_matches v2) as Hfe.
  { rewrite !fetched_app, (no_crawl_calls_fetched ev3), app_nil_r by done.
    rewrite Hs2, Hs1. done. }
  split_and!.
  - unfold load_matches, bind. rewrite Hsetup. fold size. rewrite Hrun. simpl.
    rewrite <- Hdf. by destruct (load_matches_finish _ _ _ _ _ _ _).
  - by rewrite Htr3, Htr2, Htr1, <- !app_assoc.
  - rewrite !listed_app, (no_crawl_calls_listed ev3), app_nil_r by done.
    by rewrite Hl1, Hl2.
  - by rewrite Hidx, Hk2, Hfe.
  - by rewrite Hk2, Hfe.
Qed.

(** C3, amended. A player's listing is [pre ++ m :: post]; the candidates
    [pre] are fetched or skipped without a failure; [m] is not yet searched
    and its fetch raises [ApiError]. Then the sub-crawl ends with that call: the
    history grows by the failed call and nothing else, so [post] is never
    asked for; the sub-crawl returns the records and the searched list as
    they were after [pre]; the loop body merges these records, reads the
    clock, and, unless the budget has elapsed, the loop goes on with the
    next player. *)
Theorem fetch_failure_ends_sub_crawl reg date ct tl size puuid v st
    pre m post pmd1 s1 st1 code :
  w_matchlist W (trace st) puuid reg date ct = inr (pre ++ m :: post) →
  fetch_matches W reg pre [] (searched_matches v)
      (log (matchlist_by_puuid puuid reg date ct 100) true st)
    = (inr (pmd1, s1, false), st1) →
  m ∉ s1 →
  w_match W (trace st1) reg m = inl (ApiError code) →
  ∃ st2,
    load_matches_from_player W puuid date ct reg (searched_matches v) st
      = (inr (Some (pmd1, s1)), st2)
    ∧ trace st2 = trace st1 ++ [(match_by_id reg m, false)]
    ∧ ∃ v' brk st3,
        crawl_player W reg date ct tl size puuid v st = (inr (v', brk), st3)
        ∧ trace st3 = trace st2 ++ [(time_time, true)]
        ∧ match_data v' = dict_or (match_data v) pmd1
        ∧ searched_matches v' = s1
        ∧ ∀ rest,
            crawl_players W reg date ct tl size (puuid :: rest) v st =
              if brk then (inr (v', true), st3)
              else crawl_players W reg date ct tl size rest v' st3.
Proof.
  intros Hlist Hpre Hm Hfail.
  assert (∃ st2, load_matches_from_player W puuid date ct reg (searched_matches v) st
                   = (inr (Some (pmd1, s1)), st2)
                 ∧ trace st2 = trace st1 ++ [(match_by_id reg m, false)])
    as (st2 & Hsub & Htr2).
  { unfold load_matches_from_player, bind at 1, attempt, ask. rewrite Hlist. simpl.
    unfold bind at 1. rewrite (fetch_matches_app _ _ _ _ _ _ _ _ _ Hpre). simpl.
    destruct (decide (m ∉ s1)); [|done].
    unfold bind, attempt, ask. rewrite Hfail. simpl. eauto. }
  exists st2. split_and!; [done..|].
  assert (∃ v' brk st3,
            crawl_player W reg date ct tl size puuid v st = (inr (v', brk), st3)
            ∧ trace st3 = trace st2 ++ [(time_time, true)]
            ∧ match_data v' = dict_or (match_data v) pmd1
            ∧ searched_matches v' = s1)
    as (v' & brk & st3 & Hcp & Htr3 & Hmd & Hs).
  { unfold crawl_player. rewrite (bind_run _ _ _ _ _ Hsub).
    unfold bind, print, now, ret.
    repeat (case_decide || case_match); simplify_eq/=;
      do 3 eexists; split_and!; reflexivity. }
  exists v', brk, st3. split_and!; [done..|].
  intros rest. simpl. rewrite (bind_run _ _ _ _ _ Hcp). simpl. by destruct brk.
Qed.

(** C4, as the code has it. When the listing of a player's match ids raises
    [ApiError], [load_matches_from_player] prints its two lines and returns
    [None]; the caller then fails to unpack the result, so the loop raises
    [TypeError] and the players after this one are never reached. *)
Theorem listing_failure_raises reg date ct tl size puuid rest v st code :
  w_matchlist W (trace st) puuid reg date ct = inl (ApiError code) →
  crawl_players W reg date ct tl size (puuid :: rest) v st =
    (inl (TypeError "cannot unpack non-iterable NoneType object"),
     {| trace := trace st ++ [(matchlist_by_puuid puuid reg date ct 100, false)];
        stdout := stdout st ++
          [[Exc (ApiError code)];
           [Txt "There was an issue finding the matches of player";
            Obj puuid; Txt ":"]];
        fs := fs st |}).
Proof.
  intros Hlist. simpl.
  unfold bind, crawl_player, bind, load_matches_from_player, bind, attempt, ask.
  rewrite Hlist. simpl. by rewrite <- app_assoc.
Qed.

End CrawlFacts.


(** ** The crawler on examples *)

(** Players A and B both list M123: it is fetched once, while A is processed. *)
Lemma shared_match_fetched_once :
  let run := load_matches shared_match_world "na1" 5
               (Some (puuid_frame ["A"; "B"])) None None (Some 1%Q) st0 in
  fetched (trace run.2) = ["M123"; "M7"; "M9"]
  ∧ NoDup (fetched (trace run.2))
  ∧ ∃ df, run.1 = inr df ∧ (rows df).*1 = [CStr "M123"; CStr "M7"; CStr "M9"].
Proof.
  intros run.
  destruct (crawl_fetches_each_match_once shared_match_world "na1" 5
              (Some (puuid_frame ["A"; "B"])) None None (Some 1%Q) st0)
    as [(ev & Htr & _ & Hnd & _) _].
  fold run in Htr. simpl in Htr. rewrite Htr.
  split_and!; [|done|].
  - rewrite <- Htr. vm_compute. reflexivity.
  - eexists. split; vm_compute; reflexivity.
Defined.

(** Three players, a budget of one hour, and a clock that passes it while
    the second player is processed: the third player is never asked for. *)
Lemma budget_elapsed_after_second_player :
  let players := Some (puuid_frame ["A"; "B"; "C"]) in
  let size := len [CStr "A"; CStr "B"; CStr "C"] in
  ∃ st1 v1 st2 pmh s st2',
    load_matches_setup slow_world "na1" 5 players None (Some 1%Q) st0
      = (inr (1%Q, [CStr "A"] ++ CStr "B" :: [CStr "C"], 999), st1)
    ∧ crawl_players slow_world "na1" 5 999 1 size [CStr "A"] crawl_start st1
      = (inr (v1, false), st2)
    ∧ load_matches_from_player slow_world (CStr "B") 5 999 "na1" (searched_matches v1) st2
      = (inr (Some (pmh, s)), st2')
    ∧ (1 * 60 ^ 2 <= w_time slow_world (trace st2') - inject_Z 999)%Q
    ∧ ∃ v2 df st4 ev,
        load_matches slow_world "na1" 5 players None None (Some 1%Q) st0
          = (inr df, st4)
        ∧ trace st4 = trace st1 ++ ev
        ∧ listed ev = [CStr "A"] ++ [CStr "B"]
        ∧ (rows df).*1 = CStr <$> fetched ev
        ∧ dict_keys (match_data v2) = fetched ev.
Proof.
  intros players size.
  do 6 eexists.
  assert (∀ (H1 H2 H3 H4 C : Prop),
            H1 → H2 → H3 → H4 → (H1 → H2 → H3 → H4 → C) → H1 ∧ H2 ∧ H3 ∧ H4 ∧ C)
    as Hsplit by tauto.
  apply Hsplit; [lazy; reflexivity..|apply Qle_bool_iff; vm_compute; reflexivity|].
  intros H1 H2 H3 H4.
  destruct (budget_elapsed_stops_crawl slow_world "na1" 5 players None None (Some 1%Q) st0
              1%Q 999 [CStr "A"] (CStr "B") [CStr "C"] _ _ _ _ _ _ H1 H2 H3 H4)
    as [(v2 & st3 & _ & _ & _ & _ & _ & df & st4 & ev & Hrun) _].
  exists v2, df, st4, ev. exact Hrun.
Defined.

(** The fetch of M3, third of the five matches of player A, fails: M4 and M5
    are never asked for, M1 and M2 are kept, and the loop goes on with B. *)
Lemma third_of_five_fails :
  let listing := matchlist_by_puuid (CStr "A") "na1" 5 999 100 in
  ∃ pmd1 st1,
    w_matchlist flaky_world (trace st0) (CStr "A") "na1" 5 999
      = inr (["M1"; "M2"] ++ "M3" :: ["M4"; "M5"])
    ∧ fetch_matches flaky_world "na1" ["M1"; "M2"] [] (searched_matches crawl_start)
        (log listing true st0)
      = (inr (pmd1, ["M1"; "M2"], false), st1)
    ∧ ("M3" ∉ ["M1"; "M2"])
    ∧ w_match flaky_world (trace st1) "na1" "M3" = inl (ApiError 500)
    ∧ ∃ st2,
        load_matches_from_player flaky_world (CStr "A") 5 999 "na1"
            (searched_matches crawl_start) st0
          = (inr (Some (pmd1, ["M1"; "M2"])), st2)
        ∧ trace st2 = [(listing, true); (match_by_id "na1" "M1", true);
                       (match_by_id "na1" "M2", true); (match_by_id "na1" "M3", false)]
        ∧ ∃ v' st3,
            crawl_players flaky_world "na1" 5 999 1 2 [CStr "A"; CStr "B"] crawl_start st0
              = crawl_players flaky_world "na1" 5 999 1 2 [CStr "B"] v' st3
            ∧ searched_matches v' = ["M1"; "M2"]
            ∧ dict_keys (match_data v') = ["M1"; "M2"].
Proof.
  intros listing. do 2 eexists.
  assert (∀ (H1 H2 H3 H4 C : Prop),
            H1 → H2 → H3 → H4 → (H1 → H2 → H3 → H4 → C) → H1 ∧ H2 ∧ H3 ∧ H4 ∧ C)
    as Hsplit by tauto.
  apply Hsplit; [lazy; reflexivity| lazy; reflexivity| compute_done
                | lazy; reflexivity|].
  intros H1 H2 H3 H4.
  destruct (fetch_failure_ends_sub_crawl flaky_world "na1" 5 999 1 2 (CStr "A")
              crawl_start st0 _ _ _ _ _ _ _ H1 H2 H3 H4)
    as (st2 & Hsub & Htr & v' & brk & st3 & Hcp & Htr3 & Hmd & Hs & Hnext).
  exists st2. split_and!; [done|by rewrite Htr|].
  assert (brk = false) as ->.
  { revert Hcp. unfold crawl_player. rewrite (bind_run _ _ _ _ _ Hsub).
    lazy. intros ?. by simplify_eq. }
  exists v', st3. split_and!; [apply Hnext|done|].
  rewrite Hmd. revert Hsub. lazy. intros ?. by simplify_eq.
Defined.

(** C3, as stated, fails: the fetch of M3 fails with an exception that is
    no [ApiError]. Nothing catches it: the run ends with that exception, the
    records of M1 and M2 are lost with it, and B is never asked for. *)
Lemma broken_connection_ends_run :
  let run := load_matches broken_world "na1" 5 (Some (puuid_frame ["A"; "B"])) None None
               (Some 1%Q) st0 in
  w_match broken_world
      [(time_time, true); (platform_data "na1", true);
       (time_time, true); (matchlist_by_puuid (CStr "A") "na1" 5 999 100, true);
       (match_by_id "na1" "M1", true); (match_by_id "na1" "M2", true)] "na1" "M3"
    = inl (OtherError "Connection aborted.")
  ∧ run.1 = inl (OtherError "Connection aborted.")
  ∧ trace run.2
    = [(time_time, true); (platform_data "na1", true);
       (time_time, true); (matchlist_by_puuid (CStr "A") "na1" 5 999 100, true);
       (match_by_id "na1" "M1", true); (match_by_id "na1" "M2", true);
       (match_by_id "na1" "M3", false)]
  ∧ listed (trace run.2) = [CStr "A"].
Proof. intros run. split_and!; vm_compute; reflexivity. Qed.

(** Player A cannot be listed: the run raises, and B is never reached. *)
Lemma unlisted_player_raises :
  let W := make_world (λ _, 1000%Q) [] (λ id, inr (a_profile id))
             (listings [("B", ["M1"])]) (λ m, inr [a_participant m]) None in
  w_matchlist W (trace st0) (CStr "A") "na1" 5 999 = inl (ApiError 404)
  ∧ crawl_players W "na1" 5 999 1 2 [CStr "A"; CStr "B"] crawl_start st0 =
      (inl (TypeError "cannot unpack non-iterable NoneType object"),
       {| trace := [(matchlist_by_puuid (CStr "A") "na1" 5 999 100, false)];
          stdout := [[Exc (ApiError 404)];
                     [Txt "There was an issue finding the matches of player";
                      Obj (CStr "A"); Txt ":"]];
          fs := ∅ |})
  ∧ (load_matches W "na1" 5 (Some (puuid_frame ["A"; "B"])) None None (Some 1%Q) st0).1
      = inl (TypeError "cannot unpack non-iterable NoneType object").
Proof.
  intros W.
  assert (w_matchlist W (trace st0) (CStr "A") "na1" 5 999 = inl (ApiError 404)) as H
    by reflexivity.
  split_and!; [exact H| |vm_compute; reflexivity].
  exact (listing_failure_raises W "na1" 5 999 1 2 (CStr "A") [CStr "B"] crawl_start st0
           404 H).
Defined.

(** ** The ladder loader *)

Section LoaderFacts.
Context (W : World).

(** C5, as the code has it. When the profile lookup of an entry raises
    [ApiError], the handler reads [summoner_info], the variable the failed
    lookup was to assign. For the first entry looked up it is unbound and
    the run raises [UnboundLocalError]; later it holds the profile of the
    last player resolved, and the run raises [KeyError] unless that profile
    has a field [summonerName]. Either way the rest of the ladder is never
    reached. *)
Theorem profile_failure_raises reg summoner idx todo v st code :
  w_summoner W (trace st) (summonerId summoner) reg = inl (ApiError code) →
  let st' := log (summoner_by_id (summonerId summoner) reg) false st in
  match summoner_info v with
  | None =>
      load_player_loop W reg ((summoner, idx) :: todo) v st
        = (inl (UnboundLocalError "summoner_info"), st')
  | Some info =>
      info !! "summonerName" = None →
      load_player_loop W reg ((summoner, idx) :: todo) v st
        = (inl (KeyError "summonerName"), st')
  end.
Proof.
  intros Hfail st'.
  destruct (summoner_info v) as [info|] eqn:Hv; [intros Hname|];
    cbn [load_player_loop]; unfold bind, load_player, bind, attempt, ask, subscript, ret;
    rewrite Hfail, Hv; cbv beta iota zeta; rewrite ?Hname; reflexivity.
Qed.

(** C6, as the code has it. The list the region is checked against has three
    elements, the third being the concatenation of the last two literals:
    [kr] and [eun1] are refused by both functions, [eun1kr] passes. *)
Theorem region_list_as_written n date players load_path save_path time_limit st :
  valid_regions = ["na1"; "euw1"; "eun1kr"]
  ∧ load_players W "kr" n save_path st = (inl (AssertionError "Invalid region."), st)
  ∧ load_players W "eun1" n save_path st = (inl (AssertionError "Invalid region."), st)
  ∧ load_matches W "kr" date players load_path save_path time_limit st
      = (inl (AssertionError "Invalid region"), st)
  ∧ load_matches W "eun1" date players load_path save_path time_limit st
      = (inl (AssertionError "Invalid region"), st)
  ∧ py_assert (bool_decide ("eun1kr" ∈ valid_regions)) "Invalid region" st = (inr (), st).
Proof. split_and!; reflexivity. Qed.

(** C10, amended. Without [time_limit], [load_matches] raises before it
    reads any data or makes any call: [AssertionError] when the region is
    not in the list, [TypeError] at the comparison [None > 0] otherwise.
    A run that returns a table was given a positive [time_limit]. *)
Theorem load_matches_needs_time_limit reg date players load_path save_path st :
  load_matches W reg date players load_path save_path None st =
    (inl (if bool_decide (reg ∈ valid_regions)
          then TypeError "'>' not supported between instances of 'NoneType' and 'int'"
          else AssertionError "Invalid region"), st)
  ∧ ∀ time_limit df st',
      load_matches W reg date players load_path save_path time_limit st = (inr df, st') →
      ∃ t, time_limit = Some t ∧ (0 < t)%Q.
Proof.
  split.
  - unfold load_matches, load_matches_setup, bind, py_assert.
    by destruct (bool_decide (reg ∈ valid_regions)).
  - intros tl df st'. unfold load_matches, load_matches_setup.
    unfold bind at 1 2 3, py_assert at 1.
    destruct (bool_decide (reg ∈ valid_regions)); [|done]. simpl.
    destruct tl as [t|]; [|done]. unfold bind at 1, py_assert.
    destruct (Qle_bool t 0) eqn:Ht; [done|]. intros _.
    exists t. split; [done|]. apply Qnot_le_lt. intros Hle%Qle_bool_iff. congruence.
Qed.

End LoaderFacts.

(** The first entry of the ladder cannot be resolved: [load_players] raises. *)
Lemma first_profile_fails :
  let W := make_world (λ _, 1000%Q) [an_entry "a" 50; an_entry "b" 200]
             (λ id, if decide (id = "a") then inl (ApiError 404) else inr (a_profile id))
             (λ _, inr []) (λ _, inr []) None in
  w_summoner W [] "a" "na1" = inl (ApiError 404)
  ∧ load_player_loop W "na1" [(an_entry "a" 50, 1); (an_entry "b" 200, 2)]
        {| summoner_info := None; in_order_players := []; j := 0 |} st0
      = (inl (UnboundLocalError "summoner_info"),
         log (summoner_by_id "a" "na1") false st0)
  ∧ (load_players W "na1" 2 None st0).1 = inl (UnboundLocalError "summoner_info").
Proof.
  intros W.
  assert (w_summoner W (trace st0) (summonerId (an_entry "a" 50)) "na1"
            = inl (ApiError 404)) as H by reflexivity.
  split_and!; [exact H| |vm_compute; reflexivity].
  exact (profile_failure_raises W "na1" (an_entry "a" 50) 1 [(an_entry "b" 200, 2)]
           {| summoner_info := None; in_order_players := []; j := 0 |} st0 404 H).
Defined.

(** C10, as stated, fails: with a region outside the list the exception is
    the [AssertionError] of the region check, not a [TypeError]. *)
Lemma no_time_limit_bad_region :
  load_matches shared_match_world "kr" 5 (Some (puuid_frame ["A"; "B"])) None None None st0
    = (inl (AssertionError "Invalid region"), st0).
Proof. reflexivity. Qed.

(** A run with a positive limit returns. *)
Lemma positive_time_limit_returns :
  ∃ t, Some 1%Q = Some t ∧ (0 < t)%Q.
Proof.
  destruct (load_matches shared_match_world "na1" 5 (Some (puuid_frame ["A"; "B"]))
              None None (Some 1%Q) st0) as [[e|df] st'] eqn:Hrun.
  { exfalso. revert Hrun. vm_compute. discriminate. }
  exact (proj2 (load_matches_needs_time_limit shared_match_world "na1" 5
                  (Some (puuid_frame ["A"; "B"])) None None st0) _ _ _ Hrun).
Defined.

(** ** Sorting *)

Section SortFacts.
Context {A : Type} (key : A → Z).

Lemma insert_desc_perm x l : insert_desc key x l ≡ₚ x :: l.
Proof.
  induction l as [|y l IH]; simpl; [done|].
  case_decide; [|done]. by rewrite IH, Permutation_swap.
Qed.

Lemma sorted_desc_perm l : sorted_desc key l ≡ₚ l.
Proof.
  induction l as [|x l IH]; simpl; [done|].
  by rewrite insert_desc_perm, IH.
Qed.

Lemma insert_desc_sorted x l :
  StronglySorted (λ a b, key a >= key b) l →
  StronglySorted (λ a b, key a >= key b) (insert_desc key x l).
Proof.
  induction l as [|y l IH]; simpl; intros Hl.
  - repeat constructor.
  - apply StronglySorted_cons in Hl as [Hy Hl]. case_decide.
    + apply StronglySorted_cons. split; [|by apply IH].
      rewrite insert_desc_perm. constructor; [lia|done].
    + apply StronglySorted_cons. split; [|by apply StronglySorted_cons].
      constructor; [lia|]. eapply Forall_impl; [exact Hy|]. simpl. intros. lia.
Qed.

Lemma sorted_desc_sorted l :
  StronglySorted (λ a b, key a >= key b) (sorted_desc key l).
Proof.
  induction l as [|x l IH]; simpl; [constructor|]. by apply insert_desc_sorted.
Qed.

Lemma sorted_desc_keys l :
  StronglySorted Z.ge (key <$> sorted_desc key l).
Proof.
  pose proof (sorted_desc_sorted l) as H. induction H as [|a k Hk IH Ha]; csimpl.
  - constructor.
  - constructor; [done|]. by apply Forall_fmap.
Qed.
End SortFacts.

Lemma imap_snd {A B} (f : nat → B → A * B) l :
  (∀ n r, (f n r).2 = r) → (imap f l).*2 = l.
Proof.
  revert f. induction l as [|r l IH]; intros f Hf; csimpl; [done|].
  rewrite Hf, IH; [done|]. intros n r'. apply Hf.
Qed.

Lemma range_index_rows rs : (range_index rs).*2 = rs.
Proof. by apply imap_snd. Qed.

Section LoaderSort.
Context (W : World).

(** [sort_values] leaves the state alone and returns the rows of the
    table, reordered by the integers of the column. *)
Lemma sort_values_desc_spec df by_ st df' st' :
  sort_values_desc df by_ st = (inr df', st') →
  ∃ keyed : list (Z * (cell * row)),
    Forall (λ p, row_get by_ p.2.2 = CInt p.1) keyed
    ∧ keyed.*2 = rows df
    ∧ rows df' = (sorted_desc fst keyed).*2.
Proof.
  unfold sort_values_desc. case_decide; [|done].
  destruct (mapM _ _) as [keyed|] eqn:Hm; [|done].
  intros [= <- <-]. exists keyed. split_and!; [| |done].
  - apply mapM_Some_1 in Hm. induction Hm as [|ir p l k Hp _ IH]; [constructor|].
    constructor; [|done].
    destruct (int_of_cell (row_get by_ ir.2)) as [z|] eqn:Hz; simplify_eq/=.
    destruct (row_get by_ ir.2); by simplify_eq/=.
  - apply mapM_Some_1 in Hm. induction Hm as [|ir p l k Hp _ IH]; [done|].
    csimpl. rewrite IH. f_equal.
    destruct (int_of_cell (row_get by_ ir.2)) as [z|] eqn:Hz; by simplify_eq/=.
Qed.

Lemma player_row_points t : row_get "leaguePoints" (player_row t) = CInt (t_leaguePoints t).
Proof. unfold row_get, player_row. by simplify_map_eq. Qed.

(** C9. Whenever [load_players] returns, the column [leaguePoints] of the
    table it returns holds integers in descending order, and these are, in
    another order, the league points of the players the loop resolved,
    whatever the order of the tier listings. *)
Theorem load_players_sorted reg player_count save_path st df st' :
  load_players W reg player_count save_path st = (inr df, st') →
  ∃ points : list Z,
    (λ ir, row_get "leaguePoints" ir.2) <$> rows df = CInt <$> points
    ∧ StronglySorted Z.ge points
    ∧ ∃ todo v st1 st2,
        load_player_loop W reg todo
            {| summoner_info := None; in_order_players := []; j := 0 |} st1
          = (inr v, st2)
        ∧ points ≡ₚ t_leaguePoints <$> in_order_players v.
Proof.
  intros Hrun.
  assert (∃ st1, ranked_players W reg player_count st = (inr df, st1)) as [sta Hranked].
  { revert Hrun. unfold load_players, bind at 1.
    destruct (ranked_players W reg player_count st) as [[e|df0] st1]; [done|].
    destruct save_path as [sp|]; [|intros [= <- <-]; eauto].
    unfold bind, attempt. destruct (df_to_csv _ _ _ _ _) as [[e|[]] st2]; simpl;
      intros [= <- <-]; eauto. }
  clear Hrun. revert Hranked. unfold ranked_players.
  unfold bind at 1. destruct (py_assert _ _ st) as [[e|[]] s1]; [done|].
  unfold bind at 1. destruct (py_assert _ _ s1) as [[e|[]] s2]; [done|].
  unfold bind at 1. destruct (check_api_key W reg s2) as [[e|[]] s3]; [done|].
  unfold bind at 1. destruct (ask _ _ s3) as [[e|chal] s4]; [done|].
  unfold bind at 1. destruct (ask _ _ s4) as [[e|gm] s5]; [done|].
  unfold bind at 1. destruct (ask _ _ s5) as [[e|ms] s6]; [done|].
  unfold bind at 1.
  destruct (load_player_loop W reg _ _ s6) as [[e|v] s7] eqn:Hloop; [done|].
  cbv zeta. unfold bind at 1.
  destruct (sort_values_desc _ _ s7) as [[e|df1] s8] eqn:Hsort; [done|].
  unfold bind, now, ret. simpl. intros [= <- <-].
  apply sort_values_desc_spec in Hsort as (keyed & Hkeys & Hrows & Hsorted).
  unfold frame in Hrows. cbn [rows] in Hrows.
  exists (sorted_desc fst keyed).*1. simpl. rewrite Hsorted. split_and!.
  - rewrite <- !list_fmap_compose. apply list_fmap_ext.
    intros k p Hp. simpl.
    assert (p ∈ keyed) as Hin.
    { rewrite <- (sorted_desc_perm fst keyed). by eapply list_elem_of_lookup_2. }
    by apply (proj1 (Forall_forall _ _) Hkeys).
  - apply sorted_desc_keys.
  - do 4 eexists. split; [exact Hloop|].
    rewrite (sorted_desc_perm fst keyed).
    assert (CInt <$> keyed.*1
            = CInt <$> (t_leaguePoints <$> sorted_desc t_leaguePoints (in_order_players v)))
      as Heq.
    { transitivity (row_get "leaguePoints" <$> (keyed.*2).*2).
      - rewrite <- !list_fmap_compose. apply list_fmap_ext. intros k p Hp. simpl.
        symmetry. apply (proj1 (Forall_forall _ _) Hkeys). by eapply list_elem_of_lookup_2.
      - rewrite Hrows, range_index_rows, <- !list_fmap_compose.
        apply list_fmap_ext. intros k t _. apply player_row_points. }
    assert (Inj (=) (=) CInt) by (by intros ?? [=]).
    apply (inj (fmap CInt)) in Heq. rewrite Heq. by rewrite sorted_desc_perm.
Qed.
End LoaderSort.

(** The ladder of the specification's example: league points 50, 200, 100. *)
Lemma ladder_50_200_100 :
  let W := make_world (λ _, 1000%Q) [an_entry "a" 50; an_entry "b" 200; an_entry "c" 100]
             (λ id, inr (a_profile id)) (λ _, inr []) (λ _, inr []) None in
  match (load_players W "na1" 3 None st0).1 with
  | inr df =>
      (λ ir, row_get "leaguePoints" ir.2) <$> rows df = CInt <$> [200; 100; 50]
      ∧ StronglySorted Z.ge [200; 100; 50]
  | inl _ => False
  end.
Proof.
  intros W.
  assert (match (load_players W "na1" 3 None st0).1 with
          | inr df =>
              (λ ir, row_get "leaguePoints" ir.2) <$> rows df = CInt <$> [200; 100; 50]
          | inl _ => False
          end) as Hcol by (vm_compute; reflexivity).
  destruct (load_players W "na1" 3 None st0) as [[e|df] st'] eqn:Hrun; [done|].
  cbn [fst] in *. split; [done|].
  destruct (load_players_sorted W "na1" 3 None st0 _ _ Hrun) as (points & Hp & Hsorted & _).
  assert (Inj (=) (=) CInt) by (by intros ?? [=]).
  rewrite Hcol in Hp. apply (inj (fmap CInt)) in Hp. by rewrite Hp.
Defined.

(** ** Saving *)

Section SaveFacts.
Context (W : World).

(** C7, amended. The table has been computed (the run without a save
    path returns it) and the write raises [e]. [load_players] prints the
    exception and its message and returns the table. The two functions of
    process_lol_data.py print their message and raise [e] again: they return
    nothing. In all three the failed write is the last call. *)
Theorem save_failure_outcomes :
  (∀ reg player_count save_path st df st1 e,
      load_players W reg player_count None st = (inr df, st1) →
      let path := save_path +:+ default "" (file_name df) in
      w_to_csv W (trace st1) path = Some e →
      ∃ st2,
        load_players W reg player_count (Some save_path) st = (inr df, st2)
        ∧ trace st2 = trace st1 ++ [(to_csv path, false)]
        ∧ stdout st2
          = stdout st1 ++ [[Exc e]; [Txt "Failed to save player data to .csv file."]])
  ∧ (∀ load_path save_path include_key st df st1 e,
      process_player_data_from_matches W load_path None include_key st
        = (inr (Table df), st1) →
      let path := save_path +:+ replace "raw_match_data" "processed_player_data"
                                  (basename load_path) in
      w_to_csv W (trace st1) path = Some e →
      ∃ st2,
        process_player_data_from_matches W load_path (Some save_path) include_key st
          = (inl e, st2)
        ∧ trace st2 = trace st1 ++ [(to_csv path, false)]
        ∧ stdout st2
          = stdout st1 ++ [[Txt "Failed to save processed player data to .csv file."]])
  ∧ (∀ match_load_path player_load_path save_path noise_rate st df st1 e,
      process_match_data W match_load_path player_load_path None noise_rate st
        = (inr (Table df), st1) →
      let path := save_path +:+ replace "raw_match_data" "processed_match_data"
                                  (basename match_load_path) in
      w_to_csv W (trace st1) path = Some e →
      ∃ st2,
        process_match_data W match_load_path player_load_path (Some save_path)
            noise_rate st
          = (inl e, st2)
        ∧ trace st2 = trace st1 ++ [(to_csv path, false)]
        ∧ stdout st2
          = stdout st1 ++ [[Txt "Failed to save processed match data to .csv file."]]).
Proof.
  split_and!.
  - intros reg n sp st df st1 e Hrun path Hw.
    assert (ranked_players W reg n st = (inr df, st1)) as Hr.
    { revert Hrun. unfold load_players, bind.
      by destruct (ranked_players W reg n st) as [[e'|df0] st']. }
    unfold load_players. rewrite (bind_run _ _ _ _ _ Hr).
    unfold bind, attempt, df_to_csv. fold path. rewrite Hw. simpl.
    eexists. split_and!; [reflexivity|done|]. simpl. by rewrite <- app_assoc.
  - intros lp sp k st df st1 e Hrun path Hw.
    assert (player_directory lp k st = (inr df, st1)) as Hr.
    { revert Hrun. unfold process_player_data_from_matches, bind.
      destruct (player_directory lp k st) as [[e'|df0] st']; [done|].
      unfold ret. by intros [= -> ->]. }
    unfold process_player_data_from_matches. rewrite (bind_run _ _ _ _ _ Hr).
    unfold bind, attempt, df_to_csv. fold path. rewrite Hw. simpl.
    eexists. split_and!; [reflexivity|done|done].
  - intros mp pp sp nr st df st1 e Hrun path Hw.
    assert (processed_matches W mp pp nr st = (inr df, st1)) as Hr.
    { revert Hrun. unfold process_match_data, bind.
      destruct (processed_matches W mp pp nr st) as [[e'|df0] st']; [done|].
      unfold ret. by intros [= -> ->]. }
    unfold process_match_data. rewrite (bind_run _ _ _ _ _ Hr).
    unfold bind, attempt, df_to_csv. fold path. rewrite Hw. simpl.
    eexists. split_and!; [reflexivity|done|done].
Qed.
End SaveFacts.

(** ** Rows *)

Section RowFacts.
Implicit Types (r : row) (c : string) (v : cell).

Lemma row_get_insert_eq c v r : row_get c (<[c := v]> r) = v.
Proof. unfold row_get. by rewrite lookup_insert_eq. Qed.

Lemma row_get_insert_ne c c' v r : c ≠ c' → row_get c' (<[c := v]> r) = row_get c' r.
Proof. intros. unfold row_get. by rewrite lookup_insert_ne. Qed.

Lemma row_get_filter (P : string * cell → Prop) `{!∀ x, Decision (P x)} c r :
  (∀ v, P (c, v)) → row_get c (filter P r) = row_get c r.
Proof.
  intros Hc. unfold row_get. rewrite map_lookup_filter.
  destruct (r !! c); simpl; [|done]. by rewrite option_guard_True.
Qed.

Lemma lookup_filter_out (P : string * cell → Prop) `{!∀ x, Decision (P x)} c r :
  (∀ v, ¬ P (c, v)) → filter P r !! c = None.
Proof.
  intros Hc. rewrite map_lookup_filter.
  destruct (r !! c); simpl; [|done]. by rewrite option_guard_False.
Qed.

Lemma row_get_rename_new old new r :
  r !! new = None → row_get new (rename_key old new r) = row_get old r.
Proof.
  intros Hnew. unfold rename_key, row_get.
  destruct (r !! old) as [v|] eqn:Hold.
  - by rewrite lookup_insert_eq.
  - by rewrite Hnew.
Qed.

Lemma row_get_rename_some old new r v :
  r !! old = Some v → row_get new (rename_key old new r) = v.
Proof. intros Hold. unfold rename_key, row_get. by rewrite Hold, lookup_insert_eq. Qed.

Lemma row_get_rename_ne old new c r :
  c ≠ old → c ≠ new → row_get c (rename_key old new r) = row_get c r.
Proof.
  intros ??. unfold rename_key, row_get. destruct (r !! old); [|done].
  by rewrite lookup_insert_ne, lookup_delete_ne.
Qed.

Lemma lookup_rename_ne old new c r :
  c ≠ old → c ≠ new → rename_key old new r !! c = r !! c.
Proof.
  intros ??. unfold rename_key. destruct (r !! old); [|done].
  by rewrite lookup_insert_ne, lookup_delete_ne.
Qed.
End RowFacts.

(** ** Column names *)



Lemma slot_col_inj i j s t :
  i ∈ slots → j ∈ slots → s ∈ suffixes → t ∈ suffixes →
  slot_col i s = slot_col j t → i = j ∧ s = t.
Proof.
  assert (Forall (λ i, Forall (λ j, Forall (λ s, Forall (λ t,
            slot_col i s = slot_col j t → i = j ∧ s = t)
            suffixes) suffixes) slots) slots) as H by compute_done.
  intros Hi Hj Hs Ht.
  rewrite Forall_forall in H. specialize (H i Hi).
  rewrite Forall_forall in H. specialize (H j Hj).
  rewrite Forall_forall in H. specialize (H s Hs).
  rewrite Forall_forall in H. exact (H t Ht).
Qed.


Lemma slot_col_plain i s :
  i ∈ slots → s ∈ suffixes → slot_col i s ∉ plain_columns.
Proof.
  assert (Forall (λ i, Forall (λ s, slot_col i s ∉ plain_columns) suffixes) slots)
    as H by compute_done.
  intros Hi Hs.
  rewrite Forall_forall in H. specialize (H i Hi).
  rewrite Forall_forall in H. exact (H s Hs).
Qed.

(** ** The player directory *)





Section DirectoryFacts.

(** The disequalities a duplicate-free list of names gives. *)
Ltac nodup_facts H :=
  unfold key3 in H; simpl in H;
  repeat (apply NoDup_cons in H as [? H]);
  rewrite ?not_elem_of_cons in *;
  intuition (try congruence).

Lemma pd_read_csv_ok path df st :
  fs st !! path = Some df →
  pd_read_csv path st = (inr (reset_index df), log (read_csv path) true st).
Proof. unfold pd_read_csv. by intros ->. Qed.

Lemma loc_columns_ok df cols st :
  Forall (λ c, c ∈ columns df) cols →
  loc_columns df cols st =
    (inr (frame cols ((λ ir, (ir.1, filter (λ kv, kv.1 ∈ cols) ir.2)) <$> rows df)), st).
Proof.
  intros Hall. unfold loc_columns.
  assert (filter (λ c, c ∉ columns df) cols = []) as ->; [|done].
  induction Hall as [|c cols Hc _ IH]; [done|].
  rewrite filter_cons_False by (intros ?; done). done.
Qed.

Lemma slot_triple_name n p s r :
  NoDup ([n; p; s] ++ key3) → row_get "name" (slot_triple n p s r) = row_get n r.
Proof.
  intros Hnd. unfold slot_triple.
  assert (n ≠ "name" ∧ p ≠ "name" ∧ s ≠ "name" ∧ p ≠ "puuid" ∧ s ≠ "summonerId"
          ∧ "name" ∉ [n; p; s]) as (?&?&?&?&?&?) by nodup_facts Hnd.
  rewrite !row_get_rename_ne by done.
  rewrite row_get_rename_new by (apply lookup_filter_out; by intros ?).
  apply row_get_filter. intros ?. simpl. left.
Qed.

Lemma slot_players_ok load_path md n p s st :
  triple_ok (columns md) n p s →
  ∃ df, slot_players load_path md n p s st = (inr df, st)
    ∧ columns df = key3
    ∧ (rows df).*2 = slot_triple n p s <$> (rows md).*2.
Proof.
  intros [Hin Hnd]. unfold slot_players, bind, attempt.
  rewrite (loc_columns_ok _ _ _ Hin). simpl. eexists. split; [reflexivity|].
  assert (n ≠ p ∧ n ≠ s ∧ p ≠ s ∧ p ≠ "name" ∧ s ≠ "name" ∧ s ≠ "puuid")
    as (?&?&?&?&?&?) by nodup_facts Hnd.
  split.
  - unfold rename_columns, rename_column, frame; simpl.
    repeat (case_decide; try congruence). done.
  - unfold rename_columns, rename_column, frame; simpl.
    rewrite <- !list_fmap_compose. done.
Qed.

Lemma has_name_app_l rs1 rs2 c : has_name rs1 c → has_name (rs1 ++ rs2) c.
Proof. intros (r & Hr & Hc). exists r. split; [|done]. apply elem_of_app. by left. Qed.

Lemma has_name_app_r rs1 rs2 c : has_name rs2 c → has_name (rs1 ++ rs2) c.
Proof. intros (r & Hr & Hc). exists r. split; [|done]. apply elem_of_app. by right. Qed.

Lemma drop_duplicate_rows_keeps cols rs r :
  r ∈ rs → ∃ r', r' ∈ drop_duplicate_rows cols rs ∧ same_row cols r' r.
Proof.
  induction rs as [|r0 rs IH]; simpl; [by intros ?%elem_of_nil|].
  intros [->|Hr]%elem_of_cons.
  - exists r0. split; [left|]. unfold same_row. by apply Forall_forall.
  - destruct (IH Hr) as (r' & Hr' & Hsame).
    destruct (decide (same_row cols r0 r')) as [H0|H0].
    + exists r0. split; [left|]. unfold same_row in *.
      rewrite Forall_forall in *. intros c Hc. by rewrite H0, Hsame.
    + exists r'. split; [|done]. right. by apply list_elem_of_filter.
Qed.

Lemma has_name_drop_duplicates cols rs c :
  "name" ∈ cols → has_name rs c → has_name (drop_duplicate_rows cols rs) c.
Proof.
  intros Hn (r & Hr & Hc).
  destruct (drop_duplicate_rows_keeps cols rs r Hr) as (r' & Hr' & Hsame).
  exists r'. split; [done|]. rewrite <- Hc.
  unfold same_row in Hsame. rewrite Forall_forall in Hsame. by apply Hsame.
Qed.

Lemma combine_players_ok load_path md todo comb st :
  Forall (λ i, triple_ok (columns md) (slot_col i "_name") (slot_col i "_puuid")
                 (slot_col i "_summonerId")) todo →
  columns comb = key3 →
  ∃ df, combine_players load_path md todo comb st = (inr df, st)
    ∧ columns df = key3
    ∧ (∀ c, has_name (rows comb).*2 c → has_name (rows df).*2 c)
    ∧ (∀ i r, i ∈ todo → r ∈ (rows md).*2 →
         has_name (rows df).*2 (row_get (slot_col i "_name") r)).
Proof.
  revert comb. induction todo as [|i todo IH]; intros comb Hall Hcomb; simpl.
  - exists comb. split_and!; [done..|]. by intros i r ?%elem_of_nil.
  - apply Forall_cons in Hall as [Hi Hall]. unfold bind.
    destruct (slot_players_ok load_path md _ _ _ st Hi) as (sp & Hsp & Hcols & Hrows).
    rewrite Hsp.
    set (comb1 := drop_duplicates (concat comb sp)).
    assert (columns comb1 = key3) as Hc1.
    { unfold comb1, drop_duplicates, concat, frame. simpl. by rewrite Hcomb, Hcols. }
    assert ((rows comb1).*2 = drop_duplicate_rows key3 ((rows comb).*2 ++ (rows sp).*2))
      as Hr1.
    { unfold comb1, drop_duplicates, concat, frame. simpl.
      rewrite !range_index_rows. by rewrite Hcomb, Hcols. }
    destruct (IH comb1 Hall Hc1) as (df & Hdf & Hcdf & Hold & Hnew).
    exists df. split_and!; [done..| |].
    + intros c Hc. apply Hold. rewrite Hr1.
      apply has_name_drop_duplicates; [left|]. by apply has_name_app_l.
    + intros i' r [->|Hi']%elem_of_cons Hr; [|by apply Hnew].
      apply Hold. rewrite Hr1.
      apply has_name_drop_duplicates; [left|]. apply has_name_app_r.
      exists (slot_triple (slot_col i "_name") (slot_col i "_puuid")
                (slot_col i "_summonerId") r).
      split; [rewrite Hrows; by apply list_elem_of_fmap_2|].
      apply slot_triple_name. apply Hi.
Qed.
End DirectoryFacts.





Lemma raw_triples_ok :
  Forall (λ i, triple_ok raw_columns (slot_col i "_name") (slot_col i "_puuid")
                 (slot_col i "_summonerId")) slots.
Proof. compute_done. Qed.

Lemma player_directory_ok load_path raw st :
  fs st !! load_path = Some raw →
  columns raw = raw_columns →
  ∃ players,
    player_directory load_path true st
      = (inr (directory players), log (read_csv load_path) true st)
    ∧ ∀ i r, i ∈ slots → r ∈ (rows raw).*2 →
        has_name players (row_get (slot_col i "_name") r).
Proof.
  intros Hfs Hcols. unfold player_directory.
  rewrite (bind_run _ _ _ _ _ (pd_read_csv_ok _ _ _ Hfs)).
  set (md := reset_index raw). set (st1 := log _ _ _).
  assert (columns md = raw_columns) as Hmd by done.
  assert ((rows md).*2 = (rows raw).*2) as Hrows by apply range_index_rows.
  pose proof raw_triples_ok as Hok. rewrite <- Hmd in Hok.
  apply Forall_cons in Hok as [Hok1 Hok].
  destruct (slot_players_ok load_path md _ _ _ st1 Hok1) as (df1 & Hdf1 & Hc1 & Hr1).
  change (slot_col 1 "_name") with "p1_name" in Hdf1.
  change (slot_col 1 "_puuid") with "p1_puuid" in Hdf1.
  change (slot_col 1 "_summonerId") with "p1_summonerId" in Hdf1.
  rewrite (bind_run _ _ _ _ _ Hdf1).
  destruct (combine_players_ok load_path md (seqZ 2 9) df1 st1 Hok Hc1)
    as (df & Hdf & Hc & Hold & Hnew).
  rewrite (bind_run _ _ _ _ _ Hdf).
  exists (rows df).*2. split.
  - unfold ret, assign, concat, directory, frame. simpl. rewrite Hc. done.
  - intros i r Hi Hr. rewrite <- Hrows in Hr.
    change slots with (1 :: seqZ 2 9) in Hi. apply elem_of_cons in Hi as [->|Hi].
    + apply Hold. rewrite Hr1.
      exists (slot_triple (slot_col 1 "_name") (slot_col 1 "_puuid")
                (slot_col 1 "_summonerId") r).
      split; [by apply list_elem_of_fmap_2|]. apply slot_triple_name. apply Hok1.
    + by apply Hnew.
Qed.

(** ** The match table *)




Section MatchTableFacts.
Context (W : World).

Lemma drop_columns_ok df cols st :
  Forall (λ c, c ∈ columns df) cols →
  drop_columns df cols st =
    (inr (frame (filter (λ c, c ∉ cols) (columns df))
            ((λ ir, (ir.1, filter (λ kv, kv.1 ∉ cols) ir.2)) <$> rows df)), st).
Proof.
  intros Hall. unfold drop_columns.
  assert (filter (λ c, c ∉ columns df) cols = []) as ->; [|done].
  induction Hall as [|c cols Hc _ IH]; [done|].
  rewrite filter_cons_False by (intros ?; done). done.
Qed.

End MatchTableFacts.

(** *** One row through one slot *)

Section SlotRow.
Context (players : list row) (champs : gmap Z string) (i : Z) (Hi : i ∈ slots).


Lemma slot_rows_bind rs :
  slot_rows players champs i rs = rs ≫= λ ir, slot_rows players champs i [ir].
Proof.
  induction rs as [|ir rs IH]; [done|].
  unfold slot_rows in *. csimpl. rewrite app_nil_r, !fmap_app. by rewrite IH.
Qed.

Lemma elem_of_slot_rows rs ir' :
  ir' ∈ slot_rows players champs i rs ↔
  ∃ ir, ir' ∈ slot_rows players champs i [ir] ∧ ir ∈ rs.
Proof. rewrite slot_rows_bind. apply list_elem_of_bind. Qed.



Lemma slot_col_ne s j t : s ∈ suffixes → t ∈ suffixes → j ∈ slots →
  (i ≠ j ∨ s ≠ t) → slot_col i s ≠ slot_col j t.
Proof.
  intros Hs Ht Hj Hne Heq. apply slot_col_inj in Heq as [Hij Hst]; [|done..].
  by destruct Hne.
Qed.

Lemma slot_col_not_key s : s ∈ suffixes → slot_col i s ≠ "key".
Proof.
  intros Hs Heq. apply (slot_col_plain i s Hi Hs). rewrite Heq. compute_done.
Qed.

Lemma dropped_get c r :
  c ∉ [slot_col i "_puuid"; slot_col i "_summonerId"] → row_get c (dropped i r) = row_get c r.
Proof. intros Hc. by apply row_get_filter. Qed.

Lemma finished_get c r :
  c ≠ "key" → c ≠ slot_col i "_key" → c ≠ slot_col i "_champName" →
  row_get c (finished champs i r) = row_get c r.
Proof.
  intros ???. unfold finished.
  rewrite row_get_insert_ne by done. by apply row_get_rename_ne.
Qed.

Lemma finished_key r k :
  r !! "key" = Some k → row_get (slot_col i "_key") (finished champs i r) = k.
Proof.
  intros Hk. unfold finished. rewrite row_get_insert_ne.
  - by apply row_get_rename_some.
  - apply slot_col_ne; [compute_done..|done|right; done].
Qed.

(** The rows one row becomes: one for each player of its name, or the
    row itself when there is none. *)
Lemma slot_rows_single ir :
  slot_rows players champs i [ir] =
    match filter (λ d, row_get "name" d = row_get (slot_col i "_name") ir.2) players with
    | [] => [(ir.1, finished champs i (dropped i ir.2))]
    | ds => (λ d, (ir.1, finished champs i (<["key" := row_get "key" d]> (dropped i ir.2)))) <$> ds
    end.
Proof.
  unfold slot_rows, join_row. csimpl. rewrite app_nil_r. fold (dropped i ir.2).
  rewrite dropped_get.
  - destruct (filter _ players); [reflexivity|].
    csimpl. f_equal. rewrite <- !list_fmap_compose. reflexivity.
  - rewrite !not_elem_of_cons. split_and!; [| |apply not_elem_of_nil];
      (apply slot_col_ne; [compute_done..|done|right; done]).
Qed.

(** Nothing but the label and the columns the slot does not touch goes
    through unchanged. *)
Lemma slot_rows_keeps ir ir' c :
  ir' ∈ slot_rows players champs i [ir] → c ∉ touched i →
  ir'.1 = ir.1 ∧ row_get c ir'.2 = row_get c ir.2.
Proof.
  intros Hin Hc. unfold touched in Hc. rewrite !not_elem_of_cons in Hc.
  destruct Hc as (?&?&?&?&?&_).
  rewrite slot_rows_single in Hin. destruct (filter _ players) as [|d ds].
  - apply list_elem_of_singleton in Hin as ->. split; [done|]. simpl.
    rewrite finished_get by done. apply dropped_get.
    rewrite !not_elem_of_cons. split_and!; [done..|apply not_elem_of_nil].
  - apply list_elem_of_fmap in Hin as (d' & -> & _). split; [done|]. simpl.
    rewrite finished_get, row_get_insert_ne by done. apply dropped_get.
    rewrite !not_elem_of_cons. split_and!; [done..|apply not_elem_of_nil].
Qed.

(** When the directory has the name of the slot, the key of the slot is
    the key of a player of that name. *)
Lemma slot_rows_resolves ir ir' :
  ir' ∈ slot_rows players champs i [ir] →
  has_name players (row_get (slot_col i "_name") ir.2) →
  ∃ d, d ∈ players ∧ row_get "name" d = row_get (slot_col i "_name") ir.2
       ∧ row_get (slot_col i "_key") ir'.2 = row_get "key" d.
Proof.
  intros Hin (d0 & Hd0 & Hn0). rewrite slot_rows_single in Hin.
  destruct (filter _ players) as [|d ds] eqn:Hf.
  - assert (d0 ∈ filter (λ d, row_get "name" d = row_get (slot_col i "_name") ir.2) players)
      as Hin0 by (by apply list_elem_of_filter).
    rewrite Hf in Hin0. by apply elem_of_nil in Hin0.
  - apply list_elem_of_fmap in Hin as (d' & -> & Hd'). rewrite <- Hf in Hd'.
    apply list_elem_of_filter in Hd' as [Hn' Hd']. exists d'. split_and!; [done..|].
    simpl. apply finished_key. by rewrite lookup_insert_eq.
Qed.


End SlotRow.

(** *** All rows through all slots *)

Section AllSlots.
Context (players : list row) (champs : gmap Z string).




Lemma through_snoc todo i rs :
  through players champs (todo ++ [i]) rs = slot_rows players champs i (through players champs todo rs).
Proof. unfold through. by rewrite foldl_app. Qed.

Lemma name_untouched i j : i ∈ slots → j ∈ slots → slot_col j "_name" ∉ touched i.
Proof.
  intros Hi Hj. unfold touched. rewrite !not_elem_of_cons.
  split_and!; [..|apply not_elem_of_nil];
    try (apply (slot_col_ne j); [done|compute_done..|done|right; done]).
  by apply slot_col_not_key; [|compute_done].
Qed.

Lemma key_untouched i j : i ∈ slots → j ∈ slots → i ≠ j → slot_col j "_key" ∉ touched i.
Proof.
  intros Hi Hj Hne. unfold touched. rewrite !not_elem_of_cons.
  split_and!; [..|apply not_elem_of_nil];
    try (apply (slot_col_ne j); [done|compute_done..|done|left; done]).
  by apply slot_col_not_key; [|compute_done].
Qed.

Lemma slot_rows_label i ir ir' :
  i ∈ slots → ir' ∈ slot_rows players champs i [ir] → ir'.1 = ir.1.
Proof.
  intros Hi Hin. rewrite slot_rows_single in Hin by done.
  destruct (filter _ players).
  - by apply list_elem_of_singleton in Hin as ->.
  - by apply list_elem_of_fmap in Hin as (d & -> & _).
Qed.


End AllSlots.

(** *** The directory, read back *)





Lemma raw_columns_after :
  ∃ cols, columns_after slots raw_columns = Some cols
          ∧ Forall (λ c, c ∈ cols) ordered_cols.
Proof.
  exists (default [] (columns_after slots raw_columns)).
  split; [vm_compute; reflexivity|compute_done].
Qed.

(** ** The table builder on examples *)



(** C7, as stated, fails: the directory is computed, the write fails, and
    [process_player_data_from_matches] raises instead of returning it. *)
Lemma failed_write_loses_directory :
  (∃ df, (process_player_data_from_matches full_disk raw_path None true two_matches).1
         = inr (Table df))
  ∧ (process_player_data_from_matches full_disk raw_path (Some "out/") true two_matches).1
    = inl (OtherError "No space left on device").
Proof. split; [eexists|]; vm_compute; reflexivity. Qed.

(** A full disk: [load_players] still returns its (here empty) table, the
    directory builder raises. *)
Lemma full_disk_outcomes :
  (∃ df st1, load_players full_disk "na1" 1 (Some "out/") st0 = (inr df, st1)
             ∧ (to_csv ("out/" +:+ default "" (file_name df)), false) ∈ trace st1)
  ∧ ∃ st1, process_player_data_from_matches full_disk raw_path (Some "out/") true two_matches
           = (inl (OtherError "No space left on device"), st1).
Proof.
  destruct (save_failure_outcomes full_disk) as (Hload & Hdir & _).
  split.
  - assert (match (load_players full_disk "na1" 1 None st0).1 with
            | inr _ => True | inl _ => False end) as Hok by (vm_compute; exact I).
    destruct (load_players full_disk "na1" 1 None st0) as [[e|df] st1] eqn:Hrun;
      [destruct Hok|].
    destruct (Hload "na1" 1 "out/" st0 df st1
                (OtherError "No space left on device") Hrun eq_refl)
      as (st2 & Hsaved & Htr & _).
    exists df, st2. split; [exact Hsaved|].
    rewrite Htr. apply elem_of_app. right. left.
  - assert (match (process_player_data_from_matches full_disk raw_path None true
                     two_matches).1 with
            | inr (Table _) => True | _ => False end) as Hok by (vm_compute; exact I).
    destruct (process_player_data_from_matches full_disk raw_path None true two_matches)
      as [[e|[df|df n]] st1] eqn:Hrun; [destruct Hok| |destruct Hok].
    destruct (Hdir raw_path "out/" true two_matches df st1
                (OtherError "No space left on device") Hrun eq_refl)
      as (st2 & Hraised & _).
    exists st2. exact Hraised.
Defined.

(** ** Tables, written and read *)

Section Retyped.
Context (W : World).

Lemma imap_fst {A B} (f : nat → A * B → A * B) (l : list (A * B)) :
  (∀ n x, (f n x).1 = x.1) → (imap f l).*1 = l.*1.
Proof.
  revert f. induction l as [|x l IH]; intros f Hf; csimpl; [done|].
  rewrite Hf, IH; [done|]. intros n y. apply Hf.
Qed.

Lemma retyped_labels df : (rows (retyped W df)).*1 = (rows df).*1.
Proof. unfold retyped, frame. cbn [rows]. by apply imap_fst. Qed.

Lemma row_of_columns (f : string → cell) cols c :
  c ∈ cols →
  row_get c (list_to_map ((λ c, (c, f c)) <$> cols)) = f c.
Proof.
  unfold row_get. induction cols as [|c0 cols IH]; [by intros ?%elem_of_nil|].
  intros Hc. csimpl. destruct (decide (c0 = c)) as [->|Hne].
  - by rewrite lookup_insert_eq.
  - rewrite lookup_insert_ne by done. apply IH.
    apply elem_of_cons in Hc as [?|?]; [congruence|done].
Qed.

(** A column that is read as it was written is the same column of the
    table read. *)
Lemma retyped_column df c :
  c ∈ columns df → reread W (column c df) = column c df →
  column c (retyped W df) = column c df.
Proof.
  intros Hc Hsame. apply list_eq. intros n.
  unfold column at 1, retyped, frame. cbn [rows].
  rewrite list_lookup_fmap, list_lookup_imap.
  unfold column at 2. rewrite list_lookup_fmap.
  destruct (rows df !! n) as [ir|] eqn:Hn; [|done]. cbn [fmap option_fmap option_map snd].
  f_equal. rewrite row_of_columns by done. rewrite Hsame.
  unfold column. by rewrite list_lookup_fmap, Hn.
Qed.

Lemma reread_text col :
  text_column col = true → Forall (λ c, text_cell c) col → reread W col = col.
Proof.
  intros Htext Hall. unfold reread. rewrite Htext.
  rewrite <- (list_fmap_id col) at 2. apply list_fmap_ext.
  intros n c Hc. rewrite Forall_forall in Hall.
  assert (text_cell c) as Hcell by (apply Hall; by eapply list_elem_of_lookup_2).
  destruct c as [s| | |]; try done. simpl in *.
  apply bool_decide_unpack in Hcell. by rewrite bool_decide_eq_false_2.
Qed.

Lemma reread_sure col : Forall (λ c, sure_text c) col → reread W col = col.
Proof.
  intros Hall. destruct col as [|c col]; [done|].
  apply reread_text.
  - apply Forall_cons in Hall as [Hc _]. unfold text_column. cbn [existsb].
    by destruct (sure_text c).
  - eapply Forall_impl; [exact Hall|]. intros [s| | |]; try done. simpl.
    unfold surely_text. intros [[H _]%andb_True _]%andb_True. done.
Qed.



End Retyped.

(** ** More on the crawler *)

Section DictGet.
Context {V : Type}.
Implicit Types (d : dict V) (k : string) (v : V).

Lemma dict_get_set_ne k k' v d : k ≠ k' → dict_get k' (dict_set k v d) = dict_get k' d.
Proof.
  intros Hne. induction d as [|[k0 v0] d IH]; simpl.
  - by rewrite decide_False.
  - destruct (decide (k0 = k)) as [->|]; simpl.
    + by rewrite !decide_False.
    + by rewrite IH.
Qed.

Lemma dict_get_set_eq k v d : dict_get k (dict_set k v d) = Some v.
Proof.
  induction d as [|[k0 v0] d IH]; simpl.
  - by rewrite decide_True.
  - destruct (decide (k0 = k)) as [->|]; simpl.
    + by rewrite decide_True.
    + by rewrite decide_False.
Qed.

Lemma dict_get_or_l k d1 d2 :
  k ∉ dict_keys d2 → dict_get k (dict_or d1 d2) = dict_get k d1.
Proof.
  unfold dict_or, dict_keys. revert d1.
  induction d2 as [|[k2 v2] d2 IH]; intros d1; csimpl; [done|].
  intros [Hne Hk]%not_elem_of_cons. rewrite IH by done.
  by apply dict_get_set_ne.
Qed.

Lemma dict_get_keys k d : k ∈ dict_keys d ↔ is_Some (dict_get k d).
Proof.
  unfold dict_keys. induction d as [|[k0 v0] d IH]; csimpl.
  - split; [by intros ?%elem_of_nil|by intros [? [=]]].
  - rewrite elem_of_cons. destruct (decide (k0 = k)) as [->|]; [by split; eauto|].
    rewrite IH. split; [intros [?|?]; [congruence|done]|by right].
Qed.
End DictGet.

Section CrawlMore.
Context (W : World).

Lemma fetch_matches_searched reg ml pmd s st :
  Forall (λ m, m ∈ s) ml →
  fetch_matches W reg ml pmd s st = (inr (pmd, s, false), st).
Proof.
  induction 1 as [|m ml Hm _ IH]; simpl; [done|].
  by rewrite decide_False by (by intros ?).
Qed.

(** A player all of whose listed matches are already searched costs the
    one listing call and no match-detail call; the sub-crawl returns an empty
    dictionary and the searched list as it was. *)
Theorem known_matches_cost_nothing puuid date ct reg s st ml :
  w_matchlist W (trace st) puuid reg date ct = inr ml →
  Forall (λ m, m ∈ s) ml →
  load_matches_from_player W puuid date ct reg s st =
    (inr (Some ([], s)), log (matchlist_by_puuid puuid reg date ct 100) true st).
Proof.
  intros Hlist Hknown. unfold load_matches_from_player, bind at 1, attempt, ask.
  rewrite Hlist. cbv beta iota zeta.
  by rewrite (bind_run _ _ _ _ _ (fetch_matches_searched reg ml [] s _ Hknown)).
Qed.

Lemma crawl_player_keeps reg date ct tl size puuid v st v' brk st' :
  crawl_inv v →
  crawl_player W reg date ct tl size puuid v st = (inr (v', brk), st') →
  (∃ new, searched_matches v' = searched_matches v ++ new)
  ∧ ∀ k rec, dict_get k (match_data v) = Some rec → dict_get k (match_data v') = Some rec.
Proof.
  intros Hinv Hrun.
  destruct (load_matches_from_player_history W puuid date ct reg (searched_matches v) st)
    as (ev & _ & Hfresh & _ & Hres).
  revert Hrun. unfold crawl_player. unfold bind at 1.
  destruct (load_matches_from_player W puuid date ct reg (searched_matches v) st)
    as [[e|[[pmd s']|]] st1]; [done| |done].
  cbn [fst] in Hres. destruct Hres as [-> Hkeys].
  destruct Hinv as [Hmd Hnd].
  pose proof (fresh_calls_NoDup _ _ Hfresh Hnd) as Hnd'.
  assert (∀ k rec, dict_get k (match_data v) = Some rec →
            dict_get k (dict_or (match_data v) pmd) = Some rec) as Hkeep.
  { intros k rec Hk. rewrite dict_get_or_l; [done|].
    rewrite Hkeys. intros Hin.
    apply NoDup_app in Hnd' as (_ & Hdis & _). apply (Hdis k); [|done].
    rewrite <- Hmd. apply dict_get_keys. by rewrite Hk. }
  unfold bind, print, now, ret.
  repeat (case_decide || case_match); simplify_eq/=; intros; simplify_eq/=;
    (split; [by eexists|done]).
Qed.

(** Nothing the crawl has collected is lost or overwritten: over any
    number of players, the searched list only grows at its end, and a
    record of [match_data] stays what it was when it was first stored. *)
Theorem crawl_only_adds reg date ct tl size ps v st v' brk st' :
  crawl_inv v →
  crawl_players W reg date ct tl size ps v st = (inr (v', brk), st') →
  (∃ new, searched_matches v' = searched_matches v ++ new)
  ∧ ∀ k rec, dict_get k (match_data v) = Some rec → dict_get k (match_data v') = Some rec.
Proof.
  revert v st. induction ps as [|p ps IH]; intros v st Hinv; simpl.
  - intros [= <- <- <-]. split; [exists []; by rewrite app_nil_r|done].
  - unfold bind.
    destruct (crawl_player_history W reg date ct tl size p v st Hinv) as (ev & _ & _ & _ & Hres).
    destruct (crawl_player W reg date ct tl size p v st) as [[e|[v1 b1]] st1] eqn:Hp; [done|].
    destruct (crawl_player_keeps _ _ _ _ _ _ _ _ _ _ _ Hinv Hp) as [[new1 Hs1] Hk1].
    cbn [fst snd] in *. destruct Hres as (_ & Hinv1 & _).
    destruct b1.
    + intros [= <- <- <-]. split; [by exists new1|done].
    + intros Hrest. destruct (IH v1 st1 Hinv1 Hrest) as [[new2 Hs2] Hk2].
      split; [exists (new1 ++ new2); by rewrite Hs2, Hs1, app_assoc|].
      intros k rec Hk. by apply Hk2, Hk1.
Qed.
End CrawlMore.

(** ** Arguments and credentials *)

Section Arguments.
Context (W : World).

(** A rejected credential. When the status probe raises [ApiError], both
    functions raise it again and the probe is their last call: no ladder, no
    listing and no match is asked for, and nothing is written. [load_matches]
    has read the clock before the probe, and the player file as well when
    its players come from a file. [Invalid API key.] is printed exactly when
    the status is 401. *)
Theorem rejected_key_stops_both reg code st :
  let said := if decide (code = 401) then [[Txt "Invalid API key."]] else [] in
  (∀ player_count save_path,
      reg ∈ valid_regions → 0 < player_count →
      w_platform_data W (trace st) reg = inl (ApiError code) →
      load_players W reg player_count save_path st =
        (inl (ApiError code),
         {| trace := trace st ++ [(platform_data reg, false)];
            stdout := stdout st ++ said;
            fs := fs st |}))
  ∧ (∀ date players df load_path save_path time_limit t,
      reg ∈ valid_regions → time_limit = Some t → (0 < t)%Q →
      (inject_Z date < w_time W (trace st))%Q →
      players = Some df → "puuid" ∈ columns df →
      w_platform_data W (trace st ++ [(time_time, true)]) reg = inl (ApiError code) →
      load_matches W reg date players load_path save_path time_limit st =
        (inl (ApiError code),
         {| trace := trace st ++ [(time_time, true); (platform_data reg, false)];
            stdout := stdout st ++ said;
            fs := fs st |}))
  ∧ (∀ date load_path file save_path time_limit t,
      reg ∈ valid_regions → time_limit = Some t → (0 < t)%Q →
      (inject_Z date < w_time W (trace st))%Q →
      fs st !! load_path = Some file → "puuid" ∈ columns file →
      w_platform_data W (trace st ++ [(time_time, true); (read_csv load_path, true)]) reg
        = inl (ApiError code) →
      load_matches W reg date None (Some load_path) save_path time_limit st =
        (inl (ApiError code),
         {| trace := trace st ++ [(time_time, true); (read_csv load_path, true);
                                  (platform_data reg, false)];
            stdout := stdout st ++ said;
            fs := fs st |})).
Proof.
  intros said. split_and!.
  - intros n sp Hreg Hn Hprobe.
    unfold load_players, ranked_players, bind, py_assert.
    rewrite !bool_decide_eq_true_2 by done.
    unfold ret, check_api_key, bind, attempt, ask. rewrite Hprobe. unfold said.
    destruct (decide (code = 401)); unfold log; simpl; by rewrite ?app_nil_r.
  - intros date players df lp sp tl t Hreg -> Ht Hdate -> Hcol Hprobe.
    unfold load_matches, load_matches_setup, bind, py_assert.
    rewrite bool_decide_eq_true_2 by done.
    assert (Qle_bool t 0 = false) as ->.
    { destruct (Qle_bool t 0) eqn:Hle; [|done].
      apply Qle_bool_iff in Hle. by apply Qlt_not_le in Ht. }
    cbn [negb]. unfold ret, now.
    assert (Qle_bool (w_time W (trace st)) (inject_Z date) = false) as ->.
    { destruct (Qle_bool _ _) eqn:Hle; [|done].
      apply Qle_bool_iff in Hle. by apply Qlt_not_le in Hdate. }
    cbn [negb]. unfold attempt, loc_series. rewrite decide_True by done.
    unfold ret, check_api_key, bind, attempt, ask. cbn [trace log].
    rewrite Hprobe. unfold said.
    destruct (decide (code = 401)); unfold log; simpl;
      by rewrite <- app_assoc, ?app_nil_r.
  - intros date lp file sp tl t Hreg -> Ht Hdate Hfile Hcol Hprobe.
    unfold load_matches, load_matches_setup, bind at 1, bind at 1, py_assert.
    rewrite bool_decide_eq_true_2 by done. unfold ret at 1.
    unfold bind at 1 2.
    assert (Qle_bool t 0 = false) as ->.
    { destruct (Qle_bool t 0) eqn:Hle; [|done].
      apply Qle_bool_iff in Hle. by apply Qlt_not_le in Ht. }
    cbn [negb]. unfold ret at 1 2. unfold bind at 1, now at 1. unfold bind at 1.
    assert (Qle_bool (w_time W (trace st)) (inject_Z date) = false) as ->.
    { destruct (Qle_bool _ _) eqn:Hle; [|done].
      apply Qle_bool_iff in Hle. by apply Qlt_not_le in Hdate. }
    cbn [negb]. unfold ret at 1.
    assert (fs (log time_time true st) !! lp = Some file) as Hfile' by done.
    unfold bind at 1.
    rewrite (bind_run _ _ _ _ _ (pd_read_csv_ok _ _ _ Hfile')).
    unfold bind at 1, attempt, loc_series.
    rewrite decide_True by done.
    unfold ret at 1 2. unfold bind at 1, check_api_key, bind at 1, attempt, ask.
    cbn [trace log]. rewrite <- app_assoc. cbn [app].
    match goal with
    | |- context [w_platform_data W ?h reg] =>
        replace (w_platform_data W h reg) with (@inl exn unit (ApiError code))
          by (symmetry; exact Hprobe)
    end.
    unfold said.
    destruct (decide (code = 401)); unfold bind, print, raise, log; simpl;
      by rewrite <- ?app_assoc, ?app_nil_r.
Qed.

Lemma load_matches_setup_ok reg date players load_path time_limit st tl ps ct st0 :
  load_matches_setup W reg date players load_path time_limit st = (inr (tl, ps, ct), st0) →
  reg ∈ valid_regions
  ∧ time_limit = Some tl ∧ (0 < tl)%Q
  ∧ (inject_Z date < w_time W (trace st))%Q
  ∧ (is_Some players ∨ is_Some load_path)
  ∧ (platform_data reg, true) ∈ trace st0.
Proof.
  unfold load_matches_setup. unfold bind at 1, py_assert at 1.
  destruct (bool_decide (reg ∈ valid_regions)) eqn:Hreg; [|done].
  apply bool_decide_eq_true_1 in Hreg. unfold ret at 1.
  destruct time_limit as [t|]; [|done].
  unfold bind at 1 2, py_assert at 1.
  destruct (Qle_bool t 0) eqn:Ht; [done|]. cbn [negb]. unfold ret at 1 2.
  unfold bind at 1, now at 1. unfold bind at 1, py_assert at 1.
  destruct (Qle_bool (w_time W (trace st)) (inject_Z date)) eqn:Hd; [done|].
  cbn [negb]. unfold ret at 1. intros Hrest.
  assert (is_Some players ∨ is_Some load_path) as Hsrc.
  { destruct players, load_path; eauto. by exfalso. }
  assert (t = tl ∧ (platform_data reg, true) ∈ trace st0) as [-> Hprobe].
  { revert Hrest. unfold bind at 1.
    match goal with |- context [let (_, _) := ?c in _] =>
      destruct c as [[e|ps'] s1] end; [done|].
    unfold bind at 1, check_api_key, bind at 1, attempt, ask.
    destruct (w_platform_data W (trace s1) reg) as [[]|[]]; simpl;
      try done; try (by case_decide).
    unfold bind, now, ret. intros Heq.
    assert (st0 = log time_time true (log (platform_data reg) true s1)) as ->
      by congruence.
    split; [congruence|].
    simpl. rewrite !elem_of_app. left. right. left. }
  split_and!; [done|done| |  |done|done].
  - apply Qnot_le_lt. intros Hle%Qle_bool_iff. congruence.
  - apply Qnot_le_lt. intros Hle%Qle_bool_iff. congruence.
Qed.

(** What a returned table tells about the arguments of [load_matches]:
    the region is in the list, the limit is positive, the date lies before
    the first clock reading, a table of players or a path was given, and the
    status probe has answered. *)
Theorem load_matches_returns_only_if reg date players load_path save_path time_limit
    st df st' :
  load_matches W reg date players load_path save_path time_limit st = (inr df, st') →
  reg ∈ valid_regions
  ∧ (∃ t, time_limit = Some t ∧ (0 < t)%Q)
  ∧ (inject_Z date < w_time W (trace st))%Q
  ∧ (is_Some players ∨ is_Some load_path)
  ∧ (platform_data reg, true) ∈ trace st'.
Proof.
  unfold load_matches. unfold bind at 1.
  destruct (load_matches_setup W reg date players load_path time_limit st)
    as [[e|[[tl ps] ct]] st0] eqn:Hsetup; [done|].
  apply load_matches_setup_ok in Hsetup as (Hreg & -> & Ht & Hd & Hsrc & Hprobe).
  destruct (crawl_players_history W reg date ct tl (len ps) ps crawl_start st0
              crawl_inv_start) as (ev2 & Htr2 & _).
  unfold bind at 1.
  destruct (crawl_players W reg date ct tl (len ps) ps crawl_start st0)
    as [[e|vb] st2]; [done|]. cbn [snd] in Htr2.
  destruct (quiet_finish W reg date ct save_path (match_data vb.1) st2) as (ev3 & Htr3 & _).
  intros Hfin. rewrite Hfin in Htr3. cbn [snd] in Htr3.
  split_and!; [done|by eexists|done|done|].
  rewrite Htr3, Htr2, !elem_of_app. by left; left.
Qed.
End Arguments.

(** ** More examples *)

(** Both matches player A lists are already searched. *)
Lemma both_matches_known :
  w_matchlist shared_match_world (trace st0) (CStr "A") "na1" 5 999 = inr ["M123"; "M7"]
  ∧ load_matches_from_player shared_match_world (CStr "A") 5 999 "na1" ["M7"; "M123"] st0
    = (inr (Some ([], ["M7"; "M123"])),
       log (matchlist_by_puuid (CStr "A") "na1" 5 999 100) true st0).
Proof.
  assert (w_matchlist shared_match_world (trace st0) (CStr "A") "na1" 5 999
          = inr ["M123"; "M7"]) as H by reflexivity.
  split; [exact H|].
  apply (known_matches_cost_nothing shared_match_world (CStr "A") 5 999 "na1"
           ["M7"; "M123"] st0 ["M123"; "M7"] H).
  compute_done.
Defined.

(** A crawl that starts with one record keeps it. *)
Lemma crawl_keeps_first_record :
  let v := {| searched_matches := ["M7"];
              match_data := [("M7", [("p1_name", CStr "x")])];
              prev := 0; i := 1 |} in
  crawl_inv v
  ∧ ∃ v' brk st',
      crawl_players shared_match_world "na1" 5 999 1 2 [CStr "A"; CStr "B"] v st0
        = (inr (v', brk), st')
      ∧ (∃ new, searched_matches v' = ["M7"] ++ new)
      ∧ dict_get "M7" (match_data v') = Some [("p1_name", CStr "x")].
Proof.
  intros v.
  assert (crawl_inv v) as Hinv by (split; [reflexivity|compute_done]).
  assert (match (crawl_players shared_match_world "na1" 5 999 1 2 [CStr "A"; CStr "B"]
                   v st0).1 with
          | inr _ => True | inl _ => False end) as Hok by (vm_compute; exact I).
  destruct (crawl_players shared_match_world "na1" 5 999 1 2 [CStr "A"; CStr "B"] v st0)
    as [[e|[v' brk]] st'] eqn:Hrun; [destruct Hok|].
  destruct (crawl_only_adds shared_match_world "na1" 5 999 1 2 [CStr "A"; CStr "B"]
              v st0 v' brk st' Hinv Hrun) as [Hnew Hkeep].
  split; [exact Hinv|]. exists v', brk, st'.
  split; [reflexivity|]. split; [exact Hnew|]. apply Hkeep. reflexivity.
Defined.

(** The key is rejected with status 401: the probe is the last call, and
    the message is printed. With the players in a file, the file has been
    read. *)
Lemma locked_out_stops_both :
  let on_disk := {| trace := []; stdout := [];
                    fs := {[ "players.csv" := puuid_frame ["A"] ]} |} in
  load_players locked_out "na1" 5 None st0
    = (inl (ApiError 401),
       {| trace := [(platform_data "na1", false)];
          stdout := [[Txt "Invalid API key."]]; fs := ∅ |})
  ∧ load_matches locked_out "na1" 5 (Some (puuid_frame ["A"])) None None (Some 1%Q) st0
    = (inl (ApiError 401),
       {| trace := [(time_time, true); (platform_data "na1", false)];
          stdout := [[Txt "Invalid API key."]]; fs := ∅ |})
  ∧ load_matches locked_out "na1" 5 None (Some "players.csv") None (Some 1%Q) on_disk
    = (inl (ApiError 401),
       {| trace := [(time_time, true); (read_csv "players.csv", true);
                    (platform_data "na1", false)];
          stdout := [[Txt "Invalid API key."]]; fs := fs on_disk |}).
Proof.
  intros on_disk.
  destruct (rejected_key_stops_both locked_out "na1" 401 st0) as (H1 & H2 & _).
  destruct (rejected_key_stops_both locked_out "na1" 401 on_disk) as (_ & _ & H3).
  split_and!.
  - apply (H1 5 None); [compute_done|lia|reflexivity].
  - apply (H2 5 (Some (puuid_frame ["A"])) (puuid_frame ["A"]) None None (Some 1%Q) 1%Q);
      [compute_done|reflexivity|reflexivity|reflexivity|reflexivity|compute_done
      |reflexivity].
  - apply (H3 5 "players.csv" (puuid_frame ["A"]) None (Some 1%Q) 1%Q);
      [compute_done|reflexivity|reflexivity|reflexivity|apply lookup_singleton_eq
      |compute_done|reflexivity].
Defined.

(** The run over players A and B returns; its arguments were in order. *)
Lemma returned_run_arguments :
  ∃ df st',
    load_matches shared_match_world "na1" 5 (Some (puuid_frame ["A"; "B"])) None None
        (Some 1%Q) st0 = (inr df, st')
    ∧ "na1" ∈ valid_regions
    ∧ (inject_Z 5 < w_time shared_match_world (trace st0))%Q
    ∧ (platform_data "na1", true) ∈ trace st'.
Proof.
  assert (match (load_matches shared_match_world "na1" 5 (Some (puuid_frame ["A"; "B"]))
                   None None (Some 1%Q) st0).1 with
          | inr _ => True | inl _ => False end) as Hok by (vm_compute; exact I).
  destruct (load_matches shared_match_world "na1" 5 (Some (puuid_frame ["A"; "B"]))
              None None (Some 1%Q) st0) as [[e|df] st'] eqn:Hrun; [destruct Hok|].
  destruct (load_matches_returns_only_if shared_match_world "na1" 5
              (Some (puuid_frame ["A"; "B"])) None None (Some 1%Q) st0 df st' Hrun)
    as (Hreg & _ & Hd & _ & Hprobe).
  exists df, st'. split; [reflexivity|]. split; [exact Hreg|]. split; [exact Hd|exact Hprobe].
Defined.
(** ** The calls of the ladder loader *)

Section LoaderCalls.
Context (W : World).

Lemma ask_returns {A} c (oracle : history → exn + A) st a st' :
  ask c oracle st = (inr a, st') → oracle (trace st) = inr a ∧ st' = log c true st.
Proof.
  unfold ask. destruct (oracle (trace st)) as [e|a'] eqn:Ho; [done|].
  by intros [= <- <-].
Qed.

Lemma check_api_key_returns reg st u st' :
  check_api_key W reg st = (inr u, st') →
  w_platform_data W (trace st) reg = inr () ∧ st' = log (platform_data reg) true st.
Proof.
  unfold check_api_key, bind, attempt, ask.
  destruct (w_platform_data W (trace st) reg) as [e|[]] eqn:Hp.
  - destruct e; try done. by case_decide.
  - by intros [= <- <-].
Qed.

Lemma load_player_loop_calls reg todo v st v' st' :
  load_player_loop W reg todo v st = (inr v', st') →
  ∃ oks, length oks = length todo
    ∧ trace st' = trace st ++ zip ((λ p, summoner_by_id (summonerId p.1) reg) <$> todo) oks
    ∧ length (in_order_players v')
      = (length (in_order_players v) + length (filter (λ b, b = true) oks))%nat.
Proof.
  revert v st. induction todo as [|[s idx] todo IH]; intros v st; simpl.
  - intros [= <- <-]. exists []. by rewrite app_nil_r.
  - unfold bind at 1.
    destruct (load_player W reg s idx v st) as [[e|v1] st1] eqn:Hone; [done|].
    intros Hrest. destruct (IH v1 st1 Hrest) as (oks & Hlen & Htr & Hcount).
    assert (∃ ok, trace st1 = trace st ++ [(summoner_by_id (summonerId s) reg, ok)]
              ∧ length (in_order_players v1)
                = (length (in_order_players v) + (if ok then 1 else 0))%nat)
      as (ok & Htr1 & Hc1).
    { revert Hone. unfold load_player, bind, attempt, ask, subscript, print, ret.
      destruct (w_summoner W (trace st) (summonerId s) reg) as [e|info].
      - exists false. destruct e; try done.
        destruct (summoner_info v) as [info|]; [|done].
        destruct (info !! "summonerName"); [|done].
        revert Hone. case_decide; intros [= <- <-]; simpl; split; (done || lia).
      - exists true.
        destruct (info !! "puuid"); [|done]. destruct (info !! "accountId"); [|done].
        revert Hone. case_decide; intros [= <- <-]; simpl;
          (split; [done|]); rewrite length_app; simpl; lia. }
    exists (ok :: oks). split_and!.
    + simpl. by rewrite Hlen.
    + rewrite Htr, Htr1, <- app_assoc. done.
    + rewrite Hcount, Hc1. rewrite filter_cons. destruct ok; simpl; lia.
Qed.

Lemma zip_range {A} (l : list A) n :
  (zip l (seqZ 1 n)).*1 = take (Z.to_nat n) l.
Proof.
  rewrite <- (length_seqZ 1 n).
  rewrite <- (zip_with_take_l pair l (seqZ 1 n)).
  apply fst_zip. rewrite length_take. lia.
Qed.

(** The calls of a run of [load_players] that returns: the status probe, the
    three tier listings in the order challenger, grandmaster, master, then one
    profile lookup for each of the first [player_count] entries of the three
    listings joined in that order, then the clock, then the write if a path was
    given. The table has one row for every lookup that returned, hence at
    most [player_count] rows. *)
Theorem load_players_calls reg player_count save_path st df st' :
  load_players W reg player_count save_path st = (inr df, st') →
  ∃ chal gm ms oks saved,
    let queue := "RANKED_SOLO_5x5" in
    let h1 := trace st ++ [(platform_data reg, true)] in
    let h2 := h1 ++ [(challenger_by_queue reg queue, true)] in
    let h3 := h2 ++ [(grandmaster_by_queue reg queue, true)] in
    let h4 := h3 ++ [(masters_by_queue reg queue, true)] in
    let entries := take (Z.to_nat player_count) (chal ++ gm ++ ms) in
    w_challenger W h1 reg = inr chal
    ∧ w_grandmaster W h2 reg = inr gm
    ∧ w_masters W h3 reg = inr ms
    ∧ length oks = length entries
    ∧ trace st' = h4 ++ zip ((λ e, summoner_by_id (summonerId e) reg) <$> entries) oks
                     ++ (time_time, true) :: saved
    ∧ match save_path with
      | Some sp => ∃ ok, saved = [(to_csv (sp +:+ default "" (file_name df)), ok)]
      | None => saved = []
      end
    ∧ length (rows df) = length (filter (λ b, b = true) oks)
    ∧ Z.of_nat (length (rows df)) ≤ player_count.
Proof.
  intros Hrun.
  assert (∃ st1 saved, ranked_players W reg player_count st = (inr df, st1)
            ∧ trace st' = trace st1 ++ saved
            ∧ match save_path with
              | Some sp => ∃ ok, saved = [(to_csv (sp +:+ default "" (file_name df)), ok)]
              | None => saved = []
              end) as (sta & saved & Hranked & Hsaved & Hshape).
  { revert Hrun. unfold load_players, bind at 1.
    destruct (ranked_players W reg player_count st) as [[e|df0] st1]; [done|].
    destruct save_path as [sp|].
    - unfold bind, attempt, df_to_csv.
      destruct (w_to_csv W (trace st1) _); simpl; intros [= <- <-];
        eexists _, _; (split; [done|]); simpl; eauto.
    - intros [= <- <-]. exists st1, []. by rewrite app_nil_r. }
  clear Hrun. revert Hranked. unfold ranked_players.
  unfold bind at 1. unfold py_assert at 1.
  destruct (bool_decide (reg ∈ valid_regions)); [|done]. unfold ret at 1.
  unfold bind at 1. unfold py_assert at 1.
  destruct (bool_decide (0 < player_count)) eqn:Hpos; [|done]. unfold ret at 1.
  apply bool_decide_eq_true_1 in Hpos.
  unfold bind at 1. destruct (check_api_key W reg st) as [[e|[]] s3] eqn:Hkey; [done|].
  apply check_api_key_returns in Hkey as [_ ->].
  unfold bind at 1. destruct (ask _ _ _) as [[e|chal] s4] eqn:H4; [done|].
  apply ask_returns in H4 as [Hchal ->].
  unfold bind at 1. destruct (ask _ _ _) as [[e|gm] s5] eqn:H5; [done|].
  apply ask_returns in H5 as [Hgm ->].
  unfold bind at 1. destruct (ask _ _ _) as [[e|ms] s6] eqn:H6; [done|].
  apply ask_returns in H6 as [Hms ->].
  unfold bind at 1.
  destruct (load_player_loop W reg _ _ _) as [[e|v] s7] eqn:Hloop; [done|].
  apply load_player_loop_calls in Hloop as (oks & Hlen & Htr & Hcount).
  cbv zeta. unfold bind at 1.
  destruct (sort_values_desc _ _ s7) as [[e|df1] s8] eqn:Hsort; [done|].
  assert (s8 = s7) as ->.
  { revert Hsort. unfold sort_values_desc. case_decide; [|done].
    destruct (mapM _ _); [|done]. by intros [= _ ->]. }
  apply sort_values_desc_spec in Hsort as (keyed & _ & Hrows & Hsorted).
  unfold bind, now, ret. intros [= <- <-].
  rewrite length_zip in Hlen.
  assert (length (rows df1) = length (in_order_players v)) as Hrowlen.
  { rewrite Hsorted, length_fmap, (Permutation_length (sorted_desc_perm fst keyed)).
    rewrite <- (length_fmap snd keyed), Hrows. unfold frame, range_index. cbn [rows].
    rewrite length_imap, length_fmap.
    apply Permutation_length, sorted_desc_perm. }
  exists chal, gm, ms, oks, saved. cbv zeta.
  assert (length (take (Z.to_nat player_count) (chal ++ gm ++ ms))
          = length (zip (chal ++ gm ++ ms) (seqZ 1 player_count))) as Hzl.
  { by rewrite <- (zip_range (chal ++ gm ++ ms) player_count), length_fmap. }
  split_and!; [done|done|done| | |done| |].
  - rewrite Hzl, length_zip. done.
  - rewrite Hsaved. cbn [trace log]. rewrite Htr. cbn [trace log].
    rewrite <- (zip_range (chal ++ gm ++ ms) player_count), <- list_fmap_compose.
    rewrite <- !app_assoc. done.
  - cbn [rows with_file_name]. by rewrite Hrowlen, Hcount.
  - cbn [rows with_file_name]. rewrite Hrowlen, Hcount. simpl.
    pose proof (length_filter (λ b : bool, b = true) oks) as Hle.
    rewrite length_seqZ in Hlen. lia.
Qed.
End LoaderCalls.

(** A ladder of three and a player count of two: the third entry is never
    looked up. *)
Lemma two_of_three_looked_up :
  let W := make_world (λ _, 1000%Q) [an_entry "a" 50; an_entry "b" 200; an_entry "c" 100]
             (λ id, inr (a_profile id)) (λ _, inr []) (λ _, inr []) None in
  ∃ df st',
    load_players W "na1" 2 None st0 = (inr df, st')
    ∧ trace st' = [(platform_data "na1", true);
                   (challenger_by_queue "na1" "RANKED_SOLO_5x5", true);
                   (grandmaster_by_queue "na1" "RANKED_SOLO_5x5", true);
                   (masters_by_queue "na1" "RANKED_SOLO_5x5", true);
                   (summoner_by_id "a" "na1", true);
                   (summoner_by_id "b" "na1", true);
                   (time_time, true)]
    ∧ Z.of_nat (length (rows df)) ≤ 2.
Proof.
  intros W.
  assert (match load_players W "na1" 2 None st0 with
          | (inr _, st') =>
              trace st' = [(platform_data "na1", true);
                           (challenger_by_queue "na1" "RANKED_SOLO_5x5", true);
                           (grandmaster_by_queue "na1" "RANKED_SOLO_5x5", true);
                           (masters_by_queue "na1" "RANKED_SOLO_5x5", true);
                           (summoner_by_id "a" "na1", true);
                           (summoner_by_id "b" "na1", true);
                           (time_time, true)]
          | _ => False
          end) as Hok by (vm_compute; reflexivity).
  destruct (load_players W "na1" 2 None st0) as [[e|df] st'] eqn:Hrun; [destruct Hok|].
  destruct (load_players_calls W "na1" 2 None st0 df st' Hrun)
    as (chal & gm & ms & oks & saved & _ & _ & _ & _ & _ & _ & _ & Hle).
  exists df, st'. split; [reflexivity|]. split; [exact Hok|exact Hle].
Defined.
(** ** The records of the crawl *)

(** For a match of at most ten participants no field of the flat record
    overwrites another: the record lists the five fields of each participant
    under the names of its slot, participant by participant. *)
Theorem serialise_flat ps :
  (length ps ≤ 10)%nat → serialise ps 0 [] = flat_record 0 ps.
Proof.
  intros Hlen.
  do 11 (destruct ps as [|? ps]; [vm_compute; reflexivity|]).
  simpl in Hlen. lia.
Qed.

Lemma serialise_ten_keys ps :
  length ps = 10%nat → "match_id" :: dict_keys (serialise ps 0 []) = tail raw_columns.
Proof.
  intros Hlen.
  do 10 (destruct ps as [|? ps]; [done|]).
  destruct ps; [|done]. vm_compute. reflexivity.
Qed.

Section DropDups.
Context {A : Type} `{EqDecision A}.
Implicit Types (l k : list A).

Lemma filter_all (P : A → Prop) `{!∀ x, Decision (P x)} l :
  (∀ x, x ∈ l → P x) → filter P l = l.
Proof.
  induction l as [|x l IH]; intros Hall; [done|].
  rewrite filter_cons_True by (apply Hall; left).
  f_equal. apply IH. intros y Hy. apply Hall. by right.
Qed.

Lemma filter_none (P : A → Prop) `{!∀ x, Decision (P x)} l :
  (∀ x, x ∈ l → ¬ P x) → filter P l = [].
Proof.
  induction l as [|x l IH]; intros Hall; [done|].
  rewrite filter_cons_False by (apply Hall; left).
  apply IH. intros y Hy. apply Hall. by right.
Qed.

Lemma drop_dups_subseteq l x : x ∈ drop_dups l → x ∈ l.
Proof.
  induction l as [|y l IH]; simpl; [done|].
  rewrite !elem_of_cons, list_elem_of_filter. intros [->|[_ ?]]; [by left|right; auto].
Qed.

Lemma drop_dups_app l k :
  drop_dups (l ++ k) = drop_dups l ++ filter (λ y, y ∉ l) (drop_dups k).
Proof.
  induction l as [|x l IH]; simpl.
  - symmetry. apply filter_all. intros y _. apply not_elem_of_nil.
  - rewrite IH, filter_app. f_equal. f_equal.
    rewrite list_filter_filter. apply list_filter_iff.
    intros y. rewrite not_elem_of_cons. tauto.
Qed.

Lemma drop_dups_NoDup l : NoDup l → drop_dups l = l.
Proof.
  induction 1 as [|x l Hx _ IH]; simpl; [done|]. rewrite IH. f_equal.
  apply filter_all. intros y Hy ->. done.
Qed.

(** Copies of a duplicate-free list, one after the other, collapse to it. *)
Lemma drop_dups_copies {B} (f : B → list A) k (l : list B) :
  NoDup k → l ≠ [] → Forall (λ x, f x = k) l → drop_dups (l ≫= f) = k.
Proof.
  intros Hk Hne Hall. destruct l as [|x l]; [done|].
  apply Forall_cons in Hall as [Hx Hall]. csimpl.
  rewrite drop_dups_app, Hx, (drop_dups_NoDup k Hk).
  assert (filter (λ y, y ∉ k) (drop_dups (l ≫= f)) = []) as ->; [|by rewrite app_nil_r].
  apply filter_none. intros y Hy%drop_dups_subseteq Hn.
  apply Hn. apply list_elem_of_bind in Hy as (z & Hyz & Hz).
  rewrite Forall_forall in Hall. by rewrite <- (Hall z Hz).
Qed.
End DropDups.

Section Records.
Context {V : Type} (P : string * V → Prop).
Implicit Types (d : dict V).

Lemma dict_set_Forall k v d : P (k, v) → Forall P d → Forall P (dict_set k v d).
Proof.
  intros Hkv. induction 1 as [|[k0 v0] d H0 Hd IH]; simpl.
  - by repeat constructor.
  - case_decide; constructor; done.
Qed.

Lemma dict_or_Forall d1 d2 : Forall P d1 → Forall P d2 → Forall P (dict_or d1 d2).
Proof.
  unfold dict_or. intros H1 H2. revert d1 H1.
  induction H2 as [|[k v] d2 Hkv _ IH]; intros d1 H1; simpl; [done|].
  apply IH. by apply dict_set_Forall.
Qed.
End Records.

Section CrawlRecords.
Context (W : World) (reg : string) (P : string * dict cell → Prop).
Context (HP : ∀ h m ps, w_match W h reg m = inr ps → P (m, serialise ps 0 [])).

Lemma fetch_matches_records ml pmd s st pmd' s' b st' :
  Forall P pmd →
  fetch_matches W reg ml pmd s st = (inr (pmd', s', b), st') → Forall P pmd'.
Proof.
  revert pmd s st. induction ml as [|m ml IH]; intros pmd s st Hpmd; simpl.
  - by intros [= <- _ _ _].
  - case_decide; [|by apply IH].
    unfold bind, attempt, ask.
    destruct (w_match W (trace st) reg m) as [e|ps] eqn:Hm; simpl.
    + destruct e; try done. unfold print, ret. by intros [= <- _ _ _].
    + apply IH. apply dict_set_Forall; [by eapply HP|done].
Qed.

Lemma crawl_player_records date ct tl size puuid v st v' b st' :
  Forall P (match_data v) →
  crawl_player W reg date ct tl size puuid v st = (inr (v', b), st') →
  Forall P (match_data v').
Proof.
  intros Hv. unfold crawl_player, load_matches_from_player.
  unfold bind at 1 2, attempt, ask.
  destruct (w_matchlist W (trace st) puuid reg date ct) as [e|ml]; simpl.
  { destruct e; done. }
  unfold bind at 1.
  destruct (fetch_matches W reg ml [] (searched_matches v) _)
    as [[e|[[pmd s'] b']] st1] eqn:Hf; [done|].
  apply fetch_matches_records in Hf; [|constructor].
  unfold ret at 1. cbn [fst].
  assert (Forall P (dict_or (match_data v) pmd)) as Hor by (by apply dict_or_Forall).
  unfold bind, print, now, ret.
  repeat (case_decide || case_match); simplify_eq/=; intros; by simplify_eq/=.
Qed.

Lemma crawl_players_records date ct tl size ps v st v' b st' :
  Forall P (match_data v) →
  crawl_players W reg date ct tl size ps v st = (inr (v', b), st') →
  Forall P (match_data v').
Proof.
  revert v st. induction ps as [|p ps IH]; intros v st Hv; simpl.
  - by intros [= <- _ _].
  - unfold bind.
    destruct (crawl_player W reg date ct tl size p v st) as [[e|[v1 b1]] st1] eqn:Hp;
      [done|].
    apply crawl_player_records in Hp; [|done]. cbn [fst snd].
    destruct b1; [by intros [= <- _ _]|]. by apply IH.
Qed.

Lemma load_matches_records date players load_path save_path time_limit st df st' :
  load_matches W reg date players load_path save_path time_limit st = (inr df, st') →
  ∃ md ct st2,
    Forall P md
    ∧ load_matches_finish W reg date ct save_path md st2 = (inr df, st').
Proof.
  unfold load_matches. unfold bind at 1.
  destruct (load_matches_setup W reg date players load_path time_limit st)
    as [[e|[[tl ps] ct]] st1]; [done|].
  unfold bind at 1.
  destruct (crawl_players W reg date ct tl (len ps) ps crawl_start st1)
    as [[e|[v b]] st2] eqn:Hc; [done|].
  apply crawl_players_records in Hc; [|constructor].
  intros Hfin. by exists (match_data v), ct, st2.
Qed.
End CrawlRecords.

Section Written.
Context (W : World).

Lemma load_matches_finish_table reg date ct save_path md st df st' :
  load_matches_finish W reg date ct save_path md st = (inr df, st') →
  columns df = columns (match_frame md) ∧ rows df = rows (match_frame md)
  ∧ ∀ sp, save_path = Some sp →
      last (trace st') = Some (to_csv (sp +:+ default "" (file_name df)), true) →
      fs st' !! (sp +:+ default "" (file_name df)) = Some (retyped W (stored true df)).
Proof.
  unfold load_matches_finish. destruct save_path as [sp|].
  - unfold bind, attempt, df_to_csv.
    destruct (w_to_csv W (trace st) _) as [e|] eqn:Hw; simpl; intros [= <- <-].
    + split_and!; [done..|]. intros sp' [= <-]. simpl. by rewrite last_snoc.
    + split_and!; [done..|]. intros sp' [= <-] _. simpl.
      by rewrite lookup_insert_eq.
  - intros [= <- <-]. by split_and!.
Qed.

(** Every row of the table [load_matches] returns is the record of a match
    as the match-detail call answered it, under the id of that match: nothing
    in the table is made up, and no record is filed under another id. *)
Theorem table_holds_what_was_answered reg date players load_path save_path time_limit
    st df st' :
  load_matches W reg date players load_path save_path time_limit st = (inr df, st') →
  ∀ ir, ir ∈ rows df → ∃ h m ps, w_match W h reg m = inr ps ∧ ir = match_row m ps.
Proof.
  intros Hrun.
  destruct (load_matches_records W reg
              (λ kv, ∃ h ps, w_match W h reg kv.1 = inr ps ∧ kv.2 = serialise ps 0 [])
              (λ h m ps Hm, ex_intro _ h (ex_intro _ ps (conj Hm eq_refl)))
              date players load_path save_path time_limit st df st' Hrun)
    as (md & ct & st2 & Hmd & Hfin).
  apply load_matches_finish_table in Hfin as (_ & Hrows & _).
  intros ir. rewrite Hrows. unfold match_frame, frame. cbn [rows].
  intros ([m rec] & -> & Hin)%list_elem_of_fmap.
  rewrite Forall_forall in Hmd. destruct (Hmd _ Hin) as (h & ps & Hm & Hrec).
  simpl in *. subst rec. by exists h, m, ps.
Qed.

(** When every match has ten participants and at least one match was
    fetched, the table has the column [match_id] followed by the five columns
    of each of the ten slots, and the file written, when the write succeeds,
    has the columns the directory builder reads. *)
Theorem ten_participants_raw_columns reg date players load_path save_path time_limit
    st df st' :
  (∀ h m ps, w_match W h reg m = inr ps → length ps = 10%nat) →
  load_matches W reg date players load_path save_path time_limit st = (inr df, st') →
  rows df ≠ [] →
  columns df = tail raw_columns
  ∧ ∀ sp, save_path = Some sp →
      let path := sp +:+ default "" (file_name df) in
      last (trace st') = Some (to_csv path, true) →
      ∃ file, fs st' !! path = Some file
              ∧ columns file = raw_columns
              ∧ (rows file).*1 = (rows df).*1.
Proof.
  intros Hten Hrun Hne.
  destruct (load_matches_records W reg
              (λ kv, dict_keys kv.2 = tail (tail raw_columns))
              (λ h m ps Hm, f_equal tail (serialise_ten_keys ps (Hten h m ps Hm)))
              date players load_path save_path time_limit st df st' Hrun)
    as (md & ct & st2 & Hmd & Hfin).
  apply load_matches_finish_table in Hfin as (Hcols & Hrows & Hfile).
  assert (columns df = tail raw_columns) as Hc.
  { rewrite Hcols. unfold match_frame, frame. cbn [columns].
    rewrite (drop_dups_copies dict_keys (tail (tail raw_columns))); [done| | |].
    - compute_done.
    - intros Hnil. apply Hne. rewrite Hrows. unfold match_frame, frame. cbn [rows].
      apply fmap_nil_inv in Hnil. by rewrite Hnil.
    - by apply Forall_fmap. }
  split; [done|]. intros sp Hsp path Hlast.
  exists (retyped W (stored true df)). split; [by apply Hfile|].
  split.
  - unfold retyped, stored, frame. cbn [columns]. by rewrite Hc.
  - rewrite retyped_labels. unfold stored, frame. cbn [rows].
    by rewrite <- list_fmap_compose.
Qed.
End Written.
(** Two participants: slots 1 and 2. *)
Lemma two_participants_flat :
  (length [a_participant "x"; a_participant "y"] ≤ 10)%nat
  ∧ serialise [a_participant "x"; a_participant "y"] 0 []
    = slot_fields 1 (a_participant "x") ++ slot_fields 2 (a_participant "y").
Proof.
  assert (length [a_participant "x"; a_participant "y"] ≤ 10)%nat as Hlen by (simpl; lia).
  split; [exact Hlen|].
  exact (serialise_flat [a_participant "x"; a_participant "y"] Hlen).
Defined.

(** The rows of the table of players A and B are answers of the world. *)
Lemma shared_match_rows_answered :
  ∃ df st',
    load_matches shared_match_world "na1" 5 (Some (puuid_frame ["A"; "B"])) None None
        (Some 1%Q) st0 = (inr df, st')
    ∧ ∀ ir, ir ∈ rows df →
        ∃ h m ps, w_match shared_match_world h "na1" m = inr ps ∧ ir = match_row m ps.
Proof.
  assert (match (load_matches shared_match_world "na1" 5 (Some (puuid_frame ["A"; "B"]))
                   None None (Some 1%Q) st0).1 with
          | inr _ => True | inl _ => False end) as Hok by (vm_compute; exact I).
  destruct (load_matches shared_match_world "na1" 5 (Some (puuid_frame ["A"; "B"]))
              None None (Some 1%Q) st0) as [[e|df] st'] eqn:Hrun; [destruct Hok|].
  exists df, st'. split; [reflexivity|].
  exact (table_holds_what_was_answered shared_match_world "na1" 5
           (Some (puuid_frame ["A"; "B"])) None None (Some 1%Q) st0 df st' Hrun).
Defined.

(** One match of ten participants, saved: the file has the raw columns. *)
Lemma full_match_file_columns :
  ∃ df st',
    load_matches full_match_world "na1" 5 (Some (puuid_frame ["A"])) None (Some "data/")
        (Some 1%Q) st0 = (inr df, st')
    ∧ columns df = tail raw_columns
    ∧ ∃ file, fs st' !! ("data/" +:+ default "" (file_name df)) = Some file
              ∧ columns file = raw_columns.
Proof.
  assert (∀ (h : history) (m : string) ps,
            w_match full_match_world h "na1" m = inr ps → length ps = 10%nat) as Hten.
  { intros h m ps [= <-]. reflexivity. }
  assert (match load_matches full_match_world "na1" 5 (Some (puuid_frame ["A"])) None
                  (Some "data/") (Some 1%Q) st0 with
          | (inr df, st') =>
              match rows df with
              | [] => False
              | _ => last (trace st')
                     = Some (to_csv ("data/" +:+ default "" (file_name df)), true)
              end
          | _ => False
          end) as Hok by (vm_compute; reflexivity).
  destruct (load_matches full_match_world "na1" 5 (Some (puuid_frame ["A"])) None
              (Some "data/") (Some 1%Q) st0) as [[e|df] st'] eqn:Hrun; [destruct Hok|].
  assert (rows df ≠ []) as Hne by (intros Hnil; rewrite Hnil in Hok; exact Hok).
  assert (last (trace st')
          = Some (to_csv ("data/" +:+ default "" (file_name df)), true)) as Hlast
    by (destruct (rows df); [destruct Hok|exact Hok]).
  destruct (ten_participants_raw_columns full_match_world "na1" 5
              (Some (puuid_frame ["A"])) None (Some "data/") (Some 1%Q) st0 df st'
              Hten Hrun Hne) as [Hcols Hfile].
  destruct (Hfile "data/" eq_refl Hlast) as (file & Hfs & Hfc & _).
  exists df, st'. split; [reflexivity|]. split; [exact Hcols|].
  exists file. split; [exact Hfs|exact Hfc].
Defined.
(** ** Inputs the table builder refuses *)

Section Refused.
Context (W : World).

(** [process_match_data] checks its arguments in this order: a noise rate
    outside [0, 1] raises [AssertionError] before anything is read; then a
    missing match file, then a missing player file raises
    [FileNotFoundError] after [Invalid load paths] has been printed. In all
    three cases no remote call is made and nothing is written. *)
Theorem process_match_data_checks match_load_path player_load_path save_path
    noise_rate st :
  (¬ (0 <= noise_rate <= 1)%Q →
     process_match_data W match_load_path player_load_path save_path noise_rate st
       = (inl (AssertionError "Invalid noise_rate (must be in-between 0 and 1)."), st))
  ∧ ((0 <= noise_rate <= 1)%Q → fs st !! match_load_path = None →
     process_match_data W match_load_path player_load_path save_path noise_rate st
       = (inl (FileNotFoundError match_load_path),
          printed [[Txt "Invalid load paths"]] (log (read_csv match_load_path) false st)))
  ∧ ((0 <= noise_rate <= 1)%Q → is_Some (fs st !! match_load_path) →
     fs st !! player_load_path = None →
     process_match_data W match_load_path player_load_path save_path noise_rate st
       = (inl (FileNotFoundError player_load_path),
          printed [[Txt "Invalid load paths"]]
            (log (read_csv player_load_path) false
               (log (read_csv match_load_path) true st)))).
Proof.
  assert (∀ q, (0 <= q <= 1)%Q ↔ Qle_bool 0 q && Qle_bool q 1 = true) as Hrate.
  { intros q. rewrite andb_true_iff, !Qle_bool_iff. tauto. }
  split_and!.
  - intros Hnr. unfold process_match_data, processed_matches, bind at 1 2, py_assert.
    destruct (Qle_bool 0 noise_rate && Qle_bool noise_rate 1) eqn:Hb; [|done].
    by apply Hrate in Hb.
  - intros Hnr%Hrate Hmiss.
    unfold process_match_data, processed_matches, bind at 1 2, py_assert.
    rewrite Hnr. unfold ret at 1.
    unfold bind at 1, attempt, bind at 1, pd_read_csv. rewrite Hmiss. done.
  - intros Hnr%Hrate [raw Hraw] Hmiss.
    unfold process_match_data, processed_matches, bind at 1 2, py_assert.
    rewrite Hnr. unfold ret at 1.
    unfold bind at 1, attempt, bind at 1, pd_read_csv. rewrite Hraw.
    unfold bind at 1. cbn [fs log]. rewrite Hmiss. done.
Qed.

Lemma slot_players_missing load_path md n p s st :
  ¬ Forall (λ c, c ∈ columns md) [n; p; s] →
  ∃ c, c ∈ [n; p; s] ∧ (c ∉ columns md)
    ∧ slot_players load_path md n p s st
      = (inl (KeyError c),
         printed [[Txt "File at "; Txt load_path; Txt " has invalid format"]] st).
Proof.
  intros Hmiss. unfold slot_players, bind, attempt, loc_columns.
  destruct (filter (λ c, c ∉ columns md) [n; p; s]) as [|c l] eqn:Hf.
  - exfalso. apply Hmiss. rewrite Forall_forall. intros c Hc.
    destruct (decide (c ∈ columns md)) as [|Hn]; [done|].
    assert (c ∈ filter (λ c, c ∉ columns md) [n; p; s]) as Hin
      by (by apply list_elem_of_filter).
    rewrite Hf in Hin. by apply elem_of_nil in Hin.
  - assert (c ∈ filter (λ c, c ∉ columns md) [n; p; s]) as [Hn Hc]%list_elem_of_filter
      by (rewrite Hf; left).
    by exists c.
Qed.

Lemma identity_triples_distinct :
  Forall (λ i, NoDup (identity_triple i ++ key3)) slots.
Proof. compute_done. Qed.

Lemma combine_players_missing load_path md todo comb st :
  Forall (λ i, i ∈ slots) todo →
  ¬ Forall (λ c, c ∈ columns md) (todo ≫= identity_triple) →
  ∃ c, c ∈ (todo ≫= identity_triple) ∧ (c ∉ columns md)
    ∧ combine_players load_path md todo comb st
      = (inl (KeyError c),
         printed [[Txt "File at "; Txt load_path; Txt " has invalid format"]] st).
Proof.
  revert comb. induction todo as [|i todo IH]; intros comb Hslots Hmiss.
  - exfalso. apply Hmiss. constructor.
  - apply Forall_cons in Hslots as [Hi Hslots]. cbn [combine_players].
    destruct (decide (Forall (λ c, c ∈ columns md) (identity_triple i))) as [Hall|Hnot].
    + assert (triple_ok (columns md) (slot_col i "_name") (slot_col i "_puuid")
                (slot_col i "_summonerId")) as Hok.
      { split; [done|].
        pose proof identity_triples_distinct as Hd. rewrite Forall_forall in Hd.
        by apply Hd. }
      destruct (slot_players_ok load_path md _ _ _ st Hok) as (sp & Hsp & _).
      rewrite (bind_run _ _ _ _ _ Hsp).
      destruct (IH (drop_duplicates (concat comb sp)) Hslots) as (c & Hc & Hn & Hrun).
      { intros Hrest. apply Hmiss.
        change ((i :: todo) ≫= identity_triple)
          with (identity_triple i ++ (todo ≫= identity_triple)).
        by apply Forall_app_2. }
      exists c. split_and!; [|done..].
      change ((i :: todo) ≫= identity_triple)
        with (identity_triple i ++ (todo ≫= identity_triple)).
      apply elem_of_app. by right.
    + destruct (slot_players_missing load_path md _ _ _ st Hnot) as (c & Hc & Hn & Hrun).
      rewrite (bind_run _ _ _ _ _ Hrun).
      exists c. split_and!; [|done..].
      change ((i :: todo) ≫= identity_triple)
        with (identity_triple i ++ (todo ≫= identity_triple)).
      apply elem_of_app. by left.
Qed.

(** A raw file that lacks one of the thirty identity columns is refused:
    [process_player_data_from_matches] prints [File at ... has invalid
    format] once and raises [KeyError] for a column that is missing. This is
    so whatever [save_path] and [include_key] are; nothing is written. *)
Theorem missing_identity_column load_path save_path include_key raw st :
  fs st !! load_path = Some raw →
  ¬ Forall (λ c, c ∈ columns raw) identity_columns →
  ∃ c, c ∈ identity_columns ∧ (c ∉ columns raw)
    ∧ process_player_data_from_matches W load_path save_path include_key st
      = (inl (KeyError c),
         printed [[Txt "File at "; Txt load_path; Txt " has invalid format"]]
           (log (read_csv load_path) true st)).
Proof.
  intros Hfs Hmiss.
  enough (∃ c, c ∈ identity_columns ∧ (c ∉ columns raw)
            ∧ player_directory load_path include_key st
              = (inl (KeyError c),
                 printed [[Txt "File at "; Txt load_path; Txt " has invalid format"]]
                   (log (read_csv load_path) true st))) as (c & Hc & Hn & Hdir).
  { exists c. split_and!; [done..|].
    unfold process_player_data_from_matches. by rewrite (bind_run _ _ _ _ _ Hdir). }
  unfold player_directory.
  rewrite (bind_run _ _ _ _ _ (pd_read_csv_ok _ _ _ Hfs)).
  set (md := reset_index raw). set (st1 := log _ _ _).
  change (columns raw) with (columns md) in Hmiss |- *.
  destruct (decide (Forall (λ c, c ∈ columns md) (identity_triple 1))) as [Hall|Hnot].
  - assert (triple_ok (columns md) "p1_name" "p1_puuid" "p1_summonerId") as Hok.
    { split; [done|compute_done]. }
    destruct (slot_players_ok load_path md _ _ _ st1 Hok) as (sp & Hsp & _).
    rewrite (bind_run _ _ _ _ _ Hsp).
    destruct (combine_players_missing load_path md (seqZ 2 9) sp st1)
      as (c & Hc & Hn & Hrun).
    { compute_done. }
    { intros Hrest. apply Hmiss.
      change identity_columns with (identity_triple 1 ++ (seqZ 2 9 ≫= identity_triple)).
      by apply Forall_app_2. }
    rewrite (bind_run _ _ _ _ _ Hrun).
    exists c. split_and!; [|done..].
    change identity_columns with (identity_triple 1 ++ (seqZ 2 9 ≫= identity_triple)).
    apply elem_of_app. by right.
  - destruct (slot_players_missing load_path md _ _ _ st1 Hnot) as (c & Hc & Hn & Hrun).
    change (slot_col 1 "_name") with "p1_name" in Hrun.
    change (slot_col 1 "_puuid") with "p1_puuid" in Hrun.
    change (slot_col 1 "_summonerId") with "p1_summonerId" in Hrun.
    rewrite (bind_run _ _ _ _ _ Hrun).
    exists c. split_and!; [|done..].
    change identity_columns with (identity_triple 1 ++ (seqZ 2 9 ≫= identity_triple)).
    apply elem_of_app. by left.
Qed.
End Refused.

(** A noise rate of 2, a match file that does not exist, a player file that
    does not exist. *)
Lemma three_refusals :
  process_match_data shared_match_world raw_path "out/players.csv" None 2 two_matches
    = (inl (AssertionError "Invalid noise_rate (must be in-between 0 and 1)."),
       two_matches)
  ∧ process_match_data shared_match_world "nowhere.csv" "out/players.csv" None 0
      two_matches
    = (inl (FileNotFoundError "nowhere.csv"),
       printed [[Txt "Invalid load paths"]] (log (read_csv "nowhere.csv") false two_matches))
  ∧ process_match_data shared_match_world raw_path "out/players.csv" None 0 two_matches
    = (inl (FileNotFoundError "out/players.csv"),
       printed [[Txt "Invalid load paths"]]
         (log (read_csv "out/players.csv") false (log (read_csv raw_path) true two_matches))).
Proof.
  assert (0 <= 0 <= 1)%Q as Hzero by (split; unfold Qle; simpl; lia).
  assert (¬ (0 <= 2 <= 1)%Q) as Htwo by (intros [_ H]; unfold Qle in H; simpl in H; lia).
  assert (fs two_matches !! raw_path
          = Some (raw_file [("M1", ten "a"); ("M2", ten "<U>")])) as Hraw
    by apply lookup_singleton_eq.
  split_and!.
  - exact (proj1 (process_match_data_checks shared_match_world raw_path "out/players.csv"
                    None 2 two_matches) Htwo).
  - exact (proj1 (proj2 (process_match_data_checks shared_match_world "nowhere.csv"
                           "out/players.csv" None 0 two_matches)) Hzero eq_refl).
  - exact (proj2 (proj2 (process_match_data_checks shared_match_world raw_path
                           "out/players.csv" None 0 two_matches))
             Hzero (ex_intro _ _ Hraw) eq_refl).
Defined.

(** The file of a crawl that fetched no match has no slot columns: the
    directory builder refuses it. *)
Lemma empty_crawl_file_refused :
  columns (raw_file []) = ["Unnamed: 0"; "match_id"]
  ∧ ∃ c, process_player_data_from_matches shared_match_world raw_path (Some "out/") true
           (st_raw [])
         = (inl (KeyError c),
            printed [[Txt "File at "; Txt raw_path; Txt " has invalid format"]]
              (log (read_csv raw_path) true (st_raw []))).
Proof.
  split; [reflexivity|].
  destruct (missing_identity_column shared_match_world raw_path (Some "out/") true
              (raw_file []) (st_raw [])) as (c & _ & _ & Hrun).
  - apply lookup_singleton_eq.
  - compute_done.
  - exists c. exact Hrun.
Defined.
(** ** The rows of the directory *)

Section Distinct.
Implicit Types (cols : list string) (r : row) (rs : list row).

Lemma same_row_refl cols r : same_row cols r r.
Proof. unfold same_row. by apply Forall_forall. Qed.

Lemma same_row_sym cols r1 r2 : same_row cols r1 r2 → same_row cols r2 r1.
Proof. unfold same_row. rewrite !Forall_forall. intros H c Hc. symmetry. by apply H. Qed.

Lemma same_row_trans cols r1 r2 r3 :
  same_row cols r1 r2 → same_row cols r2 r3 → same_row cols r1 r3.
Proof.
  unfold same_row. rewrite !Forall_forall. intros H1 H2 c Hc.
  by rewrite H1, H2.
Qed.

Lemma drop_duplicate_rows_subseteq cols rs r :
  r ∈ drop_duplicate_rows cols rs → r ∈ rs.
Proof.
  induction rs as [|r0 rs IH]; simpl; [done|].
  rewrite !elem_of_cons, list_elem_of_filter. intros [->|[_ ?]]; [by left|right; auto].
Qed.

Lemma distinct_rows_filter cols (P : row → Prop) `{!∀ r, Decision (P r)} rs :
  distinct_rows cols rs → distinct_rows cols (filter P rs).
Proof.
  induction rs as [|r rs IH]; simpl; [done|]. intros [Hr Hrs].
  destruct (decide (P r)).
  - rewrite filter_cons_True by done. simpl. split; [|by apply IH].
    rewrite Forall_forall in *. intros r' [_ Hr']%list_elem_of_filter. by apply Hr.
  - rewrite filter_cons_False by done. by apply IH.
Qed.

Lemma drop_duplicate_rows_distinct cols rs :
  distinct_rows cols (drop_duplicate_rows cols rs).
Proof.
  induction rs as [|r rs IH]; simpl; [done|]. split.
  - rewrite Forall_forall. by intros r' [? _]%list_elem_of_filter.
  - by apply distinct_rows_filter.
Qed.
End Distinct.

Section Triples.

Ltac names_differ H :=
  unfold key3 in H; simpl in H;
  repeat (apply NoDup_cons in H as [? H]);
  rewrite ?not_elem_of_cons in *;
  intuition (try congruence).

Lemma slot_triple_puuid n p s r :
  NoDup ([n; p; s] ++ key3) → row_get "puuid" (slot_triple n p s r) = row_get p r.
Proof.
  intros Hnd. unfold slot_triple.
  assert (n ≠ "puuid" ∧ s ≠ "puuid" ∧ p ≠ n ∧ p ≠ "name" ∧ n ≠ "name"
          ∧ "puuid" ∉ [n; p; s]) as (?&?&?&?&?&?) by names_differ Hnd.
  rewrite row_get_rename_ne by done.
  rewrite row_get_rename_new.
  - rewrite row_get_rename_ne by done. apply row_get_filter. intros ?. simpl. right. left.
  - rewrite lookup_rename_ne by done. apply lookup_filter_out. by intros ?.
Qed.

Lemma slot_triple_summonerId n p s r :
  NoDup ([n; p; s] ++ key3) → row_get "summonerId" (slot_triple n p s r) = row_get s r.
Proof.
  intros Hnd. unfold slot_triple.
  assert (n ≠ "summonerId" ∧ p ≠ "summonerId" ∧ s ≠ n ∧ s ≠ p ∧ s ≠ "name"
          ∧ s ≠ "puuid" ∧ "summonerId" ∉ [n; p; s]) as (?&?&?&?&?&?&?)
    by names_differ Hnd.
  rewrite row_get_rename_new.
  - rewrite !row_get_rename_ne by done. apply row_get_filter. intros ?. simpl.
    right. right. left.
  - rewrite !lookup_rename_ne by done. apply lookup_filter_out. by intros ?.
Qed.

Lemma is_triple_slot i r :
  i ∈ slots →
  is_triple (slot_triple (slot_col i "_name") (slot_col i "_puuid")
               (slot_col i "_summonerId") r) i r.
Proof.
  intros Hi.
  assert (NoDup ([slot_col i "_name"; slot_col i "_puuid"; slot_col i "_summonerId"]
                   ++ key3)) as Hnd.
  { pose proof identity_triples_distinct as Hd. rewrite Forall_forall in Hd.
    by apply Hd. }
  split_and!; [by apply slot_triple_name|by apply slot_triple_puuid
              |by apply slot_triple_summonerId].
Qed.

Lemma is_triple_same d d' i r :
  same_row key3 d' d → is_triple d i r → is_triple d' i r.
Proof.
  unfold same_row, key3. rewrite !Forall_cons.
  intros (Hn & Hp & Hs & _) (Hn' & Hp' & Hs'). split_and!; congruence.
Qed.
End Triples.

Section Merge.
Context (raw_rows : list row).

Lemma merge_slot_distinct acc i : distinct_rows key3 (merge_slot raw_rows acc i).
Proof. apply drop_duplicate_rows_distinct. Qed.

Lemma merge_slots_distinct acc todo :
  todo ≠ [] → distinct_rows key3 (foldl (merge_slot raw_rows) acc todo).
Proof.
  destruct todo as [|i todo _] using rev_ind; [done|]. intros _.
  rewrite foldl_app. apply merge_slot_distinct.
Qed.

Lemma merge_slots_sound acc todo d :
  Forall (λ i, i ∈ slots) todo →
  (∀ d, d ∈ acc → ∃ i r, i ∈ slots ∧ r ∈ raw_rows ∧ is_triple d i r) →
  d ∈ foldl (merge_slot raw_rows) acc todo →
  ∃ i r, i ∈ slots ∧ r ∈ raw_rows ∧ is_triple d i r.
Proof.
  revert acc. induction todo as [|i todo IH]; intros acc Hslots Hacc; simpl; [by apply Hacc|].
  apply Forall_cons in Hslots as [Hi Hslots].
  apply IH; [done|]. intros d' Hd'%drop_duplicate_rows_subseteq.
  apply elem_of_app in Hd' as [?|(r & -> & Hr)%list_elem_of_fmap]; [by apply Hacc|].
  exists i, r. split_and!; [done..|]. by apply is_triple_slot.
Qed.

Lemma merge_slots_keeps acc todo d :
  d ∈ acc → ∃ d', d' ∈ foldl (merge_slot raw_rows) acc todo ∧ same_row key3 d' d.
Proof.
  revert acc d. induction todo as [|i todo IH]; intros acc d Hd; simpl.
  - exists d. split; [done|apply same_row_refl].
  - destruct (drop_duplicate_rows_keeps key3
                (acc ++ (slot_triple (slot_col i "_name") (slot_col i "_puuid")
                           (slot_col i "_summonerId") <$> raw_rows)) d)
      as (d1 & Hd1 & Hsame1); [apply elem_of_app; by left|].
    destruct (IH _ d1 Hd1) as (d2 & Hd2 & Hsame2).
    exists d2. split; [done|]. by eapply same_row_trans.
Qed.

Lemma merge_slots_complete acc todo i r :
  i ∈ todo → r ∈ raw_rows →
  ∃ d, d ∈ foldl (merge_slot raw_rows) acc todo
       ∧ same_row key3 d (slot_triple (slot_col i "_name") (slot_col i "_puuid")
                            (slot_col i "_summonerId") r).
Proof.
  revert acc. induction todo as [|j todo IH]; intros acc Hi Hr; simpl.
  - by apply elem_of_nil in Hi.
  - apply elem_of_cons in Hi as [->|Hi]; [|by apply IH].
    destruct (drop_duplicate_rows_keeps key3
                (acc ++ (slot_triple (slot_col j "_name") (slot_col j "_puuid")
                           (slot_col j "_summonerId") <$> raw_rows))
                (slot_triple (slot_col j "_name") (slot_col j "_puuid")
                   (slot_col j "_summonerId") r))
      as (d1 & Hd1 & Hsame1).
    { apply elem_of_app. right. by apply list_elem_of_fmap_2. }
    destruct (merge_slots_keeps _ todo d1 Hd1) as (d2 & Hd2 & Hsame2).
    exists d2. split; [done|]. by eapply same_row_trans.
Qed.
End Merge.

Section DirectoryRows.
Context (W : World).

Lemma combine_players_rows load_path md todo comb st :
  Forall (λ i, triple_ok (columns md) (slot_col i "_name") (slot_col i "_puuid")
                 (slot_col i "_summonerId")) todo →
  columns comb = key3 →
  ∃ df, combine_players load_path md todo comb st = (inr df, st)
    ∧ columns df = key3
    ∧ (rows df).*2 = foldl (merge_slot (rows md).*2) (rows comb).*2 todo.
Proof.
  revert comb. induction todo as [|i todo IH]; intros comb Hall Hcomb; simpl.
  - by exists comb.
  - apply Forall_cons in Hall as [Hi Hall]. unfold bind.
    destruct (slot_players_ok load_path md _ _ _ st Hi) as (sp & Hsp & Hcols & Hrows).
    rewrite Hsp.
    set (comb1 := drop_duplicates (concat comb sp)).
    assert (columns comb1 = key3) as Hc1.
    { unfold comb1, drop_duplicates, concat, frame. simpl. by rewrite Hcomb, Hcols. }
    assert ((rows comb1).*2 = merge_slot (rows md).*2 (rows comb).*2 i) as Hr1.
    { unfold comb1, drop_duplicates, concat, frame, merge_slot. simpl.
      rewrite !range_index_rows. by rewrite Hcomb, Hcols, Hrows. }
    destruct (IH comb1 Hall Hc1) as (df & Hdf & Hcdf & Hrdf).
    exists df. split_and!; [done..|]. by rewrite Hrdf, Hr1.
Qed.

Lemma player_directory_rows load_path raw st :
  fs st !! load_path = Some raw →
  columns raw = raw_columns →
  player_directory load_path true st
    = (inr (directory (directory_players (rows raw).*2)), log (read_csv load_path) true st).
Proof.
  intros Hfs Hcols. unfold player_directory.
  rewrite (bind_run _ _ _ _ _ (pd_read_csv_ok _ _ _ Hfs)).
  set (md := reset_index raw). set (st1 := log _ _ _).
  assert (columns md = raw_columns) as Hmd by done.
  assert ((rows md).*2 = (rows raw).*2) as Hrows by apply range_index_rows.
  pose proof raw_triples_ok as Hok. rewrite <- Hmd in Hok.
  apply Forall_cons in Hok as [Hok1 Hok].
  destruct (slot_players_ok load_path md _ _ _ st1 Hok1) as (df1 & Hdf1 & Hc1 & Hr1).
  change (slot_col 1 "_name") with "p1_name" in Hdf1.
  change (slot_col 1 "_puuid") with "p1_puuid" in Hdf1.
  change (slot_col 1 "_summonerId") with "p1_summonerId" in Hdf1.
  rewrite (bind_run _ _ _ _ _ Hdf1).
  destruct (combine_players_rows load_path md (seqZ 2 9) df1 st1 Hok Hc1)
    as (df & Hdf & Hc & Hr).
  rewrite (bind_run _ _ _ _ _ Hdf).
  assert ((rows df).*2 = directory_players (rows raw).*2) as Hplayers.
  { unfold directory_players. rewrite Hr, Hr1, Hrows. reflexivity. }
  unfold ret, assign, concat, directory, unknown_row, frame. cbn [columns rows].
  rewrite Hc, Hplayers. reflexivity.
Qed.

(** The directory built from a raw match file holds, below the sentinel,
    every identity (name, puuid, summoner id) that occurs in a slot of a row
    of the file, each of them once, and nothing else. Its keys are the
    positions of the rows, the sentinel at 0. *)
Theorem directory_lists_each_identity_once load_path raw st :
  fs st !! load_path = Some raw →
  columns raw = raw_columns →
  ∃ players,
    process_player_data_from_matches W load_path None true st
      = (inr (Table (directory players)), log (read_csv load_path) true st)
    ∧ distinct_rows key3 players
    ∧ (∀ d, d ∈ players → ∃ i r, i ∈ slots ∧ r ∈ (rows raw).*2 ∧ is_triple d i r)
    ∧ (∀ i r, i ∈ slots → r ∈ (rows raw).*2 → ∃ d, d ∈ players ∧ is_triple d i r).
Proof.
  intros Hfs Hcols. exists (directory_players (rows raw).*2). split_and!.
  - unfold process_player_data_from_matches.
    by rewrite (bind_run _ _ _ _ _ (player_directory_rows _ _ _ Hfs Hcols)).
  - by apply merge_slots_distinct.
  - intros d. apply merge_slots_sound; [compute_done|].
    intros d' (r & -> & Hr)%list_elem_of_fmap. exists 1, r.
    split_and!; [compute_done|done|]. by apply (is_triple_slot 1); compute_done.
  - intros i r Hi Hr. change slots with (1 :: seqZ 2 9) in Hi.
    apply elem_of_cons in Hi as [->|Hi].
    + destruct (merge_slots_keeps (rows raw).*2
                  (slot_triple "p1_name" "p1_puuid" "p1_summonerId" <$> (rows raw).*2)
                  (seqZ 2 9) (slot_triple "p1_name" "p1_puuid" "p1_summonerId" r))
        as (d & Hd & Hsame); [by apply list_elem_of_fmap_2|].
      exists d. split; [done|]. eapply is_triple_same; [done|].
      by apply (is_triple_slot 1); compute_done.
    + destruct (merge_slots_complete (rows raw).*2
                  (slot_triple "p1_name" "p1_puuid" "p1_summonerId" <$> (rows raw).*2)
                  (seqZ 2 9) i r Hi Hr) as (d & Hd & Hsame).
      exists d. split; [done|]. eapply is_triple_same; [done|].
      apply is_triple_slot. change slots with (1 :: seqZ 2 9). by right.
Qed.
End DirectoryRows.

(** The directory of the two matches. *)
Lemma two_matches_directory :
  ∃ players,
    process_player_data_from_matches shared_match_world raw_path None true two_matches
      = (inr (Table (directory players)), log (read_csv raw_path) true two_matches)
    ∧ distinct_rows key3 players
    ∧ ∀ d, d ∈ players →
        ∃ i r, i ∈ slots
               ∧ r ∈ (rows (raw_file [("M1", ten "a"); ("M2", ten "<U>")])).*2
               ∧ is_triple d i r.
Proof.
  destruct (directory_lists_each_identity_once shared_match_world raw_path
              (raw_file [("M1", ten "a"); ("M2", ten "<U>")]) two_matches)
    as (players & Hrun & Hd & Hsound & _).
  - apply lookup_singleton_eq.
  - vm_compute. reflexivity.
  - exists players. split; [exact Hrun|]. split; [exact Hd|exact Hsound].
Defined.
(** ** What the processed table keeps *)

(** The conditions on the names, as checks to run. *)
Lemma string_names_check rs :
  forallb (λ ir : cell * row,
             forallb (λ j, is_str (row_get (slot_col j "_name") ir.2)) slots) rs = true →
  string_names rs.
Proof.
  intros Hall. apply Forall_forall. intros ir Hir. apply forallb_True.
  apply Is_true_true. eapply forallb_forall in Hall; [exact Hall|].
  by apply list_elem_of_In.
Qed.

Lemma string_players_check players :
  forallb (λ r : row, is_str (row_get "name" r)) players = true → string_players players.
Proof. intros Hall. apply forallb_True. by apply Is_true_true. Qed.


Section SlotFacts.
Context (players : list row) (champs : gmap Z string) (i : Z) (Hi : i ∈ slots).

Lemma slot_rows_champ ir ir' :
  ir' ∈ slot_rows players champs i [ir] →
  row_get (slot_col i "_champName") ir'.2
  = map_champ champs (row_get (slot_col i "_champId") ir.2).
Proof.
  assert (slot_col i "_champId" ≠ "key") as Hk
    by (apply slot_col_not_key; [done|compute_done]).
  assert (slot_col i "_champId" ≠ slot_col i "_key") as Hik
    by (apply (slot_col_ne i); [done|compute_done..|done|right; done]).
  assert (slot_col i "_champId" ∉ [slot_col i "_puuid"; slot_col i "_summonerId"]) as Hd.
  { rewrite !not_elem_of_cons. split_and!; [| |apply not_elem_of_nil];
      (apply (slot_col_ne i); [done|compute_done..|done|right; done]). }
  intros Hin. rewrite slot_rows_single in Hin by done.
  destruct (filter _ players) as [|d ds].
  - apply list_elem_of_singleton in Hin as ->. cbn [snd]. unfold finished.
    rewrite row_get_insert_eq, row_get_rename_ne by done.
    by rewrite dropped_get.
  - apply list_elem_of_fmap in Hin as (d' & -> & _). cbn [snd]. unfold finished.
    rewrite row_get_insert_eq, row_get_rename_ne by done.
    rewrite row_get_insert_ne by done. by rewrite dropped_get.
Qed.
End SlotFacts.

Section Origin.
Context (players : list row) (champs : gmap Z string).

Lemma champ_name_untouched i j :
  i ∈ slots → j ∈ slots → i ≠ j → slot_col j "_champName" ∉ touched i.
Proof.
  intros Hi Hj Hne. unfold touched. rewrite !not_elem_of_cons.
  split_and!; [..|apply not_elem_of_nil];
    try (apply (slot_col_ne j); [done|compute_done..|done|left; done]).
  by apply slot_col_not_key; [|compute_done].
Qed.

Lemma fact_untouched i j s :
  i ∈ slots → j ∈ slots → s ∈ ["_name"; "_champId"; "_win"] → slot_col j s ∉ touched i.
Proof.
  intros Hi Hj Hs.
  assert (s ∈ suffixes) as Hsuf.
  { revert Hs. unfold suffixes. rewrite !elem_of_cons. tauto. }
  assert (s ≠ "_puuid" ∧ s ≠ "_summonerId" ∧ s ≠ "_key" ∧ s ≠ "_champName")
    as (?&?&?&?).
  { repeat (apply elem_of_cons in Hs as [->|Hs]); [done..|by apply elem_of_nil in Hs]. }
  unfold touched. rewrite !not_elem_of_cons.
  split_and!; [..|apply not_elem_of_nil];
    try (apply (slot_col_ne j); [done|first [done|compute_done]..|done|right; done]).
  by apply slot_col_not_key.
Qed.

Lemma match_id_untouched i : i ∈ slots → "match_id" ∉ touched i.
Proof.
  intros Hi. unfold touched. rewrite !not_elem_of_cons.
  split_and!; [| |done| | |apply not_elem_of_nil]; intros Heq.
  - apply (slot_col_plain i "_puuid" Hi); [compute_done|rewrite <- Heq; compute_done].
  - apply (slot_col_plain i "_summonerId" Hi); [compute_done|rewrite <- Heq; compute_done].
  - apply (slot_col_plain i "_key" Hi); [compute_done|rewrite <- Heq; compute_done].
  - apply (slot_col_plain i "_champName" Hi); [compute_done|rewrite <- Heq; compute_done].
Qed.

(** Every row of the result stems from a row of the table: it has its
    label, its value in every column no slot touches, and for every slot
    processed the champion name that belongs to the champion id. *)
Lemma through_origin todo rs ir' :
  Forall (λ i, i ∈ slots) todo →
  ir' ∈ through players champs todo rs →
  ∃ ir, ir ∈ rs ∧ ir'.1 = ir.1
    ∧ (∀ c, (∀ i, i ∈ slots → c ∉ touched i) → row_get c ir'.2 = row_get c ir.2)
    ∧ (∀ j, j ∈ todo →
         row_get (slot_col j "_champName") ir'.2
         = map_champ champs (row_get (slot_col j "_champId") ir.2)).
Proof.
  intros Htodo. revert ir'. induction todo as [|i todo IH] using rev_ind; intros ir'.
  - simpl. intros Hin. exists ir'. split_and!; [done..|]. by intros j ?%elem_of_nil.
  - apply Forall_app in Htodo as [Htodo [Hi _]%Forall_cons].
    rewrite through_snoc. intros (ir1 & Hstep & Hin1)%elem_of_slot_rows.
    destruct (IH Htodo ir1 Hin1) as (ir & Hin & Hlabel & Hkeep & Hchamp).
    exists ir. split_and!; [done| | |].
    + rewrite <- Hlabel. by apply (slot_rows_label players champs i ir1 ir').
    + intros c Hc. rewrite <- Hkeep by done.
      by apply (slot_rows_keeps players champs i Hi ir1 ir'); [|apply Hc].
    + intros j Hj.
      assert (row_get (slot_col i "_champName") ir'.2
              = map_champ champs (row_get (slot_col i "_champId") ir.2)) as Hnew.
      { rewrite (slot_rows_champ players champs i Hi ir1 ir' Hstep).
        f_equal. apply Hkeep. intros i' Hi'. apply fact_untouched; [done..|compute_done]. }
      destruct (decide (i = j)) as [<-|Hne]; [done|].
      apply elem_of_app in Hj as [Hj|Hj%list_elem_of_singleton]; [|done].
      rewrite <- (Hchamp j Hj).
      assert (j ∈ slots) as Hjs by (by eapply (proj1 (Forall_forall _ _) Htodo)).
      by apply (slot_rows_keeps players champs i Hi ir1 ir'); [|apply champ_name_untouched].
Qed.
End Origin.

Section NoisyRows.
Context (W : World) (noise_rate : Q) (players : list row) (champs : gmap Z string).

Lemma hide_origin labels i rs irh :
  irh ∈ hide labels i rs →
  ∃ ir, ir ∈ rs ∧ irh.1 = ir.1
    ∧ (∀ c, c ≠ slot_col i "_name" → row_get c irh.2 = row_get c ir.2)
    ∧ (row_get (slot_col i "_name") irh.2 = row_get (slot_col i "_name") ir.2
       ∨ row_get (slot_col i "_name") irh.2 = CStr "<U>").
Proof.
  unfold hide. intros (ir & -> & Hin)%list_elem_of_fmap. exists ir.
  case_decide; simpl.
  - split_and!; [done..| |].
    + intros c Hc. by apply row_get_insert_ne.
    + right. apply row_get_insert_eq.
  - split_and!; [done..|by left].
Qed.

(** One slot: what a row of the result has from the row it stems from. *)
Lemma noisy_step labels i rs ir1 :
  i ∈ slots →
  ir1 ∈ slot_rows players champs i (hide labels i rs) →
  ∃ ir, ir ∈ rs ∧ ir1.1 = ir.1
    ∧ (∀ c, c ∉ touched i → c ≠ slot_col i "_name" → row_get c ir1.2 = row_get c ir.2)
    ∧ (row_get (slot_col i "_name") ir1.2 = row_get (slot_col i "_name") ir.2
       ∨ row_get (slot_col i "_name") ir1.2 = CStr "<U>")
    ∧ (has_name players (row_get (slot_col i "_name") ir1.2) →
       ∃ d, d ∈ players
            ∧ row_get "name" d = row_get (slot_col i "_name") ir1.2
            ∧ row_get (slot_col i "_key") ir1.2 = row_get "key" d)
    ∧ row_get (slot_col i "_champName") ir1.2
      = map_champ champs (row_get (slot_col i "_champId") ir.2).
Proof.
  intros Hi (irh & Hstep & Hh)%elem_of_slot_rows.
  destruct (hide_origin _ _ _ _ Hh) as (ir & Hin & Hlabel & Hkeep & Hname).
  assert (∀ c, c ∉ touched i → row_get c ir1.2 = row_get c irh.2) as Hslot.
  { intros c Hc. by apply (slot_rows_keeps players champs i Hi irh ir1). }
  assert (row_get (slot_col i "_name") ir1.2 = row_get (slot_col i "_name") irh.2) as Hn1.
  { apply Hslot. by apply name_untouched. }
  exists ir. split_and!; [done| | | | |].
  - rewrite <- Hlabel. by apply (slot_rows_label players champs i irh ir1).
  - intros c Hc Hne. rewrite Hslot by done. by apply Hkeep.
  - by rewrite Hn1.
  - rewrite Hn1. intros Hhas.
    by apply (slot_rows_resolves players champs i Hi irh ir1).
  - rewrite (slot_rows_champ players champs i Hi irh ir1 Hstep). f_equal.
    apply Hkeep. apply (slot_col_ne i); [done|compute_done..|done|right; done].
Qed.

(** All slots: every row of the result stems from a row of the table. It
    has its label and its value in every column that is neither touched nor
    a name. In every slot processed, its name is the one of that row or
    [<U>]; its key, when some player has that name, is the key of such a
    player; and its champion name belongs to the champion id of that row. *)
Lemma noisy_origin todo rs h ir' :
  NoDup todo → Forall (λ i, i ∈ slots) todo →
  ir' ∈ noisy_through W noise_rate players champs todo rs h →
  ∃ ir, ir ∈ rs ∧ ir'.1 = ir.1
    ∧ (∀ c, (∀ j, j ∈ todo → (c ∉ touched j) ∧ c ≠ slot_col j "_name") →
         row_get c ir'.2 = row_get c ir.2)
    ∧ (∀ j, j ∈ todo →
         (row_get (slot_col j "_name") ir'.2 = row_get (slot_col j "_name") ir.2
          ∨ row_get (slot_col j "_name") ir'.2 = CStr "<U>")
         ∧ (has_name players (row_get (slot_col j "_name") ir'.2) →
            ∃ d, d ∈ players
                 ∧ row_get "name" d = row_get (slot_col j "_name") ir'.2
                 ∧ row_get (slot_col j "_key") ir'.2 = row_get "key" d)
         ∧ row_get (slot_col j "_champName") ir'.2
           = map_champ champs (row_get (slot_col j "_champId") ir.2)).
Proof.
  intros Hnd Hslots. revert rs h ir'.
  induction todo as [|i todo IH]; intros rs h ir'; simpl.
  - intros Hin. exists ir'. split_and!; [done..|]. by intros j ?%elem_of_nil.
  - apply NoDup_cons in Hnd as [Hi' Hnd]. apply Forall_cons in Hslots as [Hi Hslots].
    intros Hin.
    destruct (IH Hnd Hslots _ _ _ Hin) as (ir1 & Hin1 & Hlabel1 & Hkeep1 & Hfacts1).
    destruct (noisy_step _ _ _ _ Hi Hin1)
      as (ir & Hir & Hlabel & Hkeep & Hname & Hkey & Hchamp).
    assert (∀ j, j ∈ todo → j ∈ slots ∧ i ≠ j) as Hother.
    { intros j Hj. split; [by eapply (proj1 (Forall_forall _ _) Hslots)|].
      by intros ->. }
    assert (∀ c, (∀ j, j ∈ todo → (c ∉ touched j) ∧ c ≠ slot_col j "_name") →
              row_get c ir'.2 = row_get c ir1.2) as Hlater by apply Hkeep1.
    assert (row_get (slot_col i "_name") ir'.2 = row_get (slot_col i "_name") ir1.2)
      as Hn.
    { apply Hlater. intros j [Hj Hne]%Hother. split; [by apply name_untouched|].
      apply (slot_col_ne i); [done|compute_done..|done|left; done]. }
    assert (row_get (slot_col i "_key") ir'.2 = row_get (slot_col i "_key") ir1.2)
      as Hk.
    { apply Hlater. intros j [Hj Hne]%Hother. split; [by apply key_untouched|].
      apply (slot_col_ne i); [done|compute_done..|done|left; done]. }
    assert (row_get (slot_col i "_champName") ir'.2
            = row_get (slot_col i "_champName") ir1.2) as Hc.
    { apply Hlater. intros j [Hj Hne]%Hother. split; [by apply champ_name_untouched|].
      apply (slot_col_ne i); [done|compute_done..|done|left; done]. }
    exists ir. split_and!; [done|by rewrite Hlabel1| |].
    + intros c Hc'. rewrite Hlater.
      * apply Hkeep; apply Hc'; left.
      * intros j Hj. apply Hc'. by right.
    + intros j [->|Hj]%elem_of_cons.
      * rewrite Hn, Hk, Hc. done.
      * destruct (Hother j Hj) as [Hjs Hne].
        destruct (Hfacts1 j Hj) as (Hname1 & Hkey1 & Hchamp1).
        assert (row_get (slot_col j "_name") ir1.2 = row_get (slot_col j "_name") ir.2)
          as Hnj.
        { apply Hkeep; [by apply name_untouched|].
          apply (slot_col_ne j); [done|compute_done..|done|left; done]. }
        assert (row_get (slot_col j "_champId") ir1.2
                = row_get (slot_col j "_champId") ir.2) as Hcj.
        { apply Hkeep; [apply fact_untouched; [done..|compute_done]|].
          apply (slot_col_ne j); [done|compute_done..|done|left; done]. }
        split_and!; [by rewrite <- Hnj|done|by rewrite <- Hcj].
Qed.

(** One slot leaves the names strings. *)
Lemma noisy_step_strings labels i rs :
  i ∈ slots → string_names rs →
  string_names (slot_rows players champs i (hide labels i rs)).
Proof.
  intros Hi Hrs. unfold string_names. apply Forall_forall. intros ir1 Hin.
  destruct (noisy_step _ _ _ _ Hi Hin) as (ir & Hir & _ & Hkeep & Hname & _).
  unfold string_names in Hrs. rewrite Forall_forall in Hrs. specialize (Hrs ir Hir).
  rewrite Forall_forall in Hrs. apply Forall_forall. intros j Hj.
  destruct (decide (j = i)) as [->|Hne].
  - destruct Hname as [-> | ->]; [by apply Hrs|done].
  - rewrite Hkeep; [by apply Hrs|by apply name_untouched|].
    apply (slot_col_ne j); [done|compute_done..|done|left; done].
Qed.
End NoisyRows.

Section NoisySlot.
Context (W : World).

Lemma omap_pointwise {A B} (f g : A → option B) (l : list A) :
  (∀ x, f x = g x) → omap f l = omap g l.
Proof. intros Hfg. induction l as [|x l IH]; csimpl; [done|]. by rewrite Hfg, IH. Qed.

Lemma hide_dropped labels i (rs : list (cell * row)) :
  i ∈ slots →
  (λ ir, if decide (ir.1 ∈ labels)
         then (ir.1, <[slot_col i "_name" := CStr "<U>"]> ir.2) else ir)
    <$> ((λ ir, (ir.1, filter (λ kv, kv.1 ∉ [slot_col i "_puuid"; slot_col i "_summonerId"])
                         ir.2)) <$> rs)
  = (λ ir, (ir.1, filter (λ kv, kv.1 ∉ [slot_col i "_puuid"; slot_col i "_summonerId"])
                    ir.2)) <$> hide labels i rs.
Proof.
  intros Hi. unfold hide. rewrite <- !list_fmap_compose.
  apply list_fmap_ext. intros k [l r] _. simpl. case_decide; [|done]. simpl.
  f_equal. symmetry. apply map_filter_insert_True. simpl.
  rewrite !not_elem_of_cons. split_and!; [| |apply not_elem_of_nil];
    (apply (slot_col_ne i); [done|compute_done..|done|right; done]).
Qed.

Lemma strings_not_numeric col : Forall (λ c, is_str c) col → numeric col = false.
Proof.
  destruct col as [|c col]; [done|]. intros [Hc _]%Forall_cons.
  unfold numeric. cbn [forallb]. by destruct c.
Qed.

Lemma hidden_names_strings labels i rs cols :
  i ∈ slots → string_names rs →
  Forall (λ c, is_str c)
    (column (slot_col i "_name")
       (frame cols
          ((λ ir, (ir.1, filter (λ kv, kv.1 ∉ [slot_col i "_puuid"; slot_col i "_summonerId"])
                           ir.2)) <$> hide labels i rs))).
Proof.
  intros Hi Hrs. unfold column, frame. cbn [rows].
  rewrite <- list_fmap_compose. apply Forall_fmap, Forall_forall.
  intros irh Hin. unfold compose. cbn [snd].
  destruct (hide_origin _ _ _ _ Hin) as (ir & Hir & _ & _ & Hname).
  rewrite row_get_filter
    by (intros v; cbn [fst]; rewrite !not_elem_of_cons;
        split_and!; [| |apply not_elem_of_nil];
        (apply (slot_col_ne i); [done|compute_done..|done|right; done])).
  unfold string_names in Hrs. rewrite Forall_forall in Hrs. specialize (Hrs ir Hir).
  rewrite Forall_forall in Hrs.
  destruct Hname as [-> | ->]; [by apply Hrs|done].
Qed.

Lemma process_slot_run player_data noise_rate champs i df cols' st :
  i ∈ slots →
  columns player_data = ["name"; "key"] →
  string_players (rows player_data).*2 →
  string_names (rows df) →
  slot_columns i (columns df) = Some cols' →
  process_slot W player_data noise_rate champs i df st =
    (inr (frame cols'
            (slot_rows (rows player_data).*2 champs i
               (hide (sampled W noise_rate (rows df) (trace st)) i (rows df)))),
     log (sample (length (rows df))) true st).
Proof.
  intros Hi Hpd Hplayers Hnames. unfold slot_columns.
  case_decide as Hdrop; [|done]. case_decide as Hjoin; [|done]. destruct Hjoin as [Hon Hkey].
  case_decide as Hchamp; [|done].
  intros [= <-].
  unfold process_slot.
  rewrite (bind_run _ _ _ _ _ (drop_columns_ok _ _ _ Hdrop)).
  unfold bind at 1, sample_index. cbn [rows frame].
  rewrite length_fmap.
  assert (omap (λ p, fst <$> ((λ ir : cell * row,
                  (ir.1, filter (λ kv, kv.1 ∉ [slot_col i "_puuid"; slot_col i "_summonerId"])
                           ir.2)) <$> rows df) !! p)
            (take (Z.to_nat (py_round (noise_rate * inject_Z (Z.of_nat (length (rows df))))))
               (w_sample W (trace st) (length (rows df))))
          = sampled W noise_rate (rows df) (trace st)) as ->.
  { unfold sampled. apply omap_pointwise. intros p. rewrite list_lookup_fmap.
    by destruct (rows df !! p). }
  unfold loc_assign. cbn [rows columns frame].
  rewrite (hide_dropped _ _ _ Hi).
  unfold join at 1. rewrite Hpd. cbn [columns rows frame].
  rewrite decide_True by (left).
  change (filter (λ c, c ≠ "name") ["name"; "key"]) with ["key"].
  rewrite decide_True by done.
  rewrite (strings_not_numeric _ (hidden_names_strings _ i (rows df) _ Hi Hnames)).
  assert (numeric (column "name" player_data) = false) as ->.
  { apply strings_not_numeric. unfold column. unfold string_players in Hplayers.
    rewrite Forall_fmap in Hplayers. by apply Forall_fmap. }
  rewrite andb_false_r. cbn [andb orb].
  rewrite decide_True by (by apply Forall_singleton).
  unfold bind at 1, ret at 1. unfold rename_column at 1. cbn [columns rows frame].
  rewrite decide_True by done.
  unfold ret, assign, rename_column, frame, slot_rows. cbn [columns rows].
  done.
Qed.

Lemma process_slots_run player_data noise_rate champs todo df cols' st :
  Forall (λ i, i ∈ slots) todo →
  columns player_data = ["name"; "key"] →
  string_players (rows player_data).*2 →
  string_names (rows df) →
  columns_after todo (columns df) = Some cols' →
  ∃ df' st',
    process_slots W player_data noise_rate champs todo df st = (inr df', st')
    ∧ columns df' = cols'
    ∧ rows df' = noisy_through W noise_rate (rows player_data).*2 champs todo (rows df)
                   (trace st)
    ∧ stdout st' = stdout st ∧ fs st' = fs st.
Proof.
  intros Htodo Hpd Hplayers. revert df st.
  induction Htodo as [|i todo Hi _ IH]; intros df st Hnames; simpl.
  - intros [= <-]. by exists df, st.
  - destruct (slot_columns i (columns df)) as [cols1|] eqn:Hcols; [|done].
    intros Hafter.
    rewrite (bind_run _ _ _ _ _
               (process_slot_run _ noise_rate champs _ _ _ st Hi Hpd Hplayers Hnames Hcols)).
    destruct (IH (frame cols1
                    (slot_rows (rows player_data).*2 champs i
                       (hide (sampled W noise_rate (rows df) (trace st)) i (rows df))))
                (log (sample (length (rows df))) true st))
      as (df' & st' & Hrun & Hc & Hr & Hout & Hfs);
      [by apply noisy_step_strings|done|].
    exists df', st'. by rewrite Hrun.
Qed.
End NoisySlot.
Section Processed.
Context (W : World).

Lemma read_player_table {B} file st path (k : DataFrame → M B) :
  fs st !! path = Some file →
  columns file = key3 ++ ["key"] →
  (player_data <- pd_read_csv path ;;
   player_data <- drop_columns player_data ["puuid"; "summonerId"] ;;
   k player_data) st
  = k (player_table file) (log (read_csv path) true st).
Proof.
  intros Hfs Hcols. rewrite (bind_run _ _ _ _ _ (pd_read_csv_ok _ _ _ Hfs)).
  assert (Forall (λ c, c ∈ columns (reset_index file)) ["puuid"; "summonerId"]) as Hin.
  { unfold reset_index, frame. cbn [columns]. rewrite Hcols. compute_done. }
  by rewrite (bind_run _ _ _ _ _ (drop_columns_ok _ _ _ Hin)).
Qed.

Lemma reset_strings raw : string_names (rows raw) → string_names (rows (reset_index raw)).
Proof.
  unfold string_names, reset_index, frame, range_index. cbn [rows].
  rewrite !Forall_forall. intros Hraw ir (n & r & -> & Hr)%elem_of_lookup_imap_1.
  cbn [snd]. apply list_lookup_fmap_Some_1 in Hr as (ir0 & -> & Hr).
  apply Hraw. by eapply list_elem_of_lookup_2.
Qed.

Lemma player_table_strings file :
  string_players (rows file).*2 → string_players (rows (player_table file)).*2.
Proof.
  unfold string_players, player_table, reset_index, frame, range_index. cbn [rows].
  rewrite !Forall_forall. intros Hfile r (ir & -> & Hir)%list_elem_of_fmap.
  apply list_elem_of_fmap in Hir as (ir0 & -> & Hir0). cbn [snd].
  apply elem_of_lookup_imap_1 in Hir0 as (n & r0 & -> & Hr). cbn [snd].
  rewrite row_get_filter by (intros v; compute_done).
  apply Hfile. by eapply list_elem_of_lookup_2.
Qed.

Lemma processed_matches_noisy match_path player_path noise_rate raw file st version data :
  (0 <= noise_rate <= 1)%Q →
  fs st !! match_path = Some raw →
  columns raw = raw_columns →
  string_names (rows raw) →
  fs st !! player_path = Some file →
  columns file = key3 ++ ["key"] →
  string_players (rows file).*2 →
  (∀ h, w_versions W h "na1" = inr version) →
  (∀ h, w_champions W h version = inr data) →
  ∃ out st' h,
    processed_matches W match_path player_path noise_rate st = (inr out, st')
    ∧ columns out = ordered_cols
    ∧ rows out = (λ ir, (ir.1, filter (λ kv, kv.1 ∈ ordered_cols) ir.2))
                   <$> noisy_through W noise_rate (rows (player_table file)).*2
                         (champ_dict data) slots (rows (reset_index raw)) h
    ∧ stdout st' = stdout st ∧ fs st' = fs st.
Proof.
  intros [Hlo Hhi] Hraw Hcols Hnames Hfile Hfcols Hplayers Hver Hdata.
  apply reset_strings in Hnames. apply player_table_strings in Hplayers.
  set (md := reset_index raw). set (pd := player_table file).
  set (champs := champ_dict data).
  destruct raw_columns_after as (cols & Hafter & Hordered).
  assert (columns md = raw_columns) as Hmd by done.
  rewrite <- Hmd in Hafter.
  assert (columns pd = ["name"; "key"]) as Hpd.
  { unfold pd, player_table, frame. cbn [columns]. by rewrite Hfcols. }
  assert (Forall (λ i, i ∈ slots) slots) as Hall by (by apply Forall_forall).
  assert (∃ st1 : state,
            fs st1 = fs st ∧ stdout st1 = stdout st
            ∧ processed_matches W match_path player_path noise_rate st
              = (x <- process_slots W pd noise_rate champs slots md ;;
                 loc_columns x ordered_cols) st1) as (st1 & Hfs1 & Hout1 & ->).
  { eexists. split_and!; [| |].
    3:{ unfold processed_matches. unfold bind at 1, py_assert.
        apply Qle_bool_iff in Hlo, Hhi. rewrite Hlo, Hhi. cbn [andb]. unfold ret at 1.
        assert (fs (log (read_csv match_path) true st) !! player_path = Some file)
          as Hfile' by done.
        unfold bind at 1, attempt at 1.
        rewrite (bind_run _ _ _ _ _ (pd_read_csv_ok _ _ _ Hraw)).
        rewrite (read_player_table file _ _ _ Hfile' Hfcols).
        unfold ret at 1. fold pd. fold md.
        unfold bind at 1, ret at 1. cbn [fst snd].
        unfold bind at 1, attempt at 1, bind at 1, ask at 1. rewrite Hver.
        unfold ask at 1. rewrite Hdata. cbv beta iota zeta.
        unfold bind at 1, ret at 1. change (seqZ 1 10) with slots. fold champs.
        reflexivity. }
    all: done. }
  destruct (process_slots_run W pd noise_rate champs slots md cols st1 Hall Hpd Hplayers
              Hnames Hafter)
    as (df' & st2 & Hslots & Hc & Hr & Hout & Hfs).
  rewrite (bind_run _ _ _ _ _ Hslots).
  rewrite <- Hc in Hordered.
  rewrite (loc_columns_ok _ _ _ Hordered).
  eexists _, _, _. split; [reflexivity|]. cbn [columns rows frame].
  split_and!; [done|by rewrite Hr|by rewrite Hout|by rewrite Hfs].
Qed.

(** Without noise no row is drawn and no name is hidden. *)
Lemma sampled_zero rs h : sampled W 0 rs h = [].
Proof.
  unfold sampled.
  assert (py_round (0 * inject_Z (Z.of_nat (length rs))) = 0) as ->; [|done].
  unfold py_round.
  assert (0 * inject_Z (Z.of_nat (length rs)) == 0)%Q as Hz by ring.
  unfold Qmult, inject_Z. cbn [Qnum Qden]. rewrite Z.mul_0_l. reflexivity.
Qed.

Lemma hide_nil i rs : hide [] i rs = rs.
Proof.
  unfold hide. rewrite <- (list_fmap_id rs) at 2. apply list_fmap_ext.
  intros n ir _. rewrite decide_False; [done|]. apply not_elem_of_nil.
Qed.

Lemma noisy_through_zero players champs todo rs h :
  noisy_through W 0 players champs todo rs h = through players champs todo rs.
Proof.
  revert rs h. induction todo as [|i todo IH]; intros rs h; [done|].
  cbn [noisy_through]. rewrite sampled_zero, hide_nil, IH. done.
Qed.

(** With well-formed files and the static data at hand, the table builder
    returns, and its rows are those of the raw file taken through the ten
    slots and cut down to the ordered columns. *)
Lemma processed_matches_rows match_path player_path raw file st version data :
  fs st !! match_path = Some raw →
  columns raw = raw_columns →
  string_names (rows raw) →
  fs st !! player_path = Some file →
  columns file = key3 ++ ["key"] →
  string_players (rows file).*2 →
  (∀ h, w_versions W h "na1" = inr version) →
  (∀ h, w_champions W h version = inr data) →
  ∃ out st',
    processed_matches W match_path player_path 0 st = (inr out, st')
    ∧ columns out = ordered_cols
    ∧ rows out = (λ ir, (ir.1, filter (λ kv, kv.1 ∈ ordered_cols) ir.2))
                   <$> through (rows (player_table file)).*2 (champ_dict data) slots
                         (rows (reset_index raw))
    ∧ stdout st' = stdout st ∧ fs st' = fs st.
Proof.
  intros Hraw Hcols Hnames Hfile Hfcols Hplayers Hver Hdata.
  destruct (processed_matches_noisy match_path player_path 0 raw file st version data)
    as (out & st' & h & Hrun & Hc & Hr & Hout & Hfs); [done..|].
  exists out, st'. rewrite noisy_through_zero in Hr. done.
Qed.

(** What [process_match_data] keeps. For a raw file with the columns of the
    crawler and a player file with the columns of the directory, in both of
    which every name is a string, with [noise_rate = 0] and the static data
    at hand, the function returns; every row of its table stems
    from a row of the raw file, whose label, match id, and for every slot
    name, champion id and win flag it has; the champion name is the one the
    static list gives for the champion id (NaN when it has none); and no
    other column, in particular no puuid and no summoner id, is left. *)
Theorem processed_table_keeps_match_facts match_path player_path raw file st
    version data :
  fs st !! match_path = Some raw →
  columns raw = raw_columns →
  string_names (rows raw) →
  fs st !! player_path = Some file →
  columns file = key3 ++ ["key"] →
  string_players (rows file).*2 →
  (∀ h, w_versions W h "na1" = inr version) →
  (∀ h, w_champions W h version = inr data) →
  ∃ out st',
    process_match_data W match_path player_path None 0 st = (inr (Table out), st')
    ∧ columns out = ordered_cols
    ∧ fs st' = fs st
    ∧ ∀ ir, ir ∈ rows out →
        (∃ (n : nat) r,
            (rows raw).*2 !! n = Some r
            ∧ ir.1 = CInt (Z.of_nat n)
            ∧ row_get "match_id" ir.2 = row_get "match_id" r
            ∧ ∀ j, j ∈ slots →
                row_get (slot_col j "_name") ir.2 = row_get (slot_col j "_name") r
                ∧ row_get (slot_col j "_champId") ir.2 = row_get (slot_col j "_champId") r
                ∧ row_get (slot_col j "_win") ir.2 = row_get (slot_col j "_win") r
                ∧ row_get (slot_col j "_champName") ir.2
                  = map_champ (champ_dict data) (row_get (slot_col j "_champId") r))
        ∧ (∀ c, c ∉ ordered_cols → ir.2 !! c = None).
Proof.
  intros Hraw Hcols Hnames Hfile Hfcols Hplayers Hver Hdata.
  destruct (processed_matches_rows match_path player_path raw file st version data
              Hraw Hcols Hnames Hfile Hfcols Hplayers Hver Hdata)
    as (out & st' & Hrun & Hcout & Hrout & _ & Hfs).
  exists out, st'. split_and!; [|done|done|].
  { unfold process_match_data. by rewrite (bind_run _ _ _ _ _ Hrun). }
  assert (∀ j s, j ∈ slots → s ∈ ["_name"; "_champId"; "_win"; "_champName"] →
            slot_col j s ∈ ordered_cols) as Hkept.
  { assert (Forall (λ j, Forall (λ s, slot_col j s ∈ ordered_cols)
                           ["_name"; "_champId"; "_win"; "_champName"]) slots)
      as H by compute_done.
    intros j s Hj Hs. rewrite Forall_forall in H. specialize (H j Hj).
    rewrite Forall_forall in H. by apply H. }
  assert (∀ (x : row) c, c ∈ ordered_cols →
            row_get c (filter (λ kv, kv.1 ∈ ordered_cols) x) = row_get c x) as Hget.
  { intros x c Hc. apply row_get_filter. by intros v. }
  intros ir. rewrite Hrout. intros (x & -> & Hx)%list_elem_of_fmap. cbn [fst snd].
  destruct (through_origin _ _ slots _ x (proj2 (Forall_forall _ _) (λ _ H, H)) Hx)
    as (ir0 & Hin0 & Hlabel & Hkeep & Hchamp).
  unfold reset_index, frame, range_index in Hin0. cbn [rows] in Hin0.
  apply elem_of_lookup_imap_1 in Hin0 as (n & r & -> & Hr).
  split.
  - exists n, r. split_and!; [done|done| |].
    + rewrite Hget by compute_done. apply Hkeep. apply match_id_untouched.
    + intros j Hj. rewrite !Hget by (apply Hkept; [done|compute_done]).
      split_and!; [| | |by apply Hchamp];
        (apply Hkeep; intros i' Hi'; apply fact_untouched; [done..|compute_done]).
  - intros c Hc. by apply lookup_filter_out.
Qed.
End Processed.

(** One match against a directory of one player. *)
Lemma one_match_processed :
  ∃ out st',
    process_match_data shared_match_world raw_path "out/players.csv" None 0 two_files
      = (inr (Table out), st')
    ∧ columns out = ordered_cols
    ∧ fs st' = fs two_files
    ∧ ∀ ir c, ir ∈ rows out → c ∉ ordered_cols → ir.2 !! c = None.
Proof.
  destruct (processed_table_keeps_match_facts shared_match_world raw_path
              "out/players.csv" (raw_file [("M1", ten "a")])
              (stored false
                 (directory [{[ "name" := CStr "a"; "puuid" := CStr "puuid-a";
                                "summonerId" := CStr "id-a" ]}]))
              two_files "14.1.1"
              [("Aatrox", {| champ_key := 266; champ_name := "Aatrox" |})])
    as (out & st' & Hrun & Hcols & Hfs & Hrows).
  - unfold two_files. cbn [fs]. rewrite lookup_insert_ne by compute_done.
    apply lookup_singleton_eq.
  - vm_compute. reflexivity.
  - apply string_names_check. vm_compute. reflexivity.
  - unfold two_files. cbn [fs]. apply lookup_insert_eq.
  - reflexivity.
  - apply string_players_check. vm_compute. reflexivity.
  - intros h. reflexivity.
  - intros h. reflexivity.
  - exists out, st'. split; [exact Hrun|]. split; [exact Hcols|]. split; [exact Hfs|].
    intros ir c Hir. exact (proj2 (Hrows ir Hir) c).
Defined.
(** ** The round trip *)

Section SavedDirectory.
Context (W : World).










End SavedDirectory.


(** ** A directory without keys *)

Section NoKey.
Context (W : World).

Lemma bind_fs {A B} (m : M A) (k : A → M B) st :
  (∀ s, fs (m s).2 = fs s) → (∀ a s, fs (k a s).2 = fs s) →
  fs (bind m k st).2 = fs st.
Proof.
  intros Hm Hk. unfold bind. specialize (Hm st).
  destruct (m st) as [[e|a] st1]; [done|]. by rewrite Hk.
Qed.

Lemma process_slot_fs pd nr champs i df st :
  fs (process_slot W pd nr champs i df st).2 = fs st.
Proof.
  unfold process_slot. apply bind_fs.
  { intros s. unfold drop_columns. by case_match. }
  intros df1 s1. apply bind_fs; [done|].
  intros labels s2. apply bind_fs; [|intros df2 s3; by case_decide].
  intros s. unfold join. repeat case_decide; try done; by destruct (_ || _).
Qed.

Lemma process_slots_fs pd nr champs todo df st :
  fs (process_slots W pd nr champs todo df st).2 = fs st.
Proof.
  revert df st. induction todo as [|i todo IH]; intros df st; simpl; [done|].
  unfold bind. pose proof (process_slot_fs pd nr champs i df st) as Hfs.
  destruct (process_slot W pd nr champs i df st) as [[e|df1] st1]; [done|].
  by rewrite IH.
Qed.

Lemma process_slot_no_key pd nr champs i df st df' st' :
  "key" ∉ columns pd → "key" ∉ columns df →
  process_slot W pd nr champs i df st = (inr df', st') →
  ∀ c, c ∈ columns df' → c ∈ columns df ∨ c ∈ columns pd ∨ c = slot_col i "_champName".
Proof.
  intros Hpd Hdf. unfold process_slot, bind, drop_columns, sample_index, join, ret, raise.
  destruct (filter (λ c, c ∉ columns df) _); [|done].
  cbn [columns rows loc_assign frame].
  case_decide; [|done]. case_decide; [|done].
  destruct (_ || _); [done|].
  case_decide; [|done]. case_decide; [|done].
  intros [= <- _]. intros c.
  assert (∀ cols : list string, "key" ∉ cols →
            (λ c, if decide (c = "key") then slot_col i "_key" else c) <$> cols = cols)
    as Hsame.
  { intros cols Hk. rewrite <- (list_fmap_id cols) at 2. apply list_fmap_ext.
    intros k x Hx. case_decide; [|done]. subst x. exfalso. apply Hk.
    by eapply list_elem_of_lookup_2. }
  unfold assign, rename_column, frame. cbn [columns rows].
  rewrite Hsame.
  - case_decide; rewrite ?elem_of_app, ?list_elem_of_singleton, !list_elem_of_filter;
      intuition.
  - rewrite elem_of_app, !list_elem_of_filter. intuition.
Qed.

Lemma process_slots_no_key pd nr champs todo df st df' st' :
  Forall (λ i, i ∈ slots) todo →
  "key" ∉ columns pd → "key" ∉ columns df →
  process_slots W pd nr champs todo df st = (inr df', st') →
  ∀ c, c ∈ columns df' →
    c ∈ columns df ∨ c ∈ columns pd ∨ ∃ i, i ∈ slots ∧ c = slot_col i "_champName".
Proof.
  intros Htodo Hpd. revert df st.
  induction Htodo as [|i todo Hi _ IH]; intros df st Hdf; simpl.
  - intros [= <- _] c Hc. by left.
  - unfold bind.
    destruct (process_slot W pd nr champs i df st) as [[e|df1] st1] eqn:Hone; [done|].
    pose proof (process_slot_no_key _ _ _ _ _ _ _ _ Hpd Hdf Hone) as Hcols1.
    intros Hrest c Hc.
    assert ("key" ∉ columns df1) as Hdf1.
    { intros [?|[?|Heq]]%Hcols1; [done..|].
      by apply (slot_col_not_key i Hi "_champName"); [compute_done|]. }
    destruct (IH df1 st1 Hdf1 Hrest c Hc) as [H1|[H2|H3]].
    + apply Hcols1 in H1 as [?|[?| ->]]; [by left|by right; left|].
      right. right. by exists i.
    + by right; left.
    + by right; right.
Qed.

(** A player file without the column [key], such as the directory built
    with [include_key = False], cannot be used: whatever the noise rate and
    the answers of the world, [process_match_data] raises, and nothing is
    written. *)
Theorem key_column_needed match_path player_path save_path noise_rate raw file st :
  fs st !! match_path = Some raw →
  fs st !! player_path = Some file →
  "key" ∉ columns raw → "p1_key" ∉ columns raw →
  "key" ∉ columns file → "p1_key" ∉ columns file →
  (∃ e, (process_match_data W match_path player_path save_path noise_rate st).1 = inl e)
  ∧ fs (process_match_data W match_path player_path save_path noise_rate st).2 = fs st.
Proof.
  intros Hraw Hfile Hk1 Hp1 Hk2 Hp2.
  enough (∃ e st', processed_matches W match_path player_path noise_rate st = (inl e, st')
                   ∧ fs st' = fs st) as (e & st' & Hrun & Hfs).
  { unfold process_match_data. rewrite (bind_run _ _ _ _ _ Hrun). split; [by exists e|done]. }
  unfold processed_matches. unfold bind at 1, py_assert.
  destruct (Qle_bool 0 noise_rate && Qle_bool noise_rate 1); [|by eexists _, _].
  unfold ret at 1. unfold bind at 1, attempt at 1.
  rewrite (bind_run _ _ _ _ _ (pd_read_csv_ok _ _ _ Hraw)).
  assert (fs (log (read_csv match_path) true st) !! player_path = Some file) as Hfile'
    by done.
  rewrite (bind_run _ _ _ _ _ (pd_read_csv_ok _ _ _ Hfile')).
  set (st1 := log (read_csv player_path) true _).
  unfold bind at 1, drop_columns.
  destruct (filter (λ c, c ∉ columns (reset_index file)) _) as [|c0 l0].
  2:{ unfold raise, bind, ret. by eexists _, _. }
  unfold ret at 1 2. set (pd := frame _ _). unfold bind at 1, ret at 1. cbn [fst snd].
  assert (("key" ∉ columns pd) ∧ ("p1_key" ∉ columns pd)) as [Hkpd Hppd].
  { unfold pd, frame. cbn [columns]. rewrite !list_elem_of_filter. tauto. }
  unfold bind at 1, attempt at 1, bind at 1, ask at 1.
  destruct (w_versions W (trace st1) "na1") as [e|version].
  { destruct e; unfold raise, bind, print; try case_decide; by eexists _, _. }
  unfold ask at 1.
  destruct (w_champions W _ version) as [e|data].
  { destruct e; unfold raise, bind, print; try case_decide; by eexists _, _. }
  cbv beta iota zeta. unfold bind at 1, ret at 1.
  set (st2 := log (champions version) _ _).
  pose proof (process_slots_fs pd noise_rate (champ_dict data) (seqZ 1 10)
                (reset_index raw) st2) as Hfs.
  unfold bind at 1.
  destruct (process_slots W pd noise_rate (champ_dict data) (seqZ 1 10)
              (reset_index raw) st2) as [[e|df'] st3] eqn:Hslots.
  { by eexists _, _. }
  assert (Forall (λ i, i ∈ slots) (seqZ 1 10)) as Hall by (by apply Forall_forall).
  pose proof (process_slots_no_key pd noise_rate (champ_dict data) (seqZ 1 10)
                (reset_index raw) st2 df' st3 Hall Hkpd Hk1 Hslots) as Hcols.
  unfold loc_columns.
  destruct (filter (λ c, c ∉ columns df') ordered_cols) as [|c1 l1] eqn:Hf.
  - exfalso.
    assert ("p1_key" ∉ columns df') as Hmiss.
    { intros Hin. apply Hcols in Hin as [?|[?|(i & Hi & Heq)]]; [done..|].
      change "p1_key" with (slot_col 1 "_key") in Heq.
      apply slot_col_inj in Heq as [_ [=]]; [compute_done|done|compute_done..]. }
    assert ("p1_key" ∈ filter (λ c, c ∉ columns df') ordered_cols) as Hin.
    { apply list_elem_of_filter. split; [done|compute_done]. }
    rewrite Hf in Hin. by apply elem_of_nil in Hin.
  - by eexists _, _.
Qed.
End NoKey.

(** One match against a directory saved without keys. *)
Lemma keyless_directory_refused :
  (∃ e, (process_match_data shared_match_world raw_path "out/players.csv" None 0
           keyless_files).1 = inl e)
  ∧ fs (process_match_data shared_match_world raw_path "out/players.csv" None 0
          keyless_files).2 = fs keyless_files.
Proof.
  apply (key_column_needed shared_match_world raw_path "out/players.csv" None 0
           (raw_file [("M1", ten "a")]) (stored false unknown_row) keyless_files).
  - unfold keyless_files. cbn [fs]. rewrite lookup_insert_ne by compute_done.
    apply lookup_singleton_eq.
  - unfold keyless_files. cbn [fs]. apply lookup_insert_eq.
  - compute_done.
  - compute_done.
  - compute_done.
  - compute_done.
Defined.
(** ** From the ladder to the crawl *)

Section LadderFile.
Context (W : World).

Lemma ranked_players_columns reg player_count st df st' :
  ranked_players W reg player_count st = (inr df, st') → columns df = player_columns.
Proof.
  unfold ranked_players.
  unfold bind at 1. destruct (py_assert _ _ st) as [[e|[]] s1]; [done|].
  unfold bind at 1. destruct (py_assert _ _ s1) as [[e|[]] s2]; [done|].
  unfold bind at 1. destruct (check_api_key W reg s2) as [[e|[]] s3]; [done|].
  unfold bind at 1. destruct (ask _ _ s3) as [[e|chal] s4]; [done|].
  unfold bind at 1. destruct (ask _ _ s4) as [[e|gm] s5]; [done|].
  unfold bind at 1. destruct (ask _ _ s5) as [[e|ms] s6]; [done|].
  unfold bind at 1.
  destruct (load_player_loop W reg _ _ s6) as [[e|v] s7]; [done|].
  cbv zeta. unfold bind at 1.
  destruct (sort_values_desc _ _ s7) as [[e|df1] s8] eqn:Hsort; [done|].
  unfold bind, now, ret. intros [= <- _]. cbn [columns with_file_name].
  revert Hsort. unfold sort_values_desc. case_decide; [|done].
  destruct (mapM _ _); [|done]. by intros [= <- _].
Qed.

(** The file [load_players] saves is a player file for [load_matches],
    provided every puuid of the ladder is a string that is read as text:
    given as [load_path], the file is read, and the players crawled are the
    puuids of the table [load_players] returned, in the order of the table. *)
Theorem saved_ladder_feeds_crawl reg player_count save_path st df st1 reg' date t :
  load_players W reg player_count (Some save_path) st = (inr df, st1) →
  let path := save_path +:+ default "" (file_name df) in
  last (trace st1) = Some (to_csv path, true) →
  Forall (λ ir : cell * row, sure_text (row_get "puuid" ir.2)) (rows df) →
  reg' ∈ valid_regions → (0 < t)%Q → (inject_Z date < w_time W (trace st1))%Q →
  w_platform_data W (trace st1 ++ [(time_time, true); (read_csv path, true)]) reg'
    = inr () →
  ∃ ct st2,
    load_matches_setup W reg' date None (Some path) (Some t) st1
      = (inr (t, (λ ir, row_get "puuid" ir.2) <$> rows df, ct), st2).
Proof.
  intros Hrun path Hlast Hpuuids Hreg Ht Hdate Hprobe.
  set (file := retyped W (stored false df)).
  assert (columns df = player_columns ∧ fs st1 !! path = Some file)
    as [Hcols Hfile].
  { revert Hrun Hlast. unfold load_players, bind at 1.
    destruct (ranked_players W reg player_count st) as [[e|df0] sta] eqn:Hranked; [done|].
    apply ranked_players_columns in Hranked.
    unfold bind, attempt, df_to_csv.
    destruct (w_to_csv W (trace sta) _); simpl; intros [= <- <-]; simpl.
    - rewrite last_snoc. by intros [=].
    - intros _. split; [done|]. by rewrite lookup_insert_eq. }
  assert ((λ ir : cell * row, row_get "puuid" ir.2) <$> rows (reset_index file)
          = (λ ir, row_get "puuid" ir.2) <$> rows df) as Hrows.
  { unfold reset_index, frame. cbn [rows].
    rewrite (list_fmap_compose snd (row_get "puuid") (range_index _)), range_index_rows.
    rewrite <- list_fmap_compose.
    change (column "puuid" (retyped W (stored false df)) = column "puuid" df).
    assert (column "puuid" (stored false df) = column "puuid" df) as Hsame by done.
    rewrite retyped_column; [done| |].
    - unfold stored, frame. cbn [columns]. rewrite Hcols. compute_done.
    - rewrite Hsame. apply reread_sure. unfold column. by apply Forall_fmap. }
  eexists _, _.
  unfold load_matches_setup, bind at 1, py_assert.
  rewrite bool_decide_eq_true_2 by done. unfold ret at 1.
  unfold bind at 1 2.
  assert (Qle_bool t 0 = false) as ->.
  { destruct (Qle_bool t 0) eqn:Hle; [|done].
    apply Qle_bool_iff in Hle. by apply Qlt_not_le in Ht. }
  cbn [negb]. unfold ret at 1 2. unfold bind at 1, now at 1. unfold bind at 1.
  assert (Qle_bool (w_time W (trace st1)) (inject_Z date) = false) as ->.
  { destruct (Qle_bool _ _) eqn:Hle; [|done].
    apply Qle_bool_iff in Hle. by apply Qlt_not_le in Hdate. }
  cbn [negb]. unfold ret at 1.
  assert (fs (log time_time true st1) !! path = Some file) as Hfile' by done.
  unfold bind at 1.
  rewrite (bind_run _ _ _ _ _ (pd_read_csv_ok _ _ _ Hfile')).
  unfold bind at 1, attempt, loc_series.
  rewrite decide_True by (unfold reset_index, file, retyped, stored, frame; cbn [columns];
                          rewrite Hcols; compute_done).
  unfold ret at 1 2. unfold bind at 1, check_api_key, bind at 1, attempt, ask.
  cbn [trace log]. rewrite <- app_assoc. cbn [app].
  match goal with
  | |- context [w_platform_data W ?h reg'] =>
      replace (w_platform_data W h reg') with (@inr exn unit ())
        by (symmetry; exact Hprobe)
  end.
  unfold ret at 1. unfold bind, now, ret. rewrite Hrows. reflexivity.
Qed.
End LadderFile.

(** A ladder of two, saved, and read back by the crawler. *)
Lemma ladder_saved_and_read :
  let W := make_world (λ _, 1000%Q) [an_entry "a" 50; an_entry "b" 200]
             (λ id, inr (a_profile id)) (λ _, inr []) (λ _, inr []) None in
  ∃ df st1 ct st2,
    load_players W "na1" 2 (Some "data/") st0 = (inr df, st1)
    ∧ load_matches_setup W "na1" 5 None (Some ("data/" +:+ default "" (file_name df)))
        (Some 1%Q) st1
      = (inr (1%Q, (λ ir, row_get "puuid" ir.2) <$> rows df, ct), st2).
Proof.
  intros W.
  assert (match load_players W "na1" 2 (Some "data/") st0 with
          | (inr df, st1) =>
              last (trace st1)
              = Some (to_csv ("data/" +:+ default "" (file_name df)), true)
              ∧ forallb (λ ir : cell * row, sure_text (row_get "puuid" ir.2)) (rows df)
                = true
          | _ => False
          end) as Hok by (vm_compute; split; reflexivity).
  destruct (load_players W "na1" 2 (Some "data/") st0) as [[e|df] st1] eqn:Hrun;
    [destruct Hok|].
  destruct Hok as [Hlast Hpuuids].
  destruct (saved_ladder_feeds_crawl W "na1" 2 "data/" st0 df st1 "na1" 5 1%Q Hrun Hlast)
    as (ct & st2 & Hsetup);
    [apply forallb_True; by rewrite Hpuuids
    |compute_done|reflexivity|reflexivity|reflexivity|].
  exists df, st1, ct, st2. split; [reflexivity|exact Hsetup].
Defined.
(** ** Noise *)

Section NoisyTable.
Context (W : World).

(** Noise only hides names. With well-formed files in which every name is
    a string, the static data at hand and any noise rate between 0 and 1,
    whatever rows are drawn, [process_match_data] returns; every row of its table stems from a row of
    the raw file, with its label, champion ids and win flags; the name of
    a slot is the name the raw file has there or [<U>], never another one;
    and the key of the slot is the key of a player of that name, whenever
    the player file has one. *)
Theorem noise_only_hides_names match_path player_path noise_rate raw file st
    version data :
  (0 <= noise_rate <= 1)%Q →
  fs st !! match_path = Some raw →
  columns raw = raw_columns →
  string_names (rows raw) →
  fs st !! player_path = Some file →
  columns file = key3 ++ ["key"] →
  string_players (rows file).*2 →
  (∀ h, w_versions W h "na1" = inr version) →
  (∀ h, w_champions W h version = inr data) →
  ∃ out st',
    process_match_data W match_path player_path None noise_rate st
      = (inr (Table out), st')
    ∧ ∀ ir, ir ∈ rows out →
        ∃ (n : nat) r,
          (rows raw).*2 !! n = Some r
          ∧ ir.1 = CInt (Z.of_nat n)
          ∧ ∀ j, j ∈ slots →
              (row_get (slot_col j "_name") ir.2 = row_get (slot_col j "_name") r
               ∨ row_get (slot_col j "_name") ir.2 = CStr "<U>")
              ∧ row_get (slot_col j "_champId") ir.2 = row_get (slot_col j "_champId") r
              ∧ row_get (slot_col j "_win") ir.2 = row_get (slot_col j "_win") r
              ∧ (has_name (rows (player_table file)).*2
                   (row_get (slot_col j "_name") ir.2) →
                 ∃ d, d ∈ (rows (player_table file)).*2
                      ∧ row_get "name" d = row_get (slot_col j "_name") ir.2
                      ∧ row_get (slot_col j "_key") ir.2 = row_get "key" d).
Proof.
  intros Hnr Hraw Hcols Hnames Hfile Hfcols Hplayers Hver Hdata.
  destruct (processed_matches_noisy W match_path player_path noise_rate raw file st
              version data Hnr Hraw Hcols Hnames Hfile Hfcols Hplayers Hver Hdata)
    as (out & st' & h & Hrun & Hcout & Hrout & _ & _).
  exists out, st'. split.
  { unfold process_match_data. by rewrite (bind_run _ _ _ _ _ Hrun). }
  assert (∀ j s, j ∈ slots → s ∈ ["_name"; "_champId"; "_win"; "_key"] →
            slot_col j s ∈ ordered_cols) as Hkept.
  { assert (Forall (λ j, Forall (λ s, slot_col j s ∈ ordered_cols)
                           ["_name"; "_champId"; "_win"; "_key"]) slots)
      as H by compute_done.
    intros j s Hj Hs. rewrite Forall_forall in H. specialize (H j Hj).
    rewrite Forall_forall in H. by apply H. }
  assert (∀ (x : row) c, c ∈ ordered_cols →
            row_get c (filter (λ kv, kv.1 ∈ ordered_cols) x) = row_get c x) as Hget.
  { intros x c Hc. apply row_get_filter. by intros v. }
  intros ir. rewrite Hrout. intros (x & -> & Hx)%list_elem_of_fmap. cbn [fst snd].
  destruct (noisy_origin W noise_rate (rows (player_table file)).*2 (champ_dict data)
              slots (rows (reset_index raw)) h x)
    as (ir0 & Hin0 & Hlabel & Hkeep & Hfacts);
    [apply NoDup_seqZ|by apply Forall_forall|done|].
  unfold reset_index, frame, range_index in Hin0. cbn [rows] in Hin0.
  apply elem_of_lookup_imap_1 in Hin0 as (n & r & -> & Hr).
  exists n, r. split_and!; [done..|].
  intros j Hj. rewrite !Hget by (apply Hkept; [done|compute_done]).
  destruct (Hfacts j Hj) as (Hname & Hkey & _).
  assert (∀ s, s ∈ ["_champId"; "_win"] →
            row_get (slot_col j s) x.2 = row_get (slot_col j s) r) as Hfact.
  { intros s Hs. apply Hkeep. intros i Hi. split.
    - apply fact_untouched; [done..|]. revert Hs. rewrite !elem_of_cons. tauto.
    - assert (s ≠ "_name") by (intros ->; revert Hs; compute_done).
      apply (slot_col_ne j); [done| |compute_done|done|right; done].
      revert Hs. unfold suffixes. rewrite !elem_of_cons. tauto. }
  split_and!; [done|apply Hfact; compute_done|apply Hfact; compute_done|done].
Qed.
End NoisyTable.

(** One match with a noise rate of 1. *)
Lemma one_match_full_noise :
  ∃ out st',
    process_match_data shared_match_world raw_path "out/players.csv" None 1 two_files
      = (inr (Table out), st')
    ∧ ∀ ir j, ir ∈ rows out → j ∈ slots →
        ∃ r, r ∈ (rows (raw_file [("M1", ten "a")])).*2
             ∧ (row_get (slot_col j "_name") ir.2 = row_get (slot_col j "_name") r
                ∨ row_get (slot_col j "_name") ir.2 = CStr "<U>").
Proof.
  destruct (noise_only_hides_names shared_match_world raw_path "out/players.csv" 1
              (raw_file [("M1", ten "a")])
              (stored false
                 (directory [{[ "name" := CStr "a"; "puuid" := CStr "puuid-a";
                                "summonerId" := CStr "id-a" ]}]))
              two_files "14.1.1"
              [("Aatrox", {| champ_key := 266; champ_name := "Aatrox" |})])
    as (out & st' & Hrun & Hrows).
  - split; unfold Qle; simpl; lia.
  - unfold two_files. cbn [fs]. rewrite lookup_insert_ne by compute_done.
    apply lookup_singleton_eq.
  - vm_compute. reflexivity.
  - apply string_names_check. vm_compute. reflexivity.
  - unfold two_files. cbn [fs]. apply lookup_insert_eq.
  - reflexivity.
  - apply string_players_check. vm_compute. reflexivity.
  - intros h. reflexivity.
  - intros h. reflexivity.
  - exists out, st'. split; [exact Hrun|].
    intros ir j Hir Hj. destruct (Hrows ir Hir) as (n & r & Hr & _ & Hfacts).
    exists r. split; [by eapply list_elem_of_lookup_2|]. exact (proj1 (Hfacts j Hj)).
Defined.
(** ** Arguments the crawler refuses *)

Section Checks.
Context (W : World).

(** The checks of [load_matches] after the region check, in their order:
    the time limit, the date against one reading of the clock, the source of
    the players, the column [puuid]. Each raises before the status probe:
    no remote call is made. A missing player file raises
    [FileNotFoundError], which no handler catches; a missing column
    [puuid] prints its message and raises [KeyError]. *)
Theorem load_matches_checks reg date players load_path save_path t st :
  reg ∈ valid_regions →
  let run := load_matches W reg date players load_path save_path (Some t) st in
  let st1 := log time_time true st in
  let no_column := [[Txt "Data must have column with key 'puuid'."]] in
  ((t <= 0)%Q →
     run = (inl (AssertionError "Invalid time limit (must be >0)."), st))
  ∧ ((0 < t)%Q → (w_time W (trace st) <= inject_Z date)%Q →
     run = (inl (AssertionError "Invalid date (must be < current Epoch minute time)"),
            st1))
  ∧ ((0 < t)%Q → (inject_Z date < w_time W (trace st))%Q →
     (players = None → load_path = None →
        run = (inl (ValueError "Specify at least one of players or load_data"), st1))
     ∧ (∀ df, players = Some df → "puuid" ∉ columns df →
          run = (inl (KeyError "puuid"), printed no_column st1))
     ∧ (∀ path, players = None → load_path = Some path → fs st !! path = None →
          run = (inl (FileNotFoundError path), log (read_csv path) false st1))
     ∧ (∀ path df, players = None → load_path = Some path →
          fs st !! path = Some df → "puuid" ∉ columns df →
          run = (inl (KeyError "puuid"),
                 printed no_column (log (read_csv path) true st1)))).
Proof.
  intros Hreg run st1 no_column. unfold run, load_matches, load_matches_setup.
  unfold bind, py_assert.
  rewrite bool_decide_eq_true_2 by done. unfold ret at 1.
  split_and!.
  - intros Ht%Qle_bool_iff. by rewrite Ht.
  - intros Ht Hd%Qle_bool_iff.
    assert (Qle_bool t 0 = false) as ->.
    { destruct (Qle_bool t 0) eqn:Hle; [|done].
      apply Qle_bool_iff in Hle. by apply Qlt_not_le in Ht. }
    cbn [negb]. unfold ret, now. by rewrite Hd.
  - intros Ht Hd.
    assert (Qle_bool t 0 = false) as ->.
    { destruct (Qle_bool t 0) eqn:Hle; [|done].
      apply Qle_bool_iff in Hle. by apply Qlt_not_le in Ht. }
    cbn [negb]. unfold ret, now.
    assert (Qle_bool (w_time W (trace st)) (inject_Z date) = false) as ->.
    { destruct (Qle_bool _ _) eqn:Hle; [|done].
      apply Qle_bool_iff in Hle. by apply Qlt_not_le in Hd. }
    cbn [negb]. fold st1.
    split_and!.
    + by intros -> ->.
    + intros df -> Hcol. unfold attempt, loc_series.
      by rewrite decide_False by done.
    + intros path -> -> Hmiss. unfold pd_read_csv.
      cbn [fs log st1]. by rewrite Hmiss.
    + intros path df -> -> Hfile Hcol. unfold pd_read_csv.
      cbn [fs log st1]. rewrite Hfile. unfold attempt, loc_series.
      by rewrite decide_False by done.
Qed.

(** The static data of [process_match_data]. When the version list or the
    champion list cannot be fetched ([ApiError]), the function raises the
    error after the two files have been read; [Invalid API key.] is printed
    exactly when the status is 401; the champion list is not asked for
    after the version list has failed, and nothing is written. *)
Theorem static_data_failure match_path player_path save_path noise_rate raw file st code :
  (0 <= noise_rate <= 1)%Q →
  fs st !! match_path = Some raw →
  fs st !! player_path = Some file →
  columns file = key3 ++ ["key"] →
  let st2 := log (read_csv player_path) true (log (read_csv match_path) true st) in
  let said := if decide (code = 401) then [[Txt "Invalid API key."]] else [] in
  let run := process_match_data W match_path player_path save_path noise_rate st in
  (w_versions W (trace st2) "na1" = inl (ApiError code) →
     run = (inl (ApiError code), printed said (log (versions_for_region "na1") false st2)))
  ∧ (∀ version,
       w_versions W (trace st2) "na1" = inr version →
       w_champions W (trace st2 ++ [(versions_for_region "na1", true)]) version
         = inl (ApiError code) →
       run = (inl (ApiError code),
              printed said
                (log (champions version) false
                   (log (versions_for_region "na1") true st2)))).
Proof.
  intros [Hlo Hhi] Hraw Hfile Hfcols st2 said run.
  apply Qle_bool_iff in Hlo, Hhi.
  assert (fs (log (read_csv match_path) true st) !! player_path = Some file)
    as Hfile' by done.
  assert (∀ s : state, printed said s
            = (if decide (code = 401)
               then printed [[Txt "Invalid API key."]] s else s)) as Hsaid.
  { intros [tr out files]. unfold said, printed. case_decide; [done|].
    simpl. by rewrite app_nil_r. }
  split.
  - intros Hver. unfold run, process_match_data, processed_matches.
    unfold bind at 1 2, py_assert.
    rewrite Hlo, Hhi. cbn [andb]. unfold ret at 1.
    unfold bind at 1, attempt at 1.
    rewrite (bind_run _ _ _ _ _ (pd_read_csv_ok _ _ _ Hraw)).
    rewrite (read_player_table file _ _ _ Hfile' Hfcols).
    unfold ret at 1. fold st2.
    unfold bind at 1, ret at 1. cbn [fst snd].
    unfold bind at 1, attempt at 1, bind at 1, ask at 1.
    rewrite Hver, Hsaid. unfold bind, print, raise, printed. by case_decide.
  - intros version Hver Hchamp. unfold run, process_match_data, processed_matches.
    unfold bind at 1 2, py_assert.
    rewrite Hlo, Hhi. cbn [andb]. unfold ret at 1.
    unfold bind at 1, attempt at 1.
    rewrite (bind_run _ _ _ _ _ (pd_read_csv_ok _ _ _ Hraw)).
    rewrite (read_player_table file _ _ _ Hfile' Hfcols).
    unfold ret at 1. fold st2.
    unfold bind at 1, ret at 1. cbn [fst snd].
    unfold bind at 1, attempt at 1, bind at 1, ask at 1.
    rewrite Hver. unfold ask at 1. cbn [trace log].
    match goal with
    | |- context [w_champions W ?h version] =>
        replace (w_champions W h version) with (@inl exn (dict champion) (ApiError code))
          by (symmetry; exact Hchamp)
    end.
    rewrite Hsaid. unfold bind, print, raise, printed. by case_decide.
Qed.
End Checks.

(** A date in the future, and a table of players without the column
    [puuid]. *)
Lemma late_date_and_no_puuid :
  load_matches shared_match_world "na1" 5000 (Some (puuid_frame ["A"])) None None
      (Some 1%Q) st0
    = (inl (AssertionError "Invalid date (must be < current Epoch minute time)"),
       log time_time true st0)
  ∧ load_matches shared_match_world "na1" 5 (Some (frame ["id"] [])) None None
      (Some 1%Q) st0
    = (inl (KeyError "puuid"),
       printed [[Txt "Data must have column with key 'puuid'."]] (log time_time true st0)).
Proof.
  assert ("na1" ∈ valid_regions) as Hreg by compute_done.
  assert (0 < 1)%Q as Hpos by reflexivity.
  split.
  - destruct (load_matches_checks shared_match_world "na1" 5000
                (Some (puuid_frame ["A"])) None None 1%Q st0 Hreg) as (_ & Hdate & _).
    apply (Hdate Hpos). unfold Qle. simpl. lia.
  - destruct (load_matches_checks shared_match_world "na1" 5
                (Some (frame ["id"] [])) None None 1%Q st0 Hreg) as (_ & _ & Hsrc).
    destruct (Hsrc Hpos) as (_ & Hcol & _); [reflexivity|].
    apply (Hcol (frame ["id"] []) eq_refl). compute_done.
Defined.

(** The version list is forbidden: the table builder raises after the two
    reads and the one call, and prints nothing. *)
Lemma forbidden_version_list :
  process_match_data no_static_data raw_path "out/players.csv" None 0 two_files
    = (inl (ApiError 403),
       log (versions_for_region "na1") false
         (log (read_csv "out/players.csv") true (log (read_csv raw_path) true two_files))).
Proof.
  destruct (static_data_failure no_static_data raw_path "out/players.csv" None 0
              (raw_file [("M1", ten "a")])
              (stored false
                 (directory [{[ "name" := CStr "a"; "puuid" := CStr "puuid-a";
                                "summonerId" := CStr "id-a" ]}]))
              two_files 403) as [Hver _].
  - split; unfold Qle; simpl; lia.
  - unfold two_files. cbn [fs]. rewrite lookup_insert_ne by compute_done.
    apply lookup_singleton_eq.
  - unfold two_files. cbn [fs]. apply lookup_insert_eq.
  - reflexivity.
  - rewrite (Hver eq_refl). unfold printed, log. cbn [trace stdout fs].
    by rewrite app_nil_r.
Defined.
